(** * QuickCurrency asset generators: a shallow embedding and its properties

    The repository holds two Python scripts that draw PNG assets with Pillow:
    [scripts/create-icons.py] (module [CreateIcons] below) and
    [scripts/create-store-assets.py] (module [CreateStoreAssets]).

    - Python [float] is IEEE 754 binary64.  A float is modelled by the exact
      rational it denotes; every arithmetic operation rounds the exact result
      to the nearest binary64 value, ties to even ([rnd]).
    - Pillow is an external library, taken as of its releases from 9.5 on.
      An image is the canvas it was created with (mode, width, height,
      background) together with the list of drawing calls made on it, in
      order; shapes are recorded, not rasterised.  What Pillow checks before
      it draws is part of the model: [ellipse], [rectangle] and
      [rounded_rectangle] refuse a box whose corners are out of order
      ([ValueError]); the built-in bitmap font cannot draw a text outside
      Latin-1 ([UnicodeEncodeError]); [Image.new] refuses a canvas too wide
      for a row of four-byte pixels ([MemoryError]).  Memory that runs out
      on a canvas within these bounds is not modelled.
    - Font files, text metrics, the kind of built-in font and the file
      system belong to the machine the scripts run on.  They are an
      environment [Env] the functions read; exceptions and the record of
      font loads and of files written are carried by the monad [M].  What
      the scripts print is not modelled. *)

From Stdlib Require Import ZArith QArith Qround Qreduction Qpower Lqa Lia.
From Stdlib Require Import List String Ascii Bool DecimalString.
From Stdlib Require Import Floats.SpecFloat.
Import ListNotations.

Open Scope Z_scope.

(* ================================================================== *)
(** ** Binary64 arithmetic *)

Module Float.

(** A finite double, as the rational number it stands for. *)
Definition float : Type := Q.

(** [ilog2 x] is the integer [l] with [2^l <= x < 2^(l+1)], for [0 < x]. *)
Definition ilog2 (x : Q) : Z :=
  let l := Z.log2 (Qnum x) - Z.log2 (Zpos (Qden x)) in
  if Qle_bool (2 ^ l) x then l else l - 1.

(** Exponent of the last place of the double nearest to [x]: 53 significant
    bits, and never below the subnormal exponent [-1074]. *)
Definition cexp (x : Q) : Z := Z.max (ilog2 x - 52) (-1074).

(** Nearest integer, ties to even. *)
Definition rne (x : Q) : Z :=
  let f := Qfloor x in
  match Qcompare (x - inject_Z f) (1 # 2) with
  | Lt => f
  | Gt => f + 1
  | Eq => if Z.even f then f else f + 1
  end.

Definition rnd_pos (x : Q) : Q :=
  let c := cexp x in (inject_Z (rne (x / 2 ^ c)) * 2 ^ c)%Q.

(** Round to nearest binary64, ties to even.  Overflow to infinity (beyond
    [2^1024]) is not modelled: no value of these scripts comes near it. *)
Definition rnd (x : Q) : float :=
  Qred (match Qcompare x 0 with
        | Eq => 0
        | Gt => rnd_pos x
        | Lt => - rnd_pos (- x)
        end)%Q.

(** A decimal literal such as [0.08] denotes the double nearest to 8/100. *)
Definition lit (q : Q) : float := rnd q.

(** [float(i)]: the implicit conversion in [int * float] and [int + float]. *)
Definition float_of_int (i : Z) : float := rnd (inject_Z i).

Definition fadd (x y : float) : float := rnd (x + y).
Definition fmul (x y : float) : float := rnd (x * y).
Definition fdiv (x y : float) : float := rnd (x / y).

(** [a / b] on two Python ints: the correctly rounded quotient. *)
Definition int_true_div (a b : Z) : float := rnd (inject_Z a / inject_Z b).

(** [int(x)]: truncation toward zero. *)
Definition py_int (x : float) : Z := Z.quot (Qnum x) (Zpos (Qden x)).

(** [max(a, b)] keeps [a] unless [b > a]; [min(a, b)] keeps [a] unless
    [b < a]. *)
Definition py_max (a b : float) : float := if Qle_bool b a then a else b.
Definition py_min (a b : float) : float := if Qle_bool a b then a else b.

End Float.
Import Float.

(** [i *~ x] is Python's [i * x] and [i +~ x] its [i + x], for an int [i]
    and a float [x]: the int is converted first. *)
Notation "i *~ x" := (fmul (float_of_int i) x) (at level 40, left associativity).
Notation "i +~ x" := (fadd (float_of_int i) x) (at level 50, left associativity).

(* ================================================================== *)
(** ** Pillow: images, drawing calls, fonts *)

Inductive color : Type :=
| RGB (r g b : Z)
| RGBA (r g b a : Z)
| Hex (s : string).

Inductive font : Type :=
| TrueType (path : string) (size : Z)
| DefaultFont.

Inductive mode : Type := ModeRGB | ModeRGBA.

Definition point : Type := Z * Z.
Definition box : Type := Z * Z * Z * Z.

Inductive image : Type :=
| Canvas (m : mode) (width height : Z) (background : color) (ops : list draw_op)
with draw_op : Type :=
| Line (pts : list point) (fill : option color) (width : Z)
| Text (xy : point) (text : string) (fill : option color) (f : font)
| Ellipse (xy : box) (fill outline : option color) (width : Z)
| Rectangle (xy : box) (fill : option color)
| RoundedRectangle (xy : box) (radius : Z) (fill : option color)
| Polygon (pts : list point) (fill : option color)
| Paste (src : image) (at_ : point) (mask : image)
| Blur (radius : Z).

Definition image_mode (img : image) : mode :=
  let '(Canvas m _ _ _ _) := img in m.

Definition image_size (img : image) : Z * Z :=
  let '(Canvas _ w h _ _) := img in (w, h).


Definition image_ops (img : image) : list draw_op :=
  let '(Canvas _ _ _ _ ops) := img in ops.

(** A drawing call mutates the image in place: it adds to the record of
    calls and leaves mode, size and background alone. *)
Definition draw (img : image) (op : draw_op) : image :=
  let '(Canvas m w h bg ops) := img in Canvas m w h bg (ops ++ [op]).

(** Exceptions the scripts can meet. *)
Inductive exn : Type :=
| OSError             (* a font file that cannot be opened; a directory or
                         a file that cannot be written *)
| MetricsError        (* ImageDraw.textbbox fails *)
| ValueError          (* int() on a bad literal; a negative canvas side; a
                         box with x1 < x0 or y1 < y0 *)
| OverflowError       (* a canvas side that is no C int *)
| MemoryError         (* a canvas too wide for Pillow *)
| UnicodeEncodeError. (* the bitmap font on a text outside Latin-1 *)

Inductive event : Type :=
| EvTruetype (path : string) (size : Z)
| EvLoadDefault
| EvMakedirs (dir : string)
| EvSave (path : string) (img : image).

(** What the machine provides: which font files load at which size; the
    bounding box [textbbox] reports for a text in a font ([None]: it
    raises); whether the built-in font is the bitmap one (it is a FreeType
    font where Pillow has FreeType and is recent enough); which
    directories and files can be written. *)
Record Env : Type := {
  truetype_ok : string -> Z -> bool;
  text_bbox : font -> string -> option box;
  bitmap_default : bool;
  can_write : string -> bool
}.

(** Computations read the environment, record font loads and files
    written, and either raise or return. *)
Definition M (A : Type) : Type := Env -> list event * (exn + A).

Definition ret {A} (a : A) : M A := fun _ => ([], inr a).

Definition raise {A} (e : exn) : M A := fun _ => ([], inl e).

Definition bind {A B} (m : M A) (f : A -> M B) : M B :=
  fun env =>
    match m env with
    | (l, inl e) => (l, inl e)
    | (l, inr a) => let '(l', r) := f a env in (l ++ l', r)
    end.

(** [try: m except Exception: h]. *)
Definition try_except {A} (m : M A) (h : M A) : M A :=
  fun env =>
    match m env with
    | (l, inl _) => let '(l', r) := h env in (l ++ l', r)
    | (l, inr a) => (l, inr a)
    end.

Notation "x <- m ;; k" := (bind m (fun x => k))
  (at level 61, m at next level, right associativity).
Notation "' pat <- m ;; k" := (bind m (fun x => match x with pat => k end))
  (at level 61, pat pattern, m at next level, right associativity).

Definition log {A} (m : M A) (env : Env) : list event := fst (m env).
Definition result {A} (m : M A) (env : Env) : exn + A := snd (m env).

(** [for x in l: body], carrying the variables the body updates. *)
Fixpoint for_each {A S} (l : list A) (body : S -> A -> M S) (s : S) : M S :=
  match l with
  | [] => ret s
  | a :: rest => s' <- body s a ;; for_each rest body s'
  end.

(** [ImageFont.truetype(path, size)]. *)
Definition truetype (path : string) (size : Z) : M font :=
  fun env =>
    ([EvTruetype path size],
     if truetype_ok env path size then inr (TrueType path size) else inl OSError).

(** [ImageFont.load_default()]: the built-in font, always there. *)
Definition load_default : M font := fun _ => ([EvLoadDefault], inr DefaultFont).

(** [draw.textbbox((0, 0), text, font=font)]. *)
Definition textbbox (text : string) (f : font) : M box :=
  fun env =>
    ([], match text_bbox env f text with
         | Some b => inr b
         | None => inl MetricsError
         end).

(** A text of Latin-1 only.  A string holds the UTF-8 bytes of the Python
    text, in which the characters of Latin-1 are those whose first byte is
    below 0xC4, and no later byte reaches that value. *)
Definition latin_1 (text : string) : bool :=
  forallb (fun c => (N_of_ascii c <? 196)%N) (list_ascii_of_string text).

(** Whether [draw.text] can draw [text] in font [f]: the built-in bitmap
    font encodes the text as Latin-1, a FreeType font takes any text. *)
Definition draws (env : Env) (f : font) (text : string) : bool :=
  match f with
  | TrueType _ _ => true
  | DefaultFont => negb (bitmap_default env) || latin_1 text
  end.

(** A box with x0 <= x1 and y0 <= y1. *)
Definition well_ordered (xy : box) : bool :=
  let '(x0, y0, x1, y1) := xy in (x0 <=? x1) && (y0 <=? y1).

(** A drawing call that Pillow checks first: the call is recorded when the
    check passes, and [e] is raised when it does not. *)
Definition checked (ok : Env -> bool) (e : exn) (img : image) (op : draw_op)
    : M image :=
  fun env => ([], if ok env then inr (draw img op) else inl e).

(** [draw.text(xy, text, fill=fill, font=f)]. *)
Definition ImageDraw_text
    (img : image) (xy : point) (text : string) (fill : option color) (f : font)
    : M image :=
  checked (fun env => draws env f text) UnicodeEncodeError img (Text xy text fill f).

(** [draw.ellipse(xy, fill=fill, outline=outline, width=width)],
    [draw.rectangle(xy, fill=fill)] and
    [draw.rounded_rectangle(xy, radius=radius, fill=fill)].  ([draw.line] and
    [draw.polygon] take any points, and are recorded with [draw].) *)
Definition ImageDraw_ellipse
    (img : image) (xy : box) (fill outline : option color) (width : Z) : M image :=
  checked (fun _ => well_ordered xy) ValueError img (Ellipse xy fill outline width).

Definition ImageDraw_rectangle (img : image) (xy : box) (fill : option color)
    : M image :=
  checked (fun _ => well_ordered xy) ValueError img (Rectangle xy fill).

Definition ImageDraw_rounded_rectangle
    (img : image) (xy : box) (radius : Z) (fill : option color) : M image :=
  checked (fun _ => well_ordered xy) ValueError img (RoundedRectangle xy radius fill).

(** The largest side a canvas can have: Pillow hands both sides to its C
    core as C ints.  The largest width: four bytes a pixel, and the length
    of a row is a C int too. *)
Definition INT_MAX : Z := 2 ^ 31 - 1.
Definition WIDTH_MAX : Z := INT_MAX / 4 - 1.

(** [Image.new(mode, size, color)]. *)
Definition Image_new (m : mode) (size : Z * Z) (background : color) : M image :=
  let '(w, h) := size in
  if (w <? 0) || (h <? 0) then raise ValueError
  else if (INT_MAX <? w) || (INT_MAX <? h) then raise OverflowError
  else if WIDTH_MAX <? w then raise MemoryError
  else ret (Canvas m w h background []).

(** [os.makedirs(dir, exist_ok=True)] and [img.save(path, "PNG")]. *)
Definition makedirs (dir : string) : M unit :=
  fun env =>
    if can_write env dir then ([EvMakedirs dir], inr tt) else ([], inl OSError).

Definition save (img : image) (path : string) : M unit :=
  fun env =>
    if can_write env path then ([EvSave path img], inr tt) else ([], inl OSError).

(** [os.path.join(dir, name)], and [f"{n}"] for an int [n]. *)
Definition path_join (dir name : string) : string :=
  String.append dir (String.append "/" name).

Definition str (n : Z) : string := NilZero.string_of_int (Z.to_int n).

(** [range(n)]. *)
Definition range (n : Z) : list Z := map Z.of_nat (seq 0 (Z.to_nat n)).

(** [enumerate(l)]. *)
Definition enumerate {A} (l : list A) : list (Z * A) :=
  combine (range (Z.of_nat (List.length l))) l.

(* ================================================================== *)
(** ** scripts/create-icons.py *)

Module CreateIcons.

(** Sizes needed for Chrome extensions. *)
Definition SIZES : list Z := [16; 32; 48; 96; 128].

Definition PRIMARY_COLOR : color := RGB 37 99 235.
Definition PRIMARY_DARK : color := RGB 30 64 175.
Definition PRIMARY_LIGHT : color := RGB 59 130 246.
Definition WHITE : color := RGB 255 255 255.
Definition GREEN : color := RGB 16 185 129.

(** Get a font at the specified size. *)
Definition get_font (size : Z) : M font :=
  let size := Z.max 8 size in
  try_except (truetype "/System/Library/Fonts/Helvetica.ttc" size)
    (try_except (truetype "/System/Library/Fonts/SFNSMono.ttf" size)
       load_default).

(** Create a professional currency exchange icon with two overlapping
    coins. *)
Definition create_currency_icon (size : Z) : M image :=
  img <- Image_new ModeRGBA (size, size) (RGBA 0 0 0 0) ;;
  (* Calculate dimensions *)
  let margin := py_int (size *~ lit 0.08) in
  let coin_size := py_int (size *~ lit 0.62) in
  (* Coin positions - overlapping *)
  let coin1_x := margin in
  let coin1_y := margin in
  let coin2_x := size - margin - coin_size in
  let coin2_y := size - margin - coin_size in
  (* Draw second coin (back, EUR) - slightly darker *)
  img <- ImageDraw_ellipse img
           (coin2_x, coin2_y, coin2_x + coin_size, coin2_y + coin_size)
           (Some PRIMARY_DARK) None 1 ;;
  (* Draw inner circle for depth effect on back coin *)
  let inner_margin := Z.max 1 (py_int (coin_size *~ lit 0.08)) in
  img <- ImageDraw_ellipse img
           (coin2_x + inner_margin, coin2_y + inner_margin,
            coin2_x + coin_size - inner_margin, coin2_y + coin_size - inner_margin)
           (Some (RGB 35 75 190)) None 1 ;;
  (* Draw first coin (front, USD) - brighter *)
  img <- ImageDraw_ellipse img
           (coin1_x, coin1_y, coin1_x + coin_size, coin1_y + coin_size)
           (Some PRIMARY_COLOR) None 1 ;;
  (* Draw inner circle for depth effect on front coin *)
  img <- ImageDraw_ellipse img
           (coin1_x + inner_margin, coin1_y + inner_margin,
            coin1_x + coin_size - inner_margin, coin1_y + coin_size - inner_margin)
           (Some PRIMARY_LIGHT) None 1 ;;
  (* Draw currency symbols *)
  let font_size := Z.max 10 (py_int (coin_size *~ lit 0.45)) in
  font <- get_font font_size ;;
  (* Dollar sign on front coin *)
  let dollar_text := "$"%string in
  '(text_width, text_height) <-
    try_except
      ('(x0, y0, x1, y1) <- textbbox dollar_text font ;; ret (x1 - x0, y1 - y0))
      (ret (font_size / 2, font_size)) ;;
  let dollar_x := coin1_x + (coin_size - text_width) / 2 in
  let dollar_y := coin1_y + (coin_size - text_height) / 2 - py_int (size *~ lit 0.02) in
  img <- ImageDraw_text img (dollar_x, dollar_y) dollar_text (Some WHITE) font ;;
  (* Euro sign on back coin *)
  img <-
    (if 32 <=? size then
       let euro_text := "€"%string in
       '(text_width, text_height) <-
         try_except
           ('(x0, y0, x1, y1) <- textbbox euro_text font ;; ret (x1 - x0, y1 - y0))
           (ret (font_size / 2, font_size)) ;;
       let euro_x := coin2_x + (coin_size - text_width) / 2 in
       let euro_y := coin2_y + (coin_size - text_height) / 2 - py_int (size *~ lit 0.02) in
       ImageDraw_text img (euro_x, euro_y) euro_text (Some (RGB 220 225 240)) font
     else ret img) ;;
  (* Draw exchange arrows between coins (only for larger sizes) *)
  let img :=
    if 48 <=? size then
      let arrow_color := GREEN in
      let arrow_thickness := Z.max 2 (py_int (size *~ lit 0.025)) in
      (* Center point between coins *)
      let center_x := size / 2 in
      let center_y := size / 2 in
      (* Arrow dimensions *)
      let arrow_len := py_int (size *~ lit 0.10) in
      let arrow_head := Z.max 3 (py_int (size *~ lit 0.04)) in
      (* Right arrow (top) *)
      let arrow_y1 := center_y - py_int (size *~ lit 0.05) in
      let img := draw img
        (Line [(center_x - arrow_len, arrow_y1); (center_x + arrow_len, arrow_y1)]
           (Some arrow_color) arrow_thickness) in
      let img := draw img
        (Polygon [(center_x + arrow_len, arrow_y1);
                  (center_x + arrow_len - arrow_head, arrow_y1 - arrow_head);
                  (center_x + arrow_len - arrow_head, arrow_y1 + arrow_head)]
           (Some arrow_color)) in
      (* Left arrow (bottom) *)
      let arrow_y2 := center_y + py_int (size *~ lit 0.05) in
      let img := draw img
        (Line [(center_x + arrow_len, arrow_y2); (center_x - arrow_len, arrow_y2)]
           (Some arrow_color) arrow_thickness) in
      draw img
        (Polygon [(center_x - arrow_len, arrow_y2);
                  (center_x - arrow_len + arrow_head, arrow_y2 - arrow_head);
                  (center_x - arrow_len + arrow_head, arrow_y2 + arrow_head)]
           (Some arrow_color))
    else img in
  ret img.

(** The driver: the output directory, then one icon per configured size,
    each saved as [<size>.png] before the next is drawn.  Paths are taken
    from the directory of the script. *)
Definition main : M unit :=
  let output_dir := "../public/icon"%string in
  (* Create output directory if it doesn't exist *)
  _ <- makedirs output_dir ;;
  for_each SIZES
    (fun _ size =>
       icon <- create_currency_icon size ;;
       let output_path := path_join output_dir (String.append (str size) ".png") in
       save icon output_path)
    tt.

End CreateIcons.

(* ================================================================== *)
(** ** scripts/create-store-assets.py *)

Module CreateStoreAssets.

(** Chrome Web Store requirements. *)
Definition SCREENSHOT_SIZE : Z * Z := (1280, 800).
Definition PROMO_TILE_SIZE : Z * Z := (440, 280).
Definition MARQUEE_SIZE : Z * Z := (1400, 560).

(** Colors - Blue theme. *)
Definition PRIMARY_GRADIENT_START : string := "#2563eb".
Definition PRIMARY_GRADIENT_END : string := "#1e40af".
Definition SECONDARY : string := "#3b82f6".
Definition ACCENT : string := "#10b981".
Definition WHITE : string := "#ffffff".
Definition TEXT_DARK : string := "#0f172a".
Definition CARD_BG : string := "#ffffff".

Definition HELVETICA : string := "/System/Library/Fonts/Helvetica.ttc".

(** *** [int(s, 16)] on ASCII strings *)

Definition code (c : ascii) : Z := Z.of_N (N_of_ascii c).

Definition hex_digit (c : ascii) : option Z :=
  let n := code c in
  if (48 <=? n) && (n <=? 57) then Some (n - 48)
  else if (97 <=? n) && (n <=? 102) then Some (n - 87)
  else if (65 <=? n) && (n <=? 70) then Some (n - 55)
  else None.

Definition is_space (c : ascii) : bool :=
  let n := code c in ((9 <=? n) && (n <=? 13)) || (n =? 32).

Fixpoint lstrip_spaces (cs : list ascii) : list ascii :=
  match cs with
  | c :: rest => if is_space c then lstrip_spaces rest else cs
  | [] => []
  end.

(** Digits, with single underscores allowed between two digits;
    [after_digit] tells whether an underscore may come next. *)
Fixpoint hex_digits (cs : list ascii) (after_digit : bool) (acc : Z) : option Z :=
  match cs with
  | [] => if after_digit then Some acc else None
  | c :: rest =>
      if (code c =? 95) then
        if after_digit then hex_digits rest false acc else None
      else
        match hex_digit c with
        | Some d => hex_digits rest true (16 * acc + d)
        | None => None
        end
  end.

Definition hex_body (cs : list ascii) : option Z :=
  match cs with
  | z :: x :: (_ :: _) as rest =>
      if (code z =? 48) && ((code x =? 120) || (code x =? 88))
      then hex_digits rest true 0
      else hex_digits cs false 0
  | _ => hex_digits cs false 0
  end.

(** Blanks around, an optional sign, an optional [0x], hexadecimal digits. *)
Definition int_base16 (s : string) : M Z :=
  let cs := rev (lstrip_spaces (rev (lstrip_spaces (list_ascii_of_string s)))) in
  let '(sign, body) :=
    match cs with
    | c :: rest =>
        if code c =? 45 then (-1, rest)
        else if code c =? 43 then (1, rest)
        else (1, cs)
    | [] => (1, cs)
    end in
  match hex_body body with
  | Some v => ret (sign * v)
  | None => raise ValueError
  end.

(** [s.lstrip("#")]. *)
Fixpoint lstrip_hash (s : string) : string :=
  match s with
  | String c rest => if code c =? 35 then lstrip_hash rest else s
  | EmptyString => s
  end.

(** Convert hex color to RGB tuple. *)
Definition hex_to_rgb (hex_color : string) : M (Z * Z * Z) :=
  let hex_color := lstrip_hash hex_color in
  r <- int_base16 (substring 0 2 hex_color) ;;
  g <- int_base16 (substring 2 2 hex_color) ;;
  b <- int_base16 (substring 4 2 hex_color) ;;
  ret (r, g, b).

(** Create a gradient background. *)
Definition create_gradient_background
    (size : Z * Z) (start_color end_color : string) : M image :=
  let '(width, height) := size in
  img <- Image_new ModeRGB size (RGB 0 0 0) ;;
  '(start_r, start_g, start_b) <- hex_to_rgb start_color ;;
  '(end_r, end_g, end_b) <- hex_to_rgb end_color ;;
  ret (fold_left
         (fun img y =>
            (* Diagonal gradient *)
            let ratio := fdiv (fadd (int_true_div y height) (lit 0.3)) (lit 1.3) in
            let ratio := py_min (lit 1.0) (py_max (lit 0.0) ratio) in
            let r := py_int (start_r +~ (end_r - start_r) *~ ratio) in
            let g := py_int (start_g +~ (end_g - start_g) *~ ratio) in
            let b := py_int (start_b +~ (end_b - start_b) *~ ratio) in
            draw img (Line [(0, y); (width, y)] (Some (RGB r g b)) 0))
         (range height) img).

(** Draw a rounded rectangle with optional shadow. *)
Definition draw_rounded_rectangle
    (img : image) (xy : box) (radius : Z) (fill : option color) (shadow : bool)
    : M image :=
  let '(x1, y1, x2, y2) := xy in
  ImageDraw_rounded_rectangle img (x1, y1, x2, y2) radius fill.

(** Create a mock popup UI. *)
Definition create_mock_popup (size : Z * Z) : M image :=
  let '(width, height) := size in
  img <- Image_new ModeRGBA (width, height) (RGBA 255 255 255 255) ;;
  (* Try to load fonts *)
  '(font_bold, font_regular, font_small, font_large) <-
    try_except
      (font_bold <- truetype HELVETICA 16 ;;
       font_regular <- truetype HELVETICA 14 ;;
       font_small <- truetype HELVETICA 12 ;;
       font_large <- truetype HELVETICA 32 ;;
       ret (font_bold, font_regular, font_small, font_large))
      (font_bold <- load_default ;;
       ret (font_bold, font_bold, font_bold, font_bold)) ;;
  let padding := 16 in
  let y := padding in
  (* Header *)
  img <- ImageDraw_text img (padding, y) "QuickCurrency" (Some (Hex TEXT_DARK)) font_bold ;;
  let y := y + 40 in
  (* Divider *)
  let img := draw img (Line [(padding, y); (width - padding, y)] (Some (Hex "#e2e8f0")) 1) in
  let y := y + 20 in
  (* Amount label *)
  img <- ImageDraw_text img (padding, y) "AMOUNT" (Some (Hex "#64748b")) font_small ;;
  let y := y + 20 in
  (* Amount input (mock) *)
  img <- draw_rounded_rectangle img (padding, y, width - padding, y + 44) 8
           (Some (Hex "#f8fafc")) true ;;
  img <- ImageDraw_rectangle img (padding + 1, y + 1, padding + 40, y + 43)
           (Some (Hex "#f1f5f9")) ;;
  img <- ImageDraw_text img (padding + 12, y + 12) "$" (Some (Hex "#64748b")) font_regular ;;
  img <- ImageDraw_text img (padding + 52, y + 8) "1,000.00" (Some (Hex TEXT_DARK)) font_bold ;;
  let y := y + 60 in
  (* Currency selectors *)
  img <- ImageDraw_text img (padding, y) "FROM" (Some (Hex "#64748b")) font_small ;;
  img <- ImageDraw_text img (width / 2 + 10, y) "TO" (Some (Hex "#64748b")) font_small ;;
  let y := y + 20 in
  (* From currency box *)
  img <- draw_rounded_rectangle img (padding, y, width / 2 - 25, y + 40) 8
           (Some (Hex "#f8fafc")) true ;;
  img <- ImageDraw_text img (padding + 12, y + 10) "USD - US Dollar"
           (Some (Hex TEXT_DARK)) font_regular ;;
  (* Swap button *)
  let swap_x := width / 2 - 15 in
  img <- draw_rounded_rectangle img (swap_x, y, swap_x + 30, y + 40) 8
           (Some (Hex "#f8fafc")) true ;;
  img <- ImageDraw_text img (swap_x + 8, y + 10) "<>" (Some (Hex "#64748b")) font_regular ;;
  (* To currency box *)
  img <- draw_rounded_rectangle img (width / 2 + 25, y, width - padding, y + 40) 8
           (Some (Hex "#f8fafc")) true ;;
  img <- ImageDraw_text img (width / 2 + 37, y + 10) "EUR - Euro"
           (Some (Hex TEXT_DARK)) font_regular ;;
  let y := y + 60 in
  (* Result card (blue gradient) *)
  let result_height := 100 in
  let result_y := y in
  (* Draw gradient result card *)
  let img :=
    fold_left
      (fun img i =>
         let ratio := int_true_div i result_height in
         let r := py_int (37 +~ (30 - 37) *~ ratio) in
         let g := py_int (99 +~ (64 - 99) *~ ratio) in
         let b := py_int (235 +~ (175 - 235) *~ ratio) in
         draw img (Line [(padding, result_y + i); (width - padding, result_y + i)]
                     (Some (RGB r g b)) 0))
      (range result_height) img in
  (* Round corners of result card *)
  img <- draw_rounded_rectangle img
           (padding, result_y, width - padding, result_y + result_height) 12
           None true ;;
  (* Result text *)
  img <- ImageDraw_text img (padding + 16, result_y + 12) "1,000.00 USD ="
           (Some (Hex "#ffffffcc")) font_small ;;
  img <- ImageDraw_text img (padding + 16, result_y + 35) "920.45"
           (Some (Hex WHITE)) font_large ;;
  img <- ImageDraw_text img (padding + 120, result_y + 45) "EUR"
           (Some (Hex "#ffffffaa")) font_regular ;;
  img <- ImageDraw_text img (padding + 16, result_y + 75) "1 USD = 0.92045 EUR"
           (Some (Hex "#ffffff99")) font_small ;;
  let y := y + (result_height + 16) in
  (* Save to History button *)
  img <- draw_rounded_rectangle img (padding, y, width - padding, y + 40) 8
           (Some (Hex PRIMARY_GRADIENT_START)) true ;;
  '(bx0, by0, bx1, by1) <- textbbox "Save to History" font_regular ;;
  let text_width := bx1 - bx0 in
  img <- ImageDraw_text img ((width - text_width) / 2, y + 11) "Save to History"
           (Some (Hex WHITE)) font_regular ;;
  let y := y + 56 in
  (* Quick access currencies *)
  img <- ImageDraw_text img (padding, y) "QUICK ACCESS" (Some (Hex "#64748b")) font_small ;;
  let y := y + 22 in
  let currencies := ["USD"; "EUR"; "GBP"; "JPY"; "CAD"]%string in
  let btn_x := padding in
  '(img, btn_x) <-
    for_each (enumerate currencies)
      (fun '(img, btn_x) '(i, curr) =>
         let btn_width := 50 in
         let fill_color := if i =? 1 then PRIMARY_GRADIENT_START else "#f8fafc"%string in
         let text_color := if i =? 1 then WHITE else "#64748b"%string in
         img <- draw_rounded_rectangle img (btn_x, y, btn_x + btn_width, y + 28) 14
                  (Some (Hex fill_color)) true ;;
         img <- ImageDraw_text img (btn_x + 12, y + 6) curr (Some (Hex text_color))
                  font_small ;;
         ret (img, btn_x + (btn_width + 8)))
      (img, btn_x) ;;
  ret img.

(** Create main feature screenshot - Currency Converter. *)
Definition create_screenshot_1 : M image :=
  img <- create_gradient_background SCREENSHOT_SIZE
           PRIMARY_GRADIENT_START PRIMARY_GRADIENT_END ;;
  (* Load fonts *)
  '(title_font, subtitle_font) <-
    try_except
      (title_font <- truetype HELVETICA 56 ;;
       subtitle_font <- truetype HELVETICA 28 ;;
       ret (title_font, subtitle_font))
      (title_font <- load_default ;;
       ret (title_font, title_font)) ;;
  (* Title text on left side *)
  let title_x := 80 in
  let title_y := 280 in
  img <- ImageDraw_text img (title_x, title_y) "Fast Currency" (Some (Hex WHITE)) title_font ;;
  img <- ImageDraw_text img (title_x, title_y + 70) "Conversion" (Some (Hex WHITE)) title_font ;;
  img <- ImageDraw_text img (title_x, title_y + 160) "200+ currencies including crypto"
           (Some (Hex "#ffffffcc")) subtitle_font ;;
  (* Create and place mock popup *)
  popup <- create_mock_popup (360, 420) ;;
  (* Add shadow to popup *)
  shadow <- Image_new ModeRGBA (380, 440) (RGBA 0 0 0 0) ;;
  shadow <- ImageDraw_rounded_rectangle shadow (10, 10, 370, 430) 16
              (Some (RGBA 0 0 0 80)) ;;
  let shadow := draw shadow (Blur 15) in
  let popup_x := 780 in
  let popup_y := 180 in
  let img := draw img (Paste shadow (popup_x - 10, popup_y - 10) shadow) in
  let img := draw img (Paste popup (popup_x, popup_y) popup) in
  ret img.

(** Create second screenshot - 200+ Currencies. *)
Definition create_screenshot_2 : M image :=
  img <- create_gradient_background SCREENSHOT_SIZE "#10b981" "#059669" ;;
  '(title_font, subtitle_font, currency_font) <-
    try_except
      (title_font <- truetype HELVETICA 56 ;;
       subtitle_font <- truetype HELVETICA 28 ;;
       currency_font <- truetype HELVETICA 24 ;;
       ret (title_font, subtitle_font, currency_font))
      (title_font <- load_default ;;
       ret (title_font, title_font, title_font)) ;;
  (* Title *)
  img <- ImageDraw_text img (80, 280) "200+ Currencies" (Some (Hex WHITE)) title_font ;;
  img <- ImageDraw_text img (80, 360) "Including Crypto" (Some (Hex WHITE)) title_font ;;
  img <- ImageDraw_text img (80, 450) "Bitcoin, Ethereum, and more"
           (Some (Hex "#ffffffcc")) subtitle_font ;;
  (* Currency grid on right *)
  let currencies :=
    [("USD", "$"); ("EUR", "€"); ("GBP", "£"); ("JPY", "¥");
     ("BTC", "₿"); ("ETH", "Ξ"); ("CAD", "C$"); ("AUD", "A$");
     ("CHF", "Fr"); ("CNY", "¥"); ("INR", "₹"); ("KRW", "₩")]%string in
  let grid_x := 720 in
  let grid_y := 180 in
  let card_width := 120 in
  let card_height := 80 in
  let gap := 16 in
  img <-
    for_each (enumerate currencies)
      (fun img '(i, (code, symbol)) =>
         let row := i / 4 in
         let col := i mod 4 in
         let x := grid_x + col * (card_width + gap) in
         let y := grid_y + row * (card_height + gap) in
         (* Card *)
         img <- ImageDraw_rounded_rectangle img (x, y, x + card_width, y + card_height) 12
                  (Some (Hex "#ffffff20")) ;;
         img <- ImageDraw_text img (x + 15, y + 15) symbol (Some (Hex WHITE)) title_font ;;
         ImageDraw_text img (x + 15, y + 55) code (Some (Hex "#ffffffaa")) currency_font)
      img ;;
  ret img.

(** Create third screenshot - Real-time Rates. *)
Definition create_screenshot_3 : M image :=
  img <- create_gradient_background SCREENSHOT_SIZE "#8b5cf6" "#6d28d9" ;;
  '(title_font, subtitle_font) <-
    try_except
      (title_font <- truetype HELVETICA 56 ;;
       subtitle_font <- truetype HELVETICA 28 ;;
       ret (title_font, subtitle_font))
      (title_font <- load_default ;;
       ret (title_font, title_font)) ;;
  (* Title *)
  img <- ImageDraw_text img (80, 300) "Real-time Rates" (Some (Hex WHITE)) title_font ;;
  img <- ImageDraw_text img (80, 380) "Always Up to Date" (Some (Hex WHITE)) title_font ;;
  img <- ImageDraw_text img (80, 470) "Free, no signup required"
           (Some (Hex "#ffffffcc")) subtitle_font ;;
  (* Clock/refresh icon representation *)
  let center_x := 900 in
  let center_y := 400 in
  let radius := 150 in
  img <- ImageDraw_ellipse img
           (center_x - radius, center_y - radius, center_x + radius, center_y + radius)
           None (Some (Hex WHITE)) 8 ;;
  (* Clock hands *)
  let img := draw img (Line [(center_x, center_y); (center_x, center_y - 80)]
                         (Some (Hex WHITE)) 6) in
  let img := draw img (Line [(center_x, center_y); (center_x + 60, center_y + 40)]
                         (Some (Hex WHITE)) 6) in
  (* Center dot *)
  img <- ImageDraw_ellipse img
           (center_x - 10, center_y - 10, center_x + 10, center_y + 10)
           (Some (Hex WHITE)) None 1 ;;
  ret img.

(** Create small promo tile (440x280). *)
Definition create_promo_tile : M image :=
  img <- create_gradient_background PROMO_TILE_SIZE
           PRIMARY_GRADIENT_START PRIMARY_GRADIENT_END ;;
  '(title_font, subtitle_font, symbol_font) <-
    try_except
      (title_font <- truetype HELVETICA 32 ;;
       subtitle_font <- truetype HELVETICA 18 ;;
       symbol_font <- truetype HELVETICA 48 ;;
       ret (title_font, subtitle_font, symbol_font))
      (title_font <- load_default ;;
       ret (title_font, title_font, title_font)) ;;
  (* Icon *)
  img <- ImageDraw_text img (40, 60) "$" (Some (Hex WHITE)) symbol_font ;;
  img <- ImageDraw_text img (90, 70) "<>" (Some (Hex ACCENT)) title_font ;;
  img <- ImageDraw_text img (150, 60) "€" (Some (Hex WHITE)) symbol_font ;;
  (* Title *)
  img <- ImageDraw_text img (40, 140) "QuickCurrency" (Some (Hex WHITE)) title_font ;;
  img <- ImageDraw_text img (40, 185) "Fast currency converter"
           (Some (Hex "#ffffffcc")) subtitle_font ;;
  img <- ImageDraw_text img (40, 215) "200+ currencies"
           (Some (Hex "#ffffffaa")) subtitle_font ;;
  ret img.

(** Generate all store assets: the output directory, then each asset,
    saved before the next is made.  Paths are taken from the directory of
    the script.  (The listing of the directory that the script prints at
    the end reads the files and writes none.) *)
Definition main : M unit :=
  let output_dir := "../store-assets"%string in
  _ <- makedirs output_dir ;;
  (* Screenshots *)
  screenshot1 <- create_screenshot_1 ;;
  _ <- save screenshot1 (path_join output_dir "screenshot-1-converter.png") ;;
  screenshot2 <- create_screenshot_2 ;;
  _ <- save screenshot2 (path_join output_dir "screenshot-2-currencies.png") ;;
  screenshot3 <- create_screenshot_3 ;;
  _ <- save screenshot3 (path_join output_dir "screenshot-3-realtime.png") ;;
  (* Promo tile *)
  promo <- create_promo_tile ;;
  save promo (path_join output_dir "promo-tile-440x280.png").

End CreateStoreAssets.

(* ================================================================== *)
(** ** What the properties below observe *)

(** The bare ratio of row [y] of a gradient [height] rows high, before it
    is clamped. *)
Definition raw_ratio (y height : Z) : float :=
  fdiv (fadd (int_true_div y height) (lit 0.3)) (lit 1.3).

(** [min(1.0, max(0.0, ratio))]. *)
Definition clamp01 (ratio : float) : float :=
  py_min (lit 1.0) (py_max (lit 0.0) ratio).

(** One channel, interpolated from [s] to [e] at [ratio]:
    [int(s + (e - s) * ratio)]. *)
Definition interpolate (s e : Z) (ratio : float) : Z :=
  py_int (s +~ (e - s) *~ ratio).

(** The colour of row [y] of a gradient: that of its [y]-th drawing call,
    a line along row [y] from the left edge. *)
Definition row_color (img : image) (y : Z) : option (Z * Z * Z) :=
  match nth_error (image_ops img) (Z.to_nat y) with
  | Some (Line [(0, y0); (_, y1)] (Some (RGB r g b)) _) =>
      if (y0 =? y) && (y1 =? y) then Some (r, g, b) else None
  | _ => None
  end.

(** The drawing call made for row [y] of a gradient from [s] to [e]. *)
Definition gradient_line (width height : Z) (s e : Z * Z * Z) (y : Z) : draw_op :=
  let '(sr, sg, sb) := s in
  let '(er, eg, eb) := e in
  let ratio := clamp01 (raw_ratio y height) in
  Line [(0, y); (width, y)]
    (Some (RGB (interpolate sr er ratio) (interpolate sg eg ratio)
               (interpolate sb eb ratio))) 0.

(** [a] then [b] move from [s] toward [e]; [c] lies between [s] and [e]. *)
Definition toward (s e a b : Z) : Prop := (s <= e -> a <= b) /\ (e <= s -> b <= a).
Definition between (s e c : Z) : Prop := Z.min s e <= c <= Z.max s e.

(** Five machines; each lets every directory and file be written.
    [bare_machine] has no font file; its built-in font is the bitmap one,
    and [textbbox], which measures FreeType fonts only, raises on every
    text.  [fontless_machine] and [builtin_machine] have no font file
    either, but a FreeType built-in font: [textbbox] reports an empty box
    for every text on the first and, on the second, the box (0, 3, 5, 10)
    that Pillow's built-in font has for a euro sign.  [helvetica_machine]
    is [bare_machine] with the file of Helvetica: it loads at every size,
    and a text of [n] bytes at size [s] measures [n * (s / 2)] by
    [s - s / 4], its box starting [s / 4] rows below the origin.
    [bitmap_machine] is [bare_machine] on a Pillow whose [textbbox]
    measures the bitmap font too, six pixels a byte and eleven rows. *)
Definition bare_machine : Env :=
  {| truetype_ok := fun _ _ => false; text_bbox := fun _ _ => None;
     bitmap_default := true; can_write := fun _ => true |}.
Definition fontless_machine : Env :=
  {| truetype_ok := fun _ _ => false; text_bbox := fun _ _ => Some (0, 0, 0, 0);
     bitmap_default := false; can_write := fun _ => true |}.
Definition builtin_machine : Env :=
  {| truetype_ok := fun _ _ => false; text_bbox := fun _ _ => Some (0, 3, 5, 10);
     bitmap_default := false; can_write := fun _ => true |}.
Definition bitmap_machine : Env :=
  {| truetype_ok := fun _ _ => false;
     text_bbox := fun _ text => Some (0, 0, 6 * Z.of_nat (String.length text), 11);
     bitmap_default := true; can_write := fun _ => true |}.
Definition helvetica_machine : Env :=
  {| truetype_ok := fun path _ => String.eqb path CreateStoreAssets.HELVETICA;
     text_bbox := fun f text =>
       match f with
       | TrueType _ s => Some (0, s / 4, Z.of_nat (String.length text) * (s / 2), s)
       | DefaultFont => None
       end;
     bitmap_default := true; can_write := fun _ => true |}.

(** Every character, and the test that a slice parses to a channel in
    [-15, 255] if it parses at all. *)
Definition all_ascii : list ascii := map ascii_of_nat (seq 0 256).

Definition channel_ok (t : string) : bool :=
  match result (CreateStoreAssets.int_base16 t) bare_machine with
  | inr v => (-15 <=? v) && (v <=? 255)
  | inl _ => true
  end.

(** *** The layers of an icon *)

(** The quantities [create_currency_icon] computes from [size]. *)
Definition margin_of (size : Z) : Z := py_int (size *~ lit 0.08).
Definition coin_size_of (size : Z) : Z := py_int (size *~ lit 0.62).
Definition inner_margin_of (size : Z) : Z :=
  Z.max 1 (py_int (coin_size_of size *~ lit 0.08)).
Definition font_size_of (size : Z) : Z :=
  Z.max 10 (py_int (coin_size_of size *~ lit 0.45)).
Definition nudge_of (size : Z) : Z := py_int (size *~ lit 0.02).

(** The font [get_font] ends up with, and the extent the icon assumes for a
    glyph: the measured box, or the estimate when measuring fails. *)
Definition icon_font (env : Env) (font_size : Z) : font :=
  match result (CreateIcons.get_font font_size) env with
  | inr f => f
  | inl _ => DefaultFont
  end.

Definition glyph_extent (env : Env) (f : font) (font_size : Z) (text : string)
    : Z * Z :=
  match text_bbox env f text with
  | Some (x0, y0, x1, y1) => (x1 - x0, y1 - y0)
  | None => (font_size / 2, font_size)
  end.

Definition coin_ops (size : Z) : list draw_op :=
  let margin := margin_of size in
  let coin_size := coin_size_of size in
  let coin2 := size - margin - coin_size in
  let inner_margin := inner_margin_of size in
  [Ellipse (coin2, coin2, coin2 + coin_size, coin2 + coin_size)
     (Some CreateIcons.PRIMARY_DARK) None 1;
   Ellipse (coin2 + inner_margin, coin2 + inner_margin,
            coin2 + coin_size - inner_margin, coin2 + coin_size - inner_margin)
     (Some (RGB 35 75 190)) None 1;
   Ellipse (margin, margin, margin + coin_size, margin + coin_size)
     (Some CreateIcons.PRIMARY_COLOR) None 1;
   Ellipse (margin + inner_margin, margin + inner_margin,
            margin + coin_size - inner_margin, margin + coin_size - inner_margin)
     (Some CreateIcons.PRIMARY_LIGHT) None 1].

(** Every box of the coins has its corners in order. *)
Definition coins_ordered (size : Z) : bool :=
  forallb
    (fun op => match op with Ellipse xy _ _ _ => well_ordered xy | _ => true end)
    (coin_ops size).

(** A glyph on the coin whose box starts at [(coin, coin)]. *)
Definition glyph_op (env : Env) (size coin : Z) (text : string) (fill : color)
    : draw_op :=
  let f := icon_font env (font_size_of size) in
  let '(w, h) := glyph_extent env f (font_size_of size) text in
  Text (coin + (coin_size_of size - w) / 2,
        coin + (coin_size_of size - h) / 2 - nudge_of size)
    text (Some fill) f.

Definition arrow_ops (size : Z) : list draw_op :=
  let thickness := Z.max 2 (py_int (size *~ lit 0.025)) in
  let center := size / 2 in
  let len := py_int (size *~ lit 0.10) in
  let head := Z.max 3 (py_int (size *~ lit 0.04)) in
  let y1 := center - py_int (size *~ lit 0.05) in
  let y2 := center + py_int (size *~ lit 0.05) in
  [Line [(center - len, y1); (center + len, y1)] (Some CreateIcons.GREEN) thickness;
   Polygon [(center + len, y1); (center + len - head, y1 - head);
            (center + len - head, y1 + head)] (Some CreateIcons.GREEN);
   Line [(center + len, y2); (center - len, y2)] (Some CreateIcons.GREEN) thickness;
   Polygon [(center - len, y2); (center - len + head, y2 - head);
            (center - len + head, y2 + head)] (Some CreateIcons.GREEN)].

Definition icon_ops (env : Env) (size : Z) : list draw_op :=
  coin_ops size
  ++ [glyph_op env size (margin_of size) "$" CreateIcons.WHITE]
  ++ (if 32 <=? size
      then [glyph_op env size (size - margin_of size - coin_size_of size) "€"
              (RGB 220 225 240)]
      else [])
  ++ (if 48 <=? size then arrow_ops size else []).


Definition is_glyph_op (op : draw_op) : bool :=
  match op with
  | Text _ _ _ _ => true
  | _ => false
  end.

Definition glyphs (img : image) : list draw_op := filter is_glyph_op (image_ops img).

(** An extent placed at [pos] is centred in [lo, hi], to the half pixel
    that integer division can lose. *)
Definition centered_in (lo hi pos extent : Z) : Prop :=
  0 <= (lo + hi) - (2 * pos + extent) <= 1.

(** Where the ink of a text call falls: Pillow draws a text from its
    origin [xy], and the glyphs cover the box that [textbbox((0, 0), ...)]
    reports, moved to [xy]. *)
Definition ink_box (env : Env) (op : draw_op) : option box :=
  match op with
  | Text (x, y) text _ f =>
      match text_bbox env f text with
      | Some (x0, y0, x1, y1) => Some (x + x0, y + y0, x + x1, y + y1)
      | None => None
      end
  | _ => None
  end.

(** *** Font loading in the store assets *)

(** The record a block [try: truetype(HELVETICA, s1); ...; truetype(HELVETICA,
    sn) except Exception: load_default()] leaves: the loads up to the first
    that fails, then the fallback. *)
Fixpoint font_block_log (env : Env) (sizes : list Z) : list event :=
  match sizes with
  | [] => []
  | s :: rest =>
      EvTruetype CreateStoreAssets.HELVETICA s
      :: (if truetype_ok env CreateStoreAssets.HELVETICA s
          then font_block_log env rest
          else [EvLoadDefault])
  end.

Definition fonts_ok (env : Env) (sizes : list Z) : bool :=
  forallb (truetype_ok env CreateStoreAssets.HELVETICA) sizes.

Definition is_fallback (e : event) : bool :=
  match e with
  | EvLoadDefault => true
  | _ => false
  end.

(** How many times a run fell back to the default font. *)
Definition fallbacks (l : list event) : Z := Z.of_nat (List.length (filter is_fallback l)).

Definition fallback_of (env : Env) (sizes : list Z) : Z :=
  if fonts_ok env sizes then 0 else 1.

(** *** The same arithmetic in the Standard Library's binary64

    [SpecFloat] is the Standard Library's executable specification of IEEE
    754 arithmetic.  The scripts' float computations are repeated in it, to
    be compared with the model above. *)

Definition SF_of_int (z : Z) : spec_float := binary_normalize 53 1024 z 0 false.

Definition SF_lit (q : Q) : spec_float :=
  SFdiv 53 1024 (SF_of_int (Qnum q)) (SF_of_int (Zpos (Qden q))).

Definition SF_value (x : spec_float) : option Q :=
  match x with
  | S754_zero _ => Some 0%Q
  | S754_finite s m e =>
      Some (Qred ((if s then - inject_Z (Zpos m) else inject_Z (Zpos m)) * 2 ^ e))%Q
  | _ => None
  end.

Definition same_double (x : spec_float) (q : float) : bool :=
  match SF_value x with
  | Some q' => Qeq_bool q' q
  | None => false
  end.

Definition SF_ratio (y height : Z) : spec_float :=
  SFdiv 53 1024
    (SFadd 53 1024 (SFdiv 53 1024 (SF_of_int y) (SF_of_int height)) (SF_lit 0.3))
    (SF_lit 1.3).

Definition SF_channel (s e : Z) (ratio : spec_float) : spec_float :=
  SFadd 53 1024 (SF_of_int s) (SFmul 53 1024 (SF_of_int (e - s)) ratio).

(** The rows [rows] of a gradient: the ratio and the three channels before
    [int()]. *)
Definition gradient_agrees (height : Z) (s e : Z * Z * Z) (rows : list Z) : bool :=
  let '(sr, sg, sb) := s in
  let '(er, eg, eb) := e in
  forallb
    (fun y =>
       same_double (SF_ratio y height) (raw_ratio y height)
       && forallb
            (fun '(a, b) =>
               same_double (SF_channel a b (SF_ratio y height))
                 (a +~ (b - a) *~ clamp01 (raw_ratio y height)))
            [(sr, er); (sg, eg); (sb, eb)])
    rows.

(** Every product [size * c] and [coin_size * c] of an icon. *)
Definition icon_agrees (size : Z) : bool :=
  forallb
    (fun c => same_double (SFmul 53 1024 (SF_of_int size) (SF_lit c)) (size *~ lit c))
    [0.08; 0.62; 0.02; 0.025; 0.10; 0.04; 0.05]%Q
  && forallb
       (fun c =>
          same_double (SFmul 53 1024 (SF_of_int (coin_size_of size)) (SF_lit c))
            (coin_size_of size *~ lit c))
       [0.08; 0.45]%Q.


(** *** The icon in whole pixels *)

(** [percent] hundredths of [size], rounded down. *)
Definition px (percent size : Z) : Z := percent * size / 100.

(** The layers of an icon, computed with integers alone. *)
Definition icon_ops_px (env : Env) (size : Z) : list draw_op :=
  let margin := px 8 size in
  let coin_size := px 62 size in
  let coin2 := size - margin - coin_size in
  let inner_margin := Z.max 1 (px 8 coin_size) in
  let font_size := Z.max 10 (px 45 coin_size) in
  let f := icon_font env font_size in
  let glyph (coin : Z) (text : string) (fill : color) :=
    let '(w, h) := glyph_extent env f font_size text in
    Text (coin + (coin_size - w) / 2, coin + (coin_size - h) / 2 - px 2 size)
      text (Some fill) f in
  [Ellipse (coin2, coin2, coin2 + coin_size, coin2 + coin_size)
     (Some CreateIcons.PRIMARY_DARK) None 1;
   Ellipse (coin2 + inner_margin, coin2 + inner_margin,
            coin2 + coin_size - inner_margin, coin2 + coin_size - inner_margin)
     (Some (RGB 35 75 190)) None 1;
   Ellipse (margin, margin, margin + coin_size, margin + coin_size)
     (Some CreateIcons.PRIMARY_COLOR) None 1;
   Ellipse (margin + inner_margin, margin + inner_margin,
            margin + coin_size - inner_margin, margin + coin_size - inner_margin)
     (Some CreateIcons.PRIMARY_LIGHT) None 1;
   glyph margin "$"%string CreateIcons.WHITE]
  ++ (if 32 <=? size then [glyph coin2 "€"%string (RGB 220 225 240)] else [])
  ++ (if 48 <=? size then
        let thickness := Z.max 2 (25 * size / 1000) in
        let center := size / 2 in
        let len := px 10 size in
        let head := Z.max 3 (px 4 size) in
        let y1 := center - px 5 size in
        let y2 := center + px 5 size in
        [Line [(center - len, y1); (center + len, y1)] (Some CreateIcons.GREEN) thickness;
         Polygon [(center + len, y1); (center + len - head, y1 - head);
                  (center + len - head, y1 + head)] (Some CreateIcons.GREEN);
         Line [(center + len, y2); (center - len, y2)] (Some CreateIcons.GREEN) thickness;
         Polygon [(center - len, y2); (center - len + head, y2 - head);
                  (center - len + head, y2 + head)] (Some CreateIcons.GREEN)]
      else []).

(** The boxes of the ellipses of an image, in drawing order. *)
Definition ellipse_boxes (img : image) : list box :=
  flat_map (fun op => match op with Ellipse b _ _ _ => [b] | _ => [] end)
    (image_ops img).

(** A box with its corners in order; a box within a [w] by [h] canvas. *)
Definition box_ordered (b : box) : Prop :=
  let '(x0, y0, x1, y1) := b in x0 <= x1 /\ y0 <= y1.

Definition box_inside (w h : Z) (b : box) : Prop :=
  let '(x0, y0, x1, y1) := b in
  0 <= x0 <= w /\ 0 <= x1 <= w /\ 0 <= y0 <= h /\ 0 <= y1 <= h.

(** The two boxes share a pixel. *)
Definition boxes_overlap (a b : box) : Prop :=
  let '(ax0, ay0, ax1, ay1) := a in
  let '(bx0, by0, bx1, by1) := b in
  Z.max ax0 bx0 < Z.min ax1 bx1 /\ Z.max ay0 by0 < Z.min ay1 by1.

(** The circles inscribed in two square boxes meet: their centres are
    closer than the sum of their radii (all lengths doubled, and squared). *)
Definition discs_overlap (a b : box) : Prop :=
  let '(ax0, ay0, ax1, ay1) := a in
  let '(bx0, by0, bx1, by1) := b in
  (ax0 + ax1 - (bx0 + bx1)) * (ax0 + ax1 - (bx0 + bx1))
  + (ay0 + ay1 - (by0 + by1)) * (ay0 + ay1 - (by0 + by1))
  < ((ax1 - ax0) + (bx1 - bx0)) * ((ax1 - ax0) + (bx1 - bx0)).

(** *** Colours and gradients *)

(** [s] behind [n] number signs. *)
Fixpoint sharps (n : nat) (s : string) : string :=
  match n with
  | O => s
  | S n' => String "#" (sharps n' s)
  end.

(** A channel [c] drawn has left its start [s] toward its end [e], when
    the two are at least 5 apart. *)
Definition leaves_start (s e c : Z) : Prop :=
  (5 <= e - s -> s < c) /\ (e - s <= -5 -> c < s).

(** *** Where things are drawn *)

(** The last [n] drawing calls made on an image, in order. *)
Definition last_calls (n : nat) (img : image) : list draw_op :=
  rev (firstn n (rev (image_ops img))).

(** The row a text or a box starts on. *)
Definition top_of (op : draw_op) : option Z :=
  match op with
  | Text (_, y) _ _ _ => Some y
  | Ellipse (_, y, _, _) _ _ _ => Some y
  | Rectangle (_, y, _, _) _ => Some y
  | RoundedRectangle (_, y, _, _) _ _ => Some y
  | _ => None
  end.

(** A call that starts on row [h] or lower: nothing of it shows on a canvas
    [h] rows high. *)
Definition starts_below (h : Z) (op : draw_op) : Prop :=
  exists y, top_of op = Some y /\ h <= y.

(** The quick-access chips of the popup, labelled in font [f]. *)
Definition quick_access_chips (f : font) : list draw_op :=
  flat_map
    (fun '(i, curr) =>
       [RoundedRectangle (16 + 58 * i, 430, 66 + 58 * i, 458) 14
          (Some (Hex (if i =? 1 then "#2563eb" else "#f8fafc")));
        Text (28 + 58 * i, 436) curr
          (Some (Hex (if i =? 1 then "#ffffff" else "#64748b"))) f])
    (enumerate ["USD"; "EUR"; "GBP"; "JPY"; "CAD"]%string).

(** The boxes of the rounded rectangles of an image, in drawing order. *)
Definition rounded_boxes (img : image) : list box :=
  flat_map (fun op => match op with RoundedRectangle b _ _ => [b] | _ => [] end)
    (image_ops img).

(** No two boxes of the list share a pixel. *)
Fixpoint pairwise_apart (l : list box) : Prop :=
  match l with
  | [] => True
  | b :: rest => Forall (fun b' => ~ boxes_overlap b b') rest /\ pairwise_apart rest
  end.

(** What a run of the store driver leaves: the files with their sizes. *)
Definition file_sizes (files : list (string * image)) : list (string * (Z * Z)) :=
  map (fun '(name, img) => (name, image_size img)) files.


(** The files a run wrote, in order, read off its record. *)
Definition saved (l : list event) : list (string * image) :=
  flat_map (fun e => match e with EvSave path img => [(path, img)] | _ => [] end) l.

(** The file the icon of [size] is saved to, and the icon itself. *)
Definition icon_path (size : Z) : string :=
  path_join "../public/icon" (String.append (str size) ".png").

Definition icon_of (env : Env) (size : Z) : image :=
  Canvas ModeRGBA size size (RGBA 0 0 0 0) (icon_ops env size).

(** A computation that loads no font and writes no file, whatever the
    machine and whether it returns or raises. *)
Definition quiet {A} (m : M A) : Prop := forall env, log m env = [].

(** A computation whose every exception satisfies [P]. *)
Definition raises_only {A} (P : exn -> Prop) (m : M A) : Prop :=
  forall env e, result m env = inl e -> P e.

(** *** The result card of the popup *)

(** The call that draws row [i] of the card. *)
Definition card_line (width i : Z) : draw_op :=
  let ratio := int_true_div i 100 in
  Line [(16, 236 + i); (width - 16, 236 + i)]
    (Some (RGB (interpolate 37 30 ratio) (interpolate 99 64 ratio)
               (interpolate 235 175 ratio))) 0.

(** Row [i] of the card of a popup: the row it is drawn on and its colour,
    read off the drawing call that follows the fifteen of the form above
    the card. *)
Definition card_row (img : image) (i : Z) : option (Z * (Z * Z * Z)) :=
  match nth_error (image_ops img) (Z.to_nat (15 + i)) with
  | Some (Line [(_, y); (_, y')] (Some (RGB r g b)) _) =>
      if y =? y' then Some (y, (r, g, b)) else None
  | _ => None
  end.

(* ================================================================== *)
(** ** Facts about binary64 rounding *)

Section Rounding.
Local Open Scope Q_scope.

Lemma Qfloor_cases (x : Q) :
  inject_Z (Qfloor x) <= x /\ x < inject_Z (Qfloor x) + 1.
Proof.
  split; [apply Qfloor_le|].
  generalize (Qlt_floor x). rewrite inject_Z_plus. auto.
Qed.

Lemma rne_cases (x : Q) :
  (rne x = Qfloor x /\ x - inject_Z (Qfloor x) <= 1 # 2
     /\ (x - inject_Z (Qfloor x) == 1 # 2 -> Z.even (Qfloor x) = true)) \/
  (rne x = (Qfloor x + 1)%Z /\ 1 # 2 <= x - inject_Z (Qfloor x)
     /\ (x - inject_Z (Qfloor x) == 1 # 2 -> Z.even (Qfloor x) = false)).
Proof.
  unfold rne. cbv zeta.
  destruct (Qcompare (x - inject_Z (Qfloor x)) (1 # 2)) eqn:E.
  - apply Qeq_alt in E. destruct (Z.even (Qfloor x)) eqn:Ev.
    + left. repeat split; auto. rewrite E. apply Qle_refl.
    + right. repeat split; auto. rewrite E. apply Qle_refl.
  - apply Qlt_alt in E. left. repeat split.
    + apply Qlt_le_weak; auto.
    + intros H. rewrite H in E. discriminate.
  - apply Qgt_alt in E. right. repeat split.
    + apply Qlt_le_weak; auto.
    + intros H. rewrite H in E. discriminate.
Qed.

Lemma rne_mono (x y : Q) : x <= y -> (rne x <= rne y)%Z.
Proof.
  intros Hxy.
  pose proof (Qfloor_resp_le _ _ Hxy) as Hf.
  pose proof (Qfloor_cases x) as [Hx1 Hx2].
  pose proof (Qfloor_cases y) as [Hy1 Hy2].
  destruct (Z.eq_dec (Qfloor x) (Qfloor y)) as [e|n].
  - destruct (rne_cases x) as [(Rx & Bx & Tx)|(Rx & Bx & Tx)];
    destruct (rne_cases y) as [(Ry & By & Ty)|(Ry & By & Ty)];
    rewrite Rx, Ry; try lia.
    exfalso. rewrite e in *.
    assert (Ey : y - inject_Z (Qfloor y) == 1 # 2) by lra.
    assert (Ex : x - inject_Z (Qfloor y) == 1 # 2) by lra.
    rewrite (Ty Ey) in Tx. specialize (Tx Ex). discriminate.
  - destruct (rne_cases x) as [(Rx & _)|(Rx & _)];
    destruct (rne_cases y) as [(Ry & _)|(Ry & _)]; lia.
Qed.

Lemma rne_comp (x y : Q) : x == y -> rne x = rne y.
Proof.
  intros H. apply Z.le_antisymm; apply rne_mono; rewrite H; apply Qle_refl.
Qed.

Lemma rne_Z (z : Z) : rne (inject_Z z) = z.
Proof.
  destruct (rne_cases (inject_Z z)) as [(R & _)|(R & B & _)].
  - rewrite R. apply Qfloor_Z.
  - rewrite Qfloor_Z in B. exfalso. lra.
Qed.

Lemma pow2_pos (e : Z) : 0 < 2 ^ e.
Proof. apply Qpower_0_lt. reflexivity. Qed.

Lemma pow2_succ (e : Z) : 2 ^ (e + 1) == 2 * 2 ^ e.
Proof. rewrite Qpower_plus by discriminate. simpl (2 ^ 1). ring. Qed.

Lemma pow2_pred (e : Z) : 2 * 2 ^ (e - 1) == 2 ^ e.
Proof.
  rewrite <- pow2_succ. replace (e - 1 + 1)%Z with e by lia. reflexivity.
Qed.

Lemma pow2_inject (e : Z) : (0 <= e)%Z -> inject_Z (2 ^ e) == 2 ^ e.
Proof. intros H. rewrite Zpower_Qpower by assumption. reflexivity. Qed.

Lemma pow2_le (a b : Z) : (a <= b)%Z -> 2 ^ a <= 2 ^ b.
Proof. intros H. apply Qpower_le_compat_l; [assumption | discriminate]. Qed.

Lemma pow2_lt_inv (a b : Z) : 2 ^ a < 2 ^ b -> (a < b)%Z.
Proof.
  intros H. apply (Qpower_lt_compat_l_inv 2); [assumption | reflexivity].
Qed.

Lemma pow2_div (a b : Z) : 2 ^ a / 2 ^ b == 2 ^ (a - b).
Proof. rewrite Qpower_minus by discriminate. reflexivity. Qed.

Lemma log2_bracket (n : Z) : (0 < n)%Z ->
  2 ^ Z.log2 n <= inject_Z n /\ inject_Z n < 2 * 2 ^ Z.log2 n.
Proof.
  intros H. destruct (Z.log2_spec n H) as [L U].
  pose proof (Z.log2_nonneg n) as Hn.
  split.
  - rewrite <- pow2_inject by assumption. rewrite <- Zle_Qle. assumption.
  - rewrite <- pow2_succ. rewrite <- pow2_inject by lia. rewrite <- Zlt_Qlt.
    replace (Z.log2 n + 1)%Z with (Z.succ (Z.log2 n)) by lia. assumption.
Qed.

Lemma ilog2_spec (x : Q) : 0 < x -> 2 ^ ilog2 x <= x /\ x < 2 ^ (ilog2 x + 1).
Proof.
  intros Hx. unfold ilog2. cbv zeta.
  destruct x as [n d]. cbn [Qnum Qden].
  assert (Hn : (0 < n)%Z).
  { unfold Qlt in Hx. simpl in Hx. lia. }
  destruct (log2_bracket n Hn) as [An Bn].
  destruct (log2_bracket (Zpos d) eq_refl) as [Ad Bd].
  set (a := Z.log2 n) in *. set (b := Z.log2 (Zpos d)) in *.
  pose proof (pow2_pos a) as Pa. pose proof (pow2_pos b) as Pb.
  assert (Hab : 2 ^ (a - b) * 2 ^ b == 2 ^ a).
  { rewrite <- Qpower_plus by discriminate.
    replace (a - b + b)%Z with a by lia. reflexivity. }
  assert (Hxd : (n # d) * inject_Z (Zpos d) == inject_Z n).
  { rewrite (Qmake_Qdiv n d). field. discriminate. }
  pose proof (pow2_pos (a - b)) as Pl.
  set (L := 2 ^ (a - b)) in *. set (A := 2 ^ a) in *. set (B := 2 ^ b) in *.
  set (N := inject_Z n) in *. set (D := inject_Z (Zpos d)) in *.
  set (X := n # d) in *.
  destruct (Qle_bool L X) eqn:E.
  - apply Qle_bool_iff in E. split; [assumption|].
    rewrite pow2_succ. fold L.
    apply Qnot_le_lt. intros C.
    assert (2 * L * D <= X * D) by (apply Qmult_le_compat_r; lra).
    assert (2 * L * B <= 2 * L * D) by (apply Qmult_le_l; lra).
    lra.
  - assert (E' : X < L).
    { apply Qnot_le_lt. intros C. apply Qle_bool_iff in C. congruence. }
    replace (a - b - 1 + 1)%Z with (a - b)%Z by lia. fold L.
    split; [|assumption].
    pose proof (pow2_pred (a - b)) as HP. fold L in HP.
    set (L' := 2 ^ (a - b - 1)) in *.
    apply Qnot_lt_le. intros C.
    assert (X * D <= L' * D) by (apply Qmult_le_compat_r; lra).
    assert (L' * D < L' * (2 * B)).
    { apply Qmult_lt_l; [|lra]. lra. }
    assert (2 * L' * B == L * B) by (rewrite HP; reflexivity).
    lra.
Qed.

Lemma ilog2_mono (x y : Q) : 0 < x -> x <= y -> (ilog2 x <= ilog2 y)%Z.
Proof.
  intros Hx Hxy.
  destruct (ilog2_spec x Hx) as [Lx _].
  destruct (ilog2_spec y) as [_ Uy]; [lra|].
  assert (H : 2 ^ ilog2 x < 2 ^ (ilog2 y + 1)) by lra.
  apply pow2_lt_inv in H. lia.
Qed.

Lemma ilog2_unique (x : Q) (l : Z) :
  2 ^ l <= x -> x < 2 ^ (l + 1) -> ilog2 x = l.
Proof.
  intros L U.
  assert (Hx : 0 < x) by (pose proof (pow2_pos l); lra).
  destruct (ilog2_spec x Hx) as [L' U'].
  assert (H1 : 2 ^ l < 2 ^ (ilog2 x + 1)) by lra.
  assert (H2 : 2 ^ ilog2 x < 2 ^ (l + 1)) by lra.
  apply pow2_lt_inv in H1, H2. lia.
Qed.

Lemma div_pow2_le (x y : Q) (c : Z) : x <= y -> x / 2 ^ c <= y / 2 ^ c.
Proof.
  intros H. unfold Qdiv. apply Qmult_le_compat_r; [assumption|].
  apply Qlt_le_weak, Qinv_lt_0_compat, pow2_pos.
Qed.

Lemma mul_pow2_le (x y : Q) (c : Z) : x <= y -> x * 2 ^ c <= y * 2 ^ c.
Proof.
  intros H. apply Qmult_le_compat_r; [assumption|].
  apply Qlt_le_weak, pow2_pos.
Qed.

Lemma cexp_ge_ilog2 (x : Q) : (ilog2 x - 52 <= cexp x)%Z.
Proof. unfold cexp. lia. Qed.

Lemma cexp_mono (x y : Q) : 0 < x -> x <= y -> (cexp x <= cexp y)%Z.
Proof.
  intros Hx Hxy. pose proof (ilog2_mono x y Hx Hxy). unfold cexp. lia.
Qed.

(** Rounding never crosses a power of two that sits on the grid of the
    argument's exponent. *)
Lemma rnd_pos_ge_pow2 (y : Q) (l : Z) :
  2 ^ l <= y -> (cexp y <= l)%Z -> 2 ^ l <= rnd_pos y.
Proof.
  intros Hy Hc. unfold rnd_pos. cbv zeta. set (c := cexp y) in *.
  assert (Hs : inject_Z (2 ^ (l - c)) <= y / 2 ^ c).
  { rewrite pow2_inject by lia. rewrite <- pow2_div.
    apply div_pow2_le. assumption. }
  apply rne_mono in Hs. rewrite rne_Z in Hs.
  rewrite Zle_Qle in Hs. rewrite pow2_inject in Hs by lia.
  apply (mul_pow2_le _ _ c) in Hs.
  rewrite <- Qpower_plus in Hs by discriminate.
  replace (l - c + c)%Z with l in Hs by lia. assumption.
Qed.

Lemma rnd_pos_le_pow2 (x : Q) (m : Z) :
  x <= 2 ^ m -> (cexp x <= m)%Z -> rnd_pos x <= 2 ^ m.
Proof.
  intros Hx Hc. unfold rnd_pos. cbv zeta. set (c := cexp x) in *.
  assert (Hs : x / 2 ^ c <= inject_Z (2 ^ (m - c))).
  { rewrite pow2_inject by lia. rewrite <- pow2_div.
    apply div_pow2_le. assumption. }
  apply rne_mono in Hs. rewrite rne_Z in Hs.
  rewrite Zle_Qle in Hs. rewrite pow2_inject in Hs by lia.
  apply (mul_pow2_le _ _ c) in Hs.
  rewrite <- Qpower_plus in Hs by discriminate.
  replace (m - c + c)%Z with m in Hs by lia. assumption.
Qed.

Lemma rnd_pos_mono (x y : Q) : 0 < x -> x <= y -> rnd_pos x <= rnd_pos y.
Proof.
  intros Hx Hxy.
  pose proof (cexp_mono x y Hx Hxy) as Hc.
  destruct (Z.eq_dec (cexp x) (cexp y)) as [e|n].
  - unfold rnd_pos. cbv zeta. rewrite e.
    apply mul_pow2_le. rewrite <- Zle_Qle. apply rne_mono, div_pow2_le, Hxy.
  - assert (Hy : 0 < y) by lra.
    destruct (ilog2_spec x Hx) as [_ Ux].
    destruct (ilog2_spec y Hy) as [Ly _].
    assert (Hcy : cexp y = (ilog2 y - 52)%Z) by (unfold cexp in *; lia).
    pose proof (cexp_ge_ilog2 x) as Hcx.
    apply Qle_trans with (2 ^ ilog2 y).
    + set (m := Z.max (ilog2 x + 1) (cexp x)).
      apply Qle_trans with (2 ^ m).
      * apply rnd_pos_le_pow2; [|lia].
        apply Qle_trans with (2 ^ (ilog2 x + 1)); [lra|]. apply pow2_le. lia.
      * apply pow2_le. lia.
    + apply rnd_pos_ge_pow2; [assumption | lia].
Qed.

Lemma rnd_pos_nonneg (x : Q) : 0 <= x -> 0 <= rnd_pos x.
Proof.
  intros P. unfold rnd_pos. cbv zeta.
  apply Qmult_le_0_compat; [|apply Qlt_le_weak, pow2_pos].
  replace 0 with (inject_Z 0) by reflexivity. rewrite <- Zle_Qle.
  rewrite <- (rne_Z 0). apply rne_mono.
  apply Qle_shift_div_l; [apply pow2_pos|]. rewrite Qmult_0_l. assumption.
Qed.

Lemma rnd_cases (x : Q) :
  (x < 0 /\ rnd x == - rnd_pos (- x)) \/ (x == 0 /\ rnd x == 0) \/
  (0 < x /\ rnd x == rnd_pos x).
Proof.
  unfold rnd. rewrite Qred_correct.
  destruct (Qcompare x 0) eqn:E.
  - apply Qeq_alt in E. right; left. split; [assumption | reflexivity].
  - apply Qlt_alt in E. left. split; [assumption | reflexivity].
  - apply Qgt_alt in E. right; right. split; [assumption | reflexivity].
Qed.

(** Rounding to nearest is monotone. *)
Lemma rnd_mono (x y : Q) : x <= y -> rnd x <= rnd y.
Proof.
  intros H.
  destruct (rnd_cases x) as [[Sx Ex]|[[Sx Ex]|[Sx Ex]]];
  destruct (rnd_cases y) as [[Sy Ey]|[[Sy Ey]|[Sy Ey]]];
  rewrite Ex, Ey; try (exfalso; lra); try apply Qle_refl.
  - apply Qopp_le_compat. apply rnd_pos_mono; lra.
  - pose proof (rnd_pos_nonneg (- x)). lra.
  - pose proof (rnd_pos_nonneg (- x)). pose proof (rnd_pos_nonneg y). lra.
  - apply rnd_pos_nonneg. lra.
  - apply rnd_pos_mono; lra.
Qed.

(** Equal rationals round to the same double, in its reduced form. *)
Lemma rnd_comp (x y : Q) : x == y -> rnd x = rnd y.
Proof.
  intros H.
  assert (E : rnd x == rnd y).
  { apply Qle_antisym; apply rnd_mono; rewrite H; apply Qle_refl. }
  unfold rnd in *. rewrite !Qred_correct in E. apply Qred_complete, E.
Qed.

Lemma rnd_pos_int (z : Z) :
  (0 < z < 2 ^ 53)%Z -> rnd_pos (inject_Z z) == inject_Z z.
Proof.
  intros [Hz Hb].
  destruct (log2_bracket z Hz) as [L U].
  assert (Hl : ilog2 (inject_Z z) = Z.log2 z).
  { apply ilog2_unique; [assumption|]. rewrite pow2_succ. assumption. }
  assert (Hl53 : (0 <= Z.log2 z < 53)%Z).
  { split; [apply Z.log2_nonneg|]. apply Z.log2_lt_pow2; lia. }
  unfold rnd_pos. cbv zeta. unfold cexp. rewrite Hl.
  replace (Z.max (Z.log2 z - 52) (-1074)) with (Z.log2 z - 52)%Z by lia.
  set (c := (Z.log2 z - 52)%Z).
  assert (Hs : inject_Z z / 2 ^ c == inject_Z (z * 2 ^ (- c))).
  { rewrite inject_Z_mult. rewrite pow2_inject by lia.
    rewrite Qpower_opp. reflexivity. }
  rewrite (rne_comp _ _ Hs), rne_Z.
  rewrite inject_Z_mult. rewrite pow2_inject by lia.
  rewrite <- Qmult_assoc. rewrite <- Qpower_plus by discriminate.
  replace (- c + c)%Z with 0%Z by lia. simpl. ring.
Qed.

(** Integers below [2^53] in magnitude are doubles. *)
Lemma rnd_int (z : Z) :
  (Z.abs z < 2 ^ 53)%Z -> rnd (inject_Z z) == inject_Z z.
Proof.
  intros Hb.
  destruct (rnd_cases (inject_Z z)) as [[S E]|[[S E]|[S E]]]; rewrite E.
  - replace 0 with (inject_Z 0) in S by reflexivity. rewrite <- Zlt_Qlt in S.
    rewrite <- inject_Z_opp. rewrite rnd_pos_int by lia.
    rewrite inject_Z_opp. ring.
  - symmetry. assumption.
  - replace 0 with (inject_Z 0) in S by reflexivity. rewrite <- Zlt_Qlt in S.
    apply rnd_pos_int. lia.
Qed.

End Rounding.

(* ================================================================== *)
(** ** Facts about the float operations *)

Section FloatOps.
Local Open Scope Q_scope.

Lemma py_int_floor (x : Q) : 0 <= x -> py_int x = Qfloor x.
Proof.
  destruct x as [n d]. unfold Qle, py_int, Qfloor. cbn. intros H.
  apply Z.quot_div_nonneg; lia.
Qed.

Lemma py_int_ceiling (x : Q) : x <= 0 -> py_int x = Qceiling x.
Proof.
  destruct x as [n d]. unfold Qle, py_int, Qceiling, Qfloor. cbn. intros H.
  replace n with (- - n)%Z at 1 by lia.
  rewrite Z.quot_opp_l by lia. f_equal.
  apply Z.quot_div_nonneg; lia.
Qed.

(** [int()] is monotone. *)
Lemma py_int_mono (x y : Q) : x <= y -> (py_int x <= py_int y)%Z.
Proof.
  intros H.
  destruct (Qlt_le_dec x 0) as [Nx|Px]; destruct (Qlt_le_dec y 0) as [Ny|Py].
  - rewrite !py_int_ceiling by lra. apply Qceiling_resp_le, H.
  - rewrite py_int_ceiling by lra. rewrite py_int_floor by assumption.
    apply Z.le_trans with 0%Z.
    + pose proof (Qceiling_lt x) as C.
      assert (C' : inject_Z (Qceiling x - 1) < inject_Z 0)
        by (change (inject_Z 0) with 0; lra).
      rewrite <- Zlt_Qlt in C'. lia.
    + rewrite <- (Qfloor_Z 0). apply Qfloor_resp_le. assumption.
  - exfalso. lra.
  - rewrite !py_int_floor by lra. apply Qfloor_resp_le, H.
Qed.

Lemma py_int_comp (x y : Q) : x == y -> py_int x = py_int y.
Proof.
  intros H. apply Z.le_antisymm; apply py_int_mono; rewrite H; apply Qle_refl.
Qed.

Lemma py_int_inject (z : Z) : py_int (inject_Z z) = z.
Proof. unfold py_int. cbn. apply Z.quot_1_r. Qed.

Lemma py_int_between (a b : Z) (x : Q) :
  inject_Z a <= x -> x <= inject_Z b -> (a <= py_int x <= b)%Z.
Proof.
  intros A B. split.
  - rewrite <- (py_int_inject a). apply py_int_mono, A.
  - rewrite <- (py_int_inject b). apply py_int_mono, B.
Qed.

Lemma float_of_int_exact (z : Z) :
  (Z.abs z < 2 ^ 53)%Z -> float_of_int z == inject_Z z.
Proof. apply rnd_int. Qed.

Lemma float_of_int_mono (a b : Z) :
  (a <= b)%Z -> float_of_int a <= float_of_int b.
Proof. intros H. apply rnd_mono. rewrite <- Zle_Qle. assumption. Qed.

Lemma float_of_int_0 : float_of_int 0 = 0.
Proof. reflexivity. Qed.

Lemma fadd_mono (x x' y y' : Q) :
  x <= x' -> y <= y' -> fadd x y <= fadd x' y'.
Proof. intros A B. apply rnd_mono. lra. Qed.

Lemma fmul_mono_nonneg (c x x' : Q) :
  0 <= c -> x <= x' -> fmul c x <= fmul c x'.
Proof.
  intros C H. apply rnd_mono. rewrite !(Qmult_comm c).
  apply Qmult_le_compat_r; assumption.
Qed.

Lemma fmul_anti_nonpos (c x x' : Q) :
  c <= 0 -> x <= x' -> fmul c x' <= fmul c x.
Proof.
  intros C H. apply rnd_mono.
  assert (K : x * (- c) <= x' * (- c)) by (apply Qmult_le_compat_r; lra).
  lra.
Qed.

Lemma fdiv_mono_pos (c x x' : Q) :
  0 < c -> x <= x' -> fdiv x c <= fdiv x' c.
Proof.
  intros C H. apply rnd_mono. unfold Qdiv.
  apply Qmult_le_compat_r; [assumption|].
  apply Qlt_le_weak, Qinv_lt_0_compat, C.
Qed.

Lemma int_true_div_mono (a b h : Z) :
  (0 < h)%Z -> (a <= b)%Z -> int_true_div a h <= int_true_div b h.
Proof.
  intros H L. apply rnd_mono. unfold Qdiv.
  apply Qmult_le_compat_r; [rewrite <- Zle_Qle; assumption|].
  apply Qlt_le_weak, Qinv_lt_0_compat.
  replace 0 with (inject_Z 0) by reflexivity. rewrite <- Zlt_Qlt. assumption.
Qed.

Lemma py_max_cases (a b : Q) :
  (b <= a /\ py_max a b = a) \/ (a < b /\ py_max a b = b).
Proof.
  unfold py_max. destruct (Qle_bool b a) eqn:E.
  - left. split; [apply Qle_bool_iff, E | reflexivity].
  - right. split; [|reflexivity].
    apply Qnot_le_lt. intros C. apply Qle_bool_iff in C. congruence.
Qed.

Lemma py_min_cases (a b : Q) :
  (a <= b /\ py_min a b = a) \/ (b < a /\ py_min a b = b).
Proof.
  unfold py_min. destruct (Qle_bool a b) eqn:E.
  - left. split; [apply Qle_bool_iff, E | reflexivity].
  - right. split; [|reflexivity].
    apply Qnot_le_lt. intros C. apply Qle_bool_iff in C. congruence.
Qed.

Lemma lit_zero : lit 0.0 = 0.
Proof. reflexivity. Qed.

Lemma lit_one : lit 1.0 = 1.
Proof. reflexivity. Qed.

Lemma clamp01_range (r : Q) : 0 <= clamp01 r /\ clamp01 r <= 1.
Proof.
  unfold clamp01. rewrite lit_zero, lit_one.
  destruct (py_max_cases 0 r) as [[A E]|[A E]]; rewrite E;
  match goal with
  | |- _ <= py_min 1 ?u /\ _ =>
      destruct (py_min_cases 1 u) as [[B F]|[B F]]; rewrite F
  end; lra.
Qed.

Lemma clamp01_mono (r r' : Q) : r <= r' -> clamp01 r <= clamp01 r'.
Proof.
  intros H. unfold clamp01. rewrite lit_zero, lit_one.
  destruct (py_max_cases 0 r) as [[A E]|[A E]]; rewrite E;
  destruct (py_max_cases 0 r') as [[A' E']|[A' E']]; rewrite E';
  match goal with
  | |- py_min 1 ?u <= py_min 1 ?v =>
      destruct (py_min_cases 1 u) as [[B F]|[B F]]; rewrite F;
      destruct (py_min_cases 1 v) as [[B' F']|[B' F']]; rewrite ?F'
  end; lra.
Qed.

(** Inside the open unit interval the clamp hands back its argument: both
    [max] and [min] keep [ratio] itself. *)
Lemma clamp01_inside (r : Q) :
  0 < r -> r < 1 -> py_max (lit 0.0) r = r /\ clamp01 r = r.
Proof.
  intros A B. unfold clamp01. rewrite lit_zero, lit_one.
  assert (E : py_max 0 r = r).
  { destruct (py_max_cases 0 r) as [[C _]|[_ ->]]; [exfalso; lra | reflexivity]. }
  split; [assumption|]. rewrite E.
  destruct (py_min_cases 1 r) as [[C _]|[_ ->]]; [exfalso; lra | reflexivity].
Qed.

End FloatOps.

(** The model computes what the Standard Library's binary64 computes, on
    every float operation behind the five icons, on every row of the promo
    tile's gradient, on the first and last rows of the three screenshot
    gradients and on the result card of the popup. *)
Lemma binary64_model_agrees :
  forallb icon_agrees CreateIcons.SIZES = true /\
  gradient_agrees 280 (37, 99, 235) (30, 64, 175) (range 280) = true /\
  gradient_agrees 800 (37, 99, 235) (30, 64, 175) [0; 1; 2; 400; 797; 798; 799] = true /\
  gradient_agrees 800 (16, 185, 129) (5, 150, 105) [0; 1; 2; 400; 797; 798; 799] = true /\
  gradient_agrees 800 (139, 92, 246) (109, 40, 217) [0; 1; 2; 400; 797; 798; 799] = true /\
  forallb (fun i => same_double (SFdiv 53 1024 (SF_of_int i) (SF_of_int 100))
                      (int_true_div i 100)) (range 100) = true.
Proof. repeat (apply conj); vm_cast_no_check (eq_refl true). Qed.

(* ================================================================== *)
(** ** Binary64 products that truncate to exact quotients *)

Section RoundingExact.
Local Open Scope Q_scope.

Lemma div_pow2_lt (x y : Q) (c : Z) : x < y -> x / 2 ^ c < y / 2 ^ c.
Proof.
  intros H. unfold Qdiv. apply Qmult_lt_compat_r; [|assumption].
  apply Qinv_lt_0_compat, pow2_pos.
Qed.

Lemma pow2_nonzero (e : Z) : ~ 2 ^ e == 0.
Proof. pose proof (pow2_pos e). lra. Qed.

Lemma pow2_eq (a b : Z) : a = b -> 2 ^ a == 2 ^ b.
Proof. intros ->. reflexivity. Qed.

Lemma pow2_neg (e : Z) : 2 ^ (- e) == / 2 ^ e.
Proof. apply Qpower_opp. Qed.

(** A number with at most 53 significant bits, scaled by a power of two
    within the normal range, is a double. *)
Lemma rnd_pos_dyadic (z j : Z) :
  (0 < z < 2 ^ 53)%Z -> (0 <= j <= 1000)%Z ->
  rnd_pos (inject_Z z / 2 ^ j) == inject_Z z / 2 ^ j.
Proof.
  intros [Hz Hb] Hj.
  destruct (log2_bracket z Hz) as [L U].
  set (lz := Z.log2 z) in *.
  assert (Hl : ilog2 (inject_Z z / 2 ^ j) = (lz - j)%Z).
  { apply ilog2_unique.
    - rewrite <- pow2_div. apply div_pow2_le. exact L.
    - replace (lz - j + 1)%Z with (lz + 1 - j)%Z by lia.
      rewrite <- pow2_div. apply div_pow2_lt. rewrite pow2_succ. exact U. }
  assert (Hl53 : (0 <= lz < 53)%Z).
  { split; [apply Z.log2_nonneg|]. apply Z.log2_lt_pow2; lia. }
  unfold rnd_pos. cbv zeta. unfold cexp. rewrite Hl.
  replace (Z.max (lz - j - 52) (-1074)) with (lz - j - 52)%Z by lia.
  set (c := (lz - j - 52)%Z).
  assert (E : 2 ^ (52 - lz) == / (2 ^ j * 2 ^ c)).
  { rewrite <- Qpower_plus by discriminate. rewrite <- pow2_neg.
    replace (- (j + c))%Z with (52 - lz)%Z by (unfold c; lia). reflexivity. }
  pose proof (pow2_nonzero j) as Nj. pose proof (pow2_nonzero c) as Nc.
  assert (Hs : inject_Z z / 2 ^ j / 2 ^ c == inject_Z (z * 2 ^ (52 - lz))).
  { rewrite inject_Z_mult. rewrite pow2_inject by lia. rewrite E.
    field. split; assumption. }
  rewrite (rne_comp _ _ Hs), rne_Z.
  rewrite inject_Z_mult. rewrite pow2_inject by lia. rewrite E.
  field. split; assumption.
Qed.

Lemma rnd_dyadic (z j : Z) :
  (0 <= z < 2 ^ 53)%Z -> (0 <= j <= 1000)%Z ->
  rnd (inject_Z z / 2 ^ j) == inject_Z z / 2 ^ j.
Proof.
  intros Hz Hj.
  destruct (rnd_cases (inject_Z z / 2 ^ j)) as [[S E]|[[S E]|[S E]]]; rewrite E.
  - exfalso. assert (0 <= inject_Z z / 2 ^ j); [|lra].
    apply Qle_shift_div_l; [apply pow2_pos|]. rewrite Qmult_0_l.
    change 0 with (inject_Z 0). rewrite <- Zle_Qle. lia.
  - symmetry. assumption.
  - apply rnd_pos_dyadic; [|assumption].
    split; [|lia].
    destruct (Z.eq_dec z 0) as [->|]; [|lia].
    exfalso. unfold Qdiv in S. change (inject_Z 0) with 0 in S. lra.
Qed.

(** Just below an integer [k], within [k / 2^55] of it, rounding lands on
    [k]. *)
Lemma rnd_snap_up (k : Z) (x : Q) :
  (1 <= k < 2 ^ 52)%Z ->
  x <= inject_Z k ->
  inject_Z k - inject_Z k / 2 ^ 55 <= x ->
  rnd x == inject_Z k.
Proof.
  intros Hk Hx Hlow.
  assert (Kpos : 1 <= inject_Z k)
    by (change 1 with (inject_Z 1); rewrite <- Zle_Qle; lia).
  assert (P55 : 2 ^ 55 == inject_Z (2 ^ 55)%Z) by (rewrite pow2_inject by lia; reflexivity).
  assert (Hfrac : inject_Z k / 2 ^ 55 <= inject_Z k * (1 # 2)).
  { unfold Qdiv. apply Qmult_le_l; [lra|]. vm_compute. discriminate. }
  assert (Xpos : 0 < x) by lra.
  apply Qle_antisym.
  - rewrite <- (rnd_int k) by lia. apply rnd_mono. assumption.
  - destruct (rnd_cases x) as [[S E]|[[S E]|[S E]]]; try (exfalso; lra).
    rewrite E.
    destruct (ilog2_spec x Xpos) as [Lx Ux].
    set (l := ilog2 x) in *.
    assert (Hl_hi : (l < 52)%Z).
    { assert (H : 2 ^ l < 2 ^ 52).
      { apply Qle_lt_trans with (inject_Z k); [lra|].
        rewrite <- pow2_inject by lia. rewrite <- Zlt_Qlt. lia. }
      apply pow2_lt_inv in H. lia. }
    assert (Hl_lo : (-1 <= l)%Z).
    { assert (H : 2 ^ (-1) < 2 ^ (l + 1)).
      { apply Qle_lt_trans with x; [|assumption].
        change (2 ^ (-1)) with (1 # 2). lra. }
      apply pow2_lt_inv in H. lia. }
    unfold rnd_pos. cbv zeta. unfold cexp. fold l.
    replace (Z.max (l - 52) (-1074)) with (l - 52)%Z by lia.
    set (c := (l - 52)%Z).
    assert (Ec : 2 ^ (- c) * 2 ^ c == 1).
    { rewrite <- Qpower_plus by discriminate.
      replace (- c + c)%Z with 0%Z by lia. reflexivity. }
    pose proof (pow2_pos c) as Pc. pose proof (pow2_pos (- c)) as Pmc.
    pose proof (pow2_nonzero c) as Nc.
    (* the scaled integer *)
    assert (HK : inject_Z (k * 2 ^ (- c)) == inject_Z k * 2 ^ (- c)).
    { rewrite inject_Z_mult, pow2_inject by (unfold c; lia). reflexivity. }
    assert (Hy : x / 2 ^ c == x * 2 ^ (- c)).
    { rewrite pow2_neg. reflexivity. }
    (* k < 2^(l+2) *)
    assert (Hk_l : inject_Z k < 2 ^ (l + 2)).
    { replace (l + 2)%Z with (l + 1 + 1)%Z by lia. rewrite pow2_succ. lra. }
    (* (k - x) * 2^(-c) < 1/2 *)
    assert (Hgap : (inject_Z k - x) * 2 ^ (- c) < 1 # 2).
    { apply Qle_lt_trans with (inject_Z k / 2 ^ 55 * 2 ^ (- c)).
      - apply Qmult_le_compat_r; [lra | lra].
      - assert (E3 : inject_Z k / 2 ^ 55 * 2 ^ (- c) == inject_Z k * 2 ^ (- 3 - l)).
        { unfold Qdiv. rewrite <- Qmult_assoc. rewrite <- pow2_neg.
          rewrite <- Qpower_plus by discriminate.
          rewrite (pow2_eq _ (- 3 - l)) by (unfold c; lia). reflexivity. }
        rewrite E3.
        apply Qlt_le_trans with (2 ^ (l + 2) * 2 ^ (- 3 - l)).
        + apply Qmult_lt_compat_r; [apply pow2_pos | assumption].
        + rewrite <- Qpower_plus by discriminate.
          rewrite (pow2_eq _ (-1)) by lia.
          change (2 ^ (-1)) with (1 # 2). apply Qle_refl. }
    assert (Hrne : (k * 2 ^ (- c) <= rne (x / 2 ^ c))%Z).
    { remember (x / 2 ^ c) as y eqn:Ey.
      assert (T : inject_Z (k * 2 ^ (- c)) - y < 1 # 2).
      { rewrite HK, Hy.
        assert (T' : inject_Z k * 2 ^ (- c) - x * 2 ^ (- c)
                     == (inject_Z k - x) * 2 ^ (- c)) by ring.
        rewrite T'. exact Hgap. }
      destruct (Qfloor_cases y) as [F1 F2].
      destruct (rne_cases y) as [(R & B & _)|(R & B & _)]; rewrite R.
      - assert (G : inject_Z (k * 2 ^ (- c) - 1) < inject_Z (Qfloor y)).
        { unfold Z.sub. rewrite inject_Z_plus, inject_Z_opp. change (inject_Z 1) with 1. lra. }
        rewrite <- Zlt_Qlt in G. lia.
      - assert (G : inject_Z (k * 2 ^ (- c) - 1) < inject_Z (Qfloor y + 1)).
        { unfold Z.sub. rewrite !inject_Z_plus, inject_Z_opp.
          change (inject_Z 1) with 1. lra. }
        rewrite <- Zlt_Qlt in G. lia. }
    rewrite Zle_Qle in Hrne. rewrite HK in Hrne.
    apply (mul_pow2_le _ _ c) in Hrne.
    assert (E4 : inject_Z k * 2 ^ (- c) * 2 ^ c == inject_Z k).
    { rewrite <- Qmult_assoc, Ec. ring. }
    rewrite E4 in Hrne. exact Hrne.
Qed.

End RoundingExact.

Section ScaledExact.
Local Open Scope Q_scope.

Lemma py_int_dyadic_floor (z : Z) :
  (0 <= z)%Z -> py_int (inject_Z z / 2 ^ 10) = (z / 1024)%Z.
Proof.
  intros Hz. rewrite py_int_floor.
  - change (2 ^ 10) with (inject_Z 1024). symmetry. apply Zdiv_Qdiv.
  - apply Qle_shift_div_l; [apply pow2_pos|]. rewrite Qmult_0_l.
    change 0 with (inject_Z 0). rewrite <- Zle_Qle. assumption.
Qed.

Lemma Qmult_le_scale (s a b : Q) : 0 <= s -> a <= b -> s * a <= s * b.
Proof.
  intros Hs Hab. rewrite !(Qmult_comm s). apply Qmult_le_compat_r; assumption.
Qed.

Lemma int_scaled_floor (c : Q) (n d size : Z) :
  (0 < d <= 1000)%Z -> (0 <= n <= 1000)%Z ->
  (c - inject_Z n / inject_Z d) * 2 ^ 31 <= 1 / inject_Z d - 1 / 2 ^ 10 ->
  (inject_Z n / inject_Z d - c) * 2 ^ 31 <= 1 / inject_Z d ->
  inject_Z n / inject_Z d - inject_Z n / inject_Z d / 2 ^ 55 <= c ->
  (0 <= size <= INT_MAX)%Z ->
  py_int (size *~ c) = (n * size / d)%Z.
Proof.
  intros Hd Hn HA HB HC Hs.
  set (q := inject_Z n / inject_Z d) in *.
  set (S := inject_Z size).
  assert (S0 : 0 <= S) by (unfold S; change 0 with (inject_Z 0); rewrite <- Zle_Qle; lia).
  assert (S31 : S <= 2 ^ 31).
  { unfold S. rewrite <- pow2_inject by lia. rewrite <- Zle_Qle.
    unfold INT_MAX in Hs. lia. }
  assert (Dpos : 0 < inject_Z d)
    by (change 0 with (inject_Z 0); rewrite <- Zlt_Qlt; lia).
  assert (Dinv : 0 < 1 / inject_Z d).
  { unfold Qdiv. rewrite Qmult_1_l. apply Qinv_lt_0_compat, Dpos. }
  assert (D1000 : 1 / 2 ^ 10 <= 1 / inject_Z d).
  { assert (H : inject_Z d <= 2 ^ 10).
    { rewrite <- pow2_inject by lia. rewrite <- Zle_Qle. lia. }
    apply Qle_shift_div_l; [assumption|].
    assert (E : 1 / 2 ^ 10 * inject_Z d == inject_Z d / 2 ^ 10)
      by (field; apply pow2_nonzero).
    rewrite E. apply Qle_shift_div_r; [apply pow2_pos|]. lra. }
  assert (Q0 : 0 <= q).
  { unfold q. apply Qle_shift_div_l; [assumption|]. rewrite Qmult_0_l.
    change 0 with (inject_Z 0). rewrite <- Zle_Qle. lia. }
  assert (Q55 : 0 <= q / 2 ^ 55).
  { apply Qle_shift_div_l; [apply pow2_pos|]. lra. }
  set (k := (n * size / d)%Z). set (r := (n * size mod d)%Z).
  assert (Hdm : (n * size = d * k + r)%Z) by (apply Z.div_mod; lia).
  assert (Hr : (0 <= r < d)%Z) by (apply Z.mod_pos_bound; lia).
  assert (Hk0 : (0 <= k)%Z) by (apply Z.div_pos; [nia | lia]).
  assert (Hk : (k < 2 ^ 41)%Z).
  { unfold INT_MAX in Hs.
    assert (n * size < 2 ^ 41)%Z by nia.
    assert (k <= n * size)%Z by nia. lia. }
  assert (Hexact : S * q == inject_Z k + inject_Z r / inject_Z d).
  { unfold S, q.
    assert (E : inject_Z size * (inject_Z n / inject_Z d)
                == inject_Z (n * size) / inject_Z d)
      by (rewrite inject_Z_mult; field; lra).
    rewrite E, Hdm, inject_Z_plus, inject_Z_mult. field. lra. }
  assert (Rd : inject_Z r / inject_Z d <= 1 - 1 / inject_Z d).
  { assert (E : 1 - 1 / inject_Z d == inject_Z (d - 1) / inject_Z d).
    { unfold Z.sub. rewrite inject_Z_plus, inject_Z_opp.
      change (inject_Z 1) with 1. field. lra. }
    rewrite E. unfold Qdiv. apply Qmult_le_compat_r.
    - rewrite <- Zle_Qle. lia.
    - apply Qlt_le_weak, Qinv_lt_0_compat, Dpos. }
  set (x := S * c).
  assert (Ex : size *~ c = rnd x).
  { unfold fmul, x, S. apply rnd_comp.
    rewrite float_of_int_exact; [reflexivity|]. unfold INT_MAX in Hs. lia. }
  assert (Xsplit : x == S * q + S * (c - q)) by (unfold x; ring).
  assert (Xsplit' : x == S * q - S * (q - c)) by (unfold x; ring).
  assert (Xhi : x <= inject_Z (1024 * k + 1023) / 2 ^ 10).
  { assert (E : inject_Z (1024 * k + 1023) / 2 ^ 10 == inject_Z k + 1 - 1 / 2 ^ 10).
    { rewrite inject_Z_plus, inject_Z_mult.
      change (2 ^ 10) with (inject_Z 1024).
      change (inject_Z 1023) with (inject_Z 1024 - 1). field. }
    rewrite E.
    assert (T : S * (c - q) <= 1 / inject_Z d - 1 / 2 ^ 10).
    { destruct (Qlt_le_dec (c - q) 0) as [Neg|Pos].
      - assert (0 <= S * (q - c)) by (apply Qmult_le_0_compat; lra).
        lra.
      - apply Qle_trans with ((c - q) * 2 ^ 31); [|assumption].
        rewrite (Qmult_comm S). apply Qmult_le_scale; assumption. }
    lra. }
  assert (Xlo : inject_Z k <= rnd x).
  { destruct (Z.eq_dec r 0) as [R0'|R1].
    - assert (Hq : S * q == inject_Z k).
      { rewrite Hexact, R0'. unfold Qdiv. change (inject_Z 0) with 0. ring. }
      destruct (Qlt_le_dec c q) as [Below|Above].
      + destruct (Z.eq_dec k 0) as [K0|K1].
        * rewrite K0. change (inject_Z 0) with (rnd 0). apply rnd_mono.
          unfold x. apply Qmult_le_0_compat; [assumption|].
          assert (q / 2 ^ 55 <= q).
          { apply Qle_shift_div_r; [apply pow2_pos|].
            assert (q * 1 <= q * 2 ^ 55).
            { apply Qmult_le_scale; [assumption|].
              change 1 with (2 ^ 0). apply pow2_le. lia. }
            lra. }
          lra.
        * rewrite (rnd_snap_up k x); [apply Qle_refl | lia | |].
          -- assert (0 <= S * (q - c)) by (apply Qmult_le_0_compat; lra).
             lra.
          -- assert (T : S * (q - q / 2 ^ 55) <= S * c)
               by (apply Qmult_le_scale; assumption).
             assert (E : S * (q - q / 2 ^ 55) == inject_Z k - inject_Z k / 2 ^ 55).
             { rewrite <- Hq. field. }
             rewrite E in T. exact T.
      + rewrite <- (rnd_int k) by lia. apply rnd_mono.
        assert (0 <= S * (c - q)) by (apply Qmult_le_0_compat; lra).
        lra.
    - rewrite <- (rnd_int k) by lia. apply rnd_mono.
      assert (R1' : 1 / inject_Z d <= inject_Z r / inject_Z d).
      { unfold Qdiv. apply Qmult_le_compat_r.
        - change 1 with (inject_Z 1). rewrite <- Zle_Qle. lia.
        - apply Qlt_le_weak, Qinv_lt_0_compat, Dpos. }
      assert (T : S * (q - c) <= 1 / inject_Z d).
      { destruct (Qlt_le_dec (q - c) 0) as [Neg|Pos].
        - assert (0 <= S * (c - q)) by (apply Qmult_le_0_compat; lra).
          lra.
        - apply Qle_trans with ((q - c) * 2 ^ 31); [|assumption].
          rewrite (Qmult_comm S). apply Qmult_le_scale; assumption. }
      lra. }
  rewrite Ex.
  assert (Hhi : rnd x <= inject_Z (1024 * k + 1023) / 2 ^ 10).
  { rewrite <- (rnd_dyadic (1024 * k + 1023) 10) by lia. apply rnd_mono, Xhi. }
  apply Z.le_antisymm.
  - apply py_int_mono in Hhi. rewrite py_int_dyadic_floor in Hhi by lia.
    replace ((1024 * k + 1023) / 1024)%Z with k in Hhi; [exact Hhi|].
    apply Z.div_unique with 1023%Z; lia.
  - rewrite <- (py_int_inject k). apply py_int_mono, Xlo.
Qed.

End ScaledExact.

(* ================================================================== *)
(** ** Facts about the monad and the drawing record *)

Section Effects.

Lemma bind_inr {A B} (m : M A) (f : A -> M B) env l a :
  m env = (l, inr a) -> bind m f env = (l ++ fst (f a env), snd (f a env)).
Proof. intros E. unfold bind. rewrite E. destruct (f a env). reflexivity. Qed.

Lemma bind_inl {A B} (m : M A) (f : A -> M B) env l e :
  m env = (l, inl e) -> bind m f env = (l, inl e).
Proof. intros E. unfold bind. rewrite E. reflexivity. Qed.

Lemma bind_nil {A B} (m : M A) (f : A -> M B) env a :
  m env = ([], inr a) -> bind m f env = f a env.
Proof. intros E. unfold bind. rewrite E. destruct (f a env). reflexivity. Qed.

Lemma bind_eq {A B} (m : M A) (f : A -> M B) env l a r :
  m env = (l, inr a) -> f a env = ([], r) -> bind m f env = (l, r).
Proof. intros E F. unfold bind. rewrite E, F, app_nil_r. reflexivity. Qed.

Lemma bind_ret {A B} (a : A) (f : A -> M B) env : bind (ret a) f env = f a env.
Proof. unfold bind, ret. destruct (f a env). reflexivity. Qed.

Lemma bind_assoc {A B C} (m : M A) (g : A -> M B) (k : B -> M C) env :
  bind (bind m g) k env = bind m (fun x => bind (g x) k) env.
Proof.
  unfold bind. destruct (m env) as [l [e|a]]; [reflexivity|].
  destruct (g a env) as [l' [e'|b]]; [reflexivity|].
  destruct (k b env). rewrite app_assoc. reflexivity.
Qed.

Lemma result_bind_inr {A B} (m : M A) (f : A -> M B) env b :
  result (bind m f) env = inr b ->
  exists a, result m env = inr a /\ result (f a) env = inr b.
Proof.
  unfold result, bind. destruct (m env) as [l [e|a]]; cbn; [discriminate|].
  intros H. exists a. split; [reflexivity|].
  destruct (f a env). exact H.
Qed.

Lemma result_bind {A B} (m : M A) (f : A -> M B) env a :
  result m env = inr a -> result (bind m f) env = result (f a) env.
Proof.
  unfold result, bind. destruct (m env) as [l [e|a']]; cbn; [discriminate|].
  intros H. injection H as ->. destruct (f a env). reflexivity.
Qed.

Lemma log_bind {A B} (m : M A) (f : A -> M B) env a :
  result m env = inr a -> log (bind m f) env = log m env ++ log (f a) env.
Proof.
  unfold result, log, bind. destruct (m env) as [l [e|a']]; cbn; [discriminate|].
  intros H. injection H as ->. destruct (f a env). reflexivity.
Qed.

Lemma result_ret_inv {A} (a b : A) env : result (ret a) env = inr b -> a = b.
Proof. unfold result, ret. cbn [snd]. intros H. injection H as ->. reflexivity. Qed.

Lemma fold_left_ext {A B} (f g : A -> B -> A) (l : list B) (a : A) :
  (forall a b, f a b = g a b) -> fold_left f l a = fold_left g l a.
Proof.
  intros E. revert a. induction l as [|b l IH]; intros a; cbn [fold_left].
  - reflexivity.
  - rewrite E. apply IH.
Qed.

Lemma result_bind_inl {A B} (m : M A) (f : A -> M B) env e :
  result m env = inl e -> result (bind m f) env = inl e.
Proof.
  unfold result, bind. destruct (m env) as [l [e'|a]]; cbn [snd]; [|discriminate].
  intros H. injection H as ->. reflexivity.
Qed.

Lemma result_bind_cases {A B} (m : M A) (f : A -> M B) env e :
  result (bind m f) env = inl e ->
  result m env = inl e \/ exists a, result m env = inr a /\ result (f a) env = inl e.
Proof.
  unfold result, bind. destruct (m env) as [l [e'|a]]; cbn [snd].
  - intros H. left. injection H as ->. reflexivity.
  - intros H. right. exists a. split; [reflexivity|].
    destruct (f a env). exact H.
Qed.

Lemma log_bind_cases {A B} (m : M A) (f : A -> M B) env :
  log (bind m f) env
  = log m env ++ match result m env with
                 | inr a => log (f a) env
                 | inl _ => []
                 end.
Proof.
  unfold log, result, bind. destruct (m env) as [l [e|a]]; cbn [fst snd].
  - rewrite app_nil_r. reflexivity.
  - destruct (f a env). reflexivity.
Qed.

Lemma width_max_le : WIDTH_MAX <= INT_MAX.
Proof. vm_compute. discriminate. Qed.

Lemma Image_new_inr (m : mode) (w h : Z) (bg : color) env img :
  result (Image_new m (w, h) bg) env = inr img ->
  (0 <= w <= WIDTH_MAX /\ 0 <= h <= INT_MAX) /\ img = Canvas m w h bg [].
Proof.
  unfold result, Image_new.
  destruct ((w <? 0) || (h <? 0)) eqn:N; [discriminate|].
  destruct ((INT_MAX <? w) || (INT_MAX <? h)) eqn:O; [discriminate|].
  destruct (WIDTH_MAX <? w) eqn:W; [discriminate|].
  cbn. intros H. injection H as <-.
  apply orb_false_iff in N, O. destruct N as [N1 N2], O as [O1 O2].
  apply Z.ltb_ge in N1, N2, O1, O2, W. auto.
Qed.

Lemma Image_new_ok (m : mode) (w h : Z) (bg : color) env :
  0 <= w <= WIDTH_MAX -> 0 <= h <= INT_MAX ->
  Image_new m (w, h) bg env = ([], inr (Canvas m w h bg [])).
Proof.
  intros Hw Hh. pose proof width_max_le as L. unfold Image_new.
  replace ((w <? 0) || (h <? 0)) with false
    by (symmetry; apply orb_false_iff; split; apply Z.ltb_ge; lia).
  replace ((INT_MAX <? w) || (INT_MAX <? h)) with false
    by (symmetry; apply orb_false_iff; split; apply Z.ltb_ge; lia).
  replace (WIDTH_MAX <? w) with false by (symmetry; apply Z.ltb_ge; lia).
  reflexivity.
Qed.

Lemma Image_new_log (m : mode) (size : Z * Z) (bg : color) env :
  Image_new m size bg env = ([], result (Image_new m size bg) env).
Proof.
  unfold result, Image_new. destruct size as [w h].
  destruct ((w <? 0) || (h <? 0)); [reflexivity|].
  destruct ((INT_MAX <? w) || (INT_MAX <? h)); [reflexivity|].
  destruct (WIDTH_MAX <? w); reflexivity.
Qed.

Lemma log_Image_new (m : mode) (size : Z * Z) (bg : color) env :
  log (Image_new m size bg) env = [].
Proof. unfold log. rewrite Image_new_log. reflexivity. Qed.

Lemma Image_new_cases (m : mode) (w h : Z) (bg : color) env :
  (0 <= w <= WIDTH_MAX /\ 0 <= h <= INT_MAX) \/
  result (Image_new m (w, h) bg) env = inl ValueError \/
  result (Image_new m (w, h) bg) env = inl OverflowError \/
  result (Image_new m (w, h) bg) env = inl MemoryError.
Proof.
  unfold result, Image_new.
  destruct ((w <? 0) || (h <? 0)) eqn:N; [right; left; reflexivity|].
  destruct ((INT_MAX <? w) || (INT_MAX <? h)) eqn:O; [right; right; left; reflexivity|].
  destruct (WIDTH_MAX <? w) eqn:W; [right; right; right; reflexivity|].
  left. apply orb_false_iff in N, O. destruct N as [N1 N2], O as [O1 O2].
  apply Z.ltb_ge in N1, N2, O1, O2, W. lia.
Qed.

(** A checked drawing call records the call or raises, and touches
    nothing else. *)
Lemma bind_checked {B} ok e img op (k : image -> M B) env :
  bind (checked ok e img op) k env
  = if ok env then k (draw img op) env else ([], inl e).
Proof.
  unfold bind, checked. destruct (ok env); [|reflexivity].
  destruct (k (draw img op) env). reflexivity.
Qed.

Lemma result_checked ok e img op env :
  result (checked ok e img op) env = if ok env then inr (draw img op) else inl e.
Proof. unfold result, checked. cbn [snd]. reflexivity. Qed.

Lemma log_checked ok e img op env : log (checked ok e img op) env = [].
Proof. reflexivity. Qed.

Lemma checked_inr ok e img op env img' :
  result (checked ok e img op) env = inr img' ->
  ok env = true /\ img' = draw img op.
Proof.
  rewrite result_checked. destruct (ok env); [|discriminate].
  intros H. injection H as <-. auto.
Qed.

Lemma latin_1_draws env f text : latin_1 text = true -> draws env f text = true.
Proof. intros H. destruct f; cbn [draws]; [reflexivity|]. rewrite H. apply orb_true_r. Qed.

Lemma result_bind_checked {B} ok e img op (k : image -> M B) env :
  result (bind (checked ok e img op) k) env
  = if ok env then result (k (draw img op)) env else inl e.
Proof. unfold result. rewrite bind_checked. destruct (ok env); reflexivity. Qed.

(** Making the directory, and saving what was made. *)
Lemma makedirs_then {B} (dir : string) (k : M B) env :
  (_ <- makedirs dir ;; k) env
  = if can_write env dir
    then let '(l, r) := k env in (EvMakedirs dir :: l, r)
    else ([], inl OSError).
Proof.
  unfold bind, makedirs. destruct (can_write env dir); [|reflexivity].
  destruct (k env). reflexivity.
Qed.

Lemma then_save {B} (m : M image) (path : string) (k : M B) env :
  (img <- m ;; _ <- save img path ;; k) env
  = match m env with
    | (l, inl e) => (l, inl e)
    | (l, inr img) =>
        if can_write env path
        then let '(l', r) := k env in (l ++ EvSave path img :: l', r)
        else (l, inl OSError)
    end.
Proof.
  unfold bind, save. destruct (m env) as [l [e|img]]; [reflexivity|].
  destruct (can_write env path).
  - destruct (k env). reflexivity.
  - rewrite app_nil_r. reflexivity.
Qed.

Lemma then_save_last (m : M image) (path : string) env :
  (img <- m ;; save img path) env
  = match m env with
    | (l, inl e) => (l, inl e)
    | (l, inr img) =>
        if can_write env path
        then (l ++ [EvSave path img], inr tt)
        else (l, inl OSError)
    end.
Proof.
  unfold bind, save. destruct (m env) as [l [e|img]]; [reflexivity|].
  destruct (can_write env path); [reflexivity|].
  rewrite app_nil_r. reflexivity.
Qed.

(** What is quiet. *)
Lemma quiet_ret {A} (a : A) : quiet (ret a).
Proof. intros env. reflexivity. Qed.

Lemma quiet_raise {A} (e : exn) : quiet (@raise A e).
Proof. intros env. reflexivity. Qed.

Lemma quiet_bind {A B} (m : M A) (f : A -> M B) :
  quiet m -> (forall a, quiet (f a)) -> quiet (bind m f).
Proof.
  intros Hm Hf env. rewrite log_bind_cases, Hm.
  destruct (result m env); [reflexivity | apply Hf].
Qed.

Lemma quiet_try_except {A} (m h : M A) : quiet m -> quiet h -> quiet (try_except m h).
Proof.
  intros Hm Hh env. specialize (Hm env). specialize (Hh env).
  unfold log, try_except in *.
  destruct (m env) as [l [e|a]]; cbn [fst] in *; subst l; [|reflexivity].
  destruct (h env) as [l' r]. cbn [fst] in *. subst l'. reflexivity.
Qed.

Lemma quiet_checked ok e img op : quiet (checked ok e img op).
Proof. intros env. reflexivity. Qed.

Lemma quiet_textbbox text f : quiet (textbbox text f).
Proof. intros env. reflexivity. Qed.

Lemma quiet_Image_new m size bg : quiet (Image_new m size bg).
Proof. intros env. apply log_Image_new. Qed.

Lemma quiet_for_each {A S} (l : list A) (body : S -> A -> M S) (s : S) :
  (forall s a, quiet (body s a)) -> quiet (for_each l body s).
Proof.
  intros Hb. revert s. induction l as [|a l IH]; intros s; cbn [for_each].
  - apply quiet_ret.
  - apply quiet_bind; [apply Hb | exact IH].
Qed.

(** What can be raised. *)
Lemma raises_only_ret {A} (P : exn -> Prop) (a : A) : raises_only P (ret a).
Proof. intros env e H. discriminate. Qed.

Lemma raises_only_raise {A} (P : exn -> Prop) (e : exn) :
  P e -> raises_only P (@raise A e).
Proof. intros He env e' H. injection H as <-. exact He. Qed.

Lemma raises_only_bind {A B} (P : exn -> Prop) (m : M A) (f : A -> M B) :
  raises_only P m -> (forall a, raises_only P (f a)) -> raises_only P (bind m f).
Proof.
  intros Hm Hf env e H. apply result_bind_cases in H.
  destruct H as [H|(a & _ & H)]; [exact (Hm env e H) | exact (Hf a env e H)].
Qed.

Lemma raises_only_try_except {A} (P : exn -> Prop) (m h : M A) :
  raises_only P h -> raises_only P (try_except m h).
Proof.
  intros Hh env e. specialize (Hh env e). unfold result, try_except in *.
  destruct (m env) as [l [e'|a]]; [|discriminate].
  destruct (h env) as [l' r]. exact Hh.
Qed.

Lemma raises_only_checked (P : exn -> Prop) ok e img op :
  P e -> raises_only P (checked ok e img op).
Proof.
  intros He env e'. rewrite result_checked. destruct (ok env); [discriminate|].
  intros H. injection H as <-. exact He.
Qed.

Lemma raises_only_textbbox (P : exn -> Prop) text f :
  P MetricsError -> raises_only P (textbbox text f).
Proof.
  intros He env e. unfold result, textbbox. cbn [snd].
  destruct (text_bbox env f text); [discriminate|].
  intros H. injection H as <-. exact He.
Qed.

Lemma raises_only_load_default (P : exn -> Prop) : raises_only P load_default.
Proof. intros env e H. discriminate. Qed.

Lemma raises_only_Image_new (P : exn -> Prop) m size bg :
  P ValueError -> P OverflowError -> P MemoryError ->
  raises_only P (Image_new m size bg).
Proof.
  intros Hv Ho Hm env e. destruct size as [w h].
  destruct (Image_new_cases m w h bg env) as [[Hw Hh]|[E|[E|E]]].
  - unfold result. rewrite (Image_new_ok m w h bg env Hw Hh). discriminate.
  - rewrite E. intros H. injection H as <-. exact Hv.
  - rewrite E. intros H. injection H as <-. exact Ho.
  - rewrite E. intros H. injection H as <-. exact Hm.
Qed.

Lemma raises_only_for_each {A S} (P : exn -> Prop) (l : list A)
    (body : S -> A -> M S) (s : S) :
  (forall s a, raises_only P (body s a)) -> raises_only P (for_each l body s).
Proof.
  intros Hb. revert s. induction l as [|a l IH]; intros s; cbn [for_each].
  - apply raises_only_ret.
  - apply raises_only_bind; [apply Hb | exact IH].
Qed.

Lemma draw_size (img : image) (op : draw_op) :
  image_size (draw img op) = image_size img.
Proof. destruct img. reflexivity. Qed.

Lemma fold_draw {A} (f : A -> draw_op) (l : list A) m w h bg ops :
  fold_left (fun img a => draw img (f a)) l (Canvas m w h bg ops)
  = Canvas m w h bg (ops ++ map f l).
Proof.
  revert ops. induction l as [|a l IH]; intros ops; cbn.
  - rewrite app_nil_r. reflexivity.
  - rewrite IH, <- app_assoc. reflexivity.
Qed.

Lemma range_nth (n y : Z) :
  0 <= y < n -> nth_error (range n) (Z.to_nat y) = Some y.
Proof.
  intros H. unfold range.
  rewrite nth_error_map, nth_error_seq.
  replace (Z.to_nat y <? Z.to_nat n)%nat with true
    by (symmetry; apply Nat.ltb_lt; lia).
  cbn. f_equal. lia.
Qed.

End Effects.

Ltac quiet_step :=
  first
    [ apply quiet_ret
    | apply quiet_raise
    | apply quiet_checked
    | apply quiet_textbbox
    | apply quiet_Image_new
    | apply quiet_try_except
    | apply quiet_for_each; intros
    | apply quiet_bind; [|intros]
    | match goal with
      | |- quiet (match ?x with _ => _ end) => destruct x
      | |- quiet ((match ?x with _ => _ end) _) => destruct x
      | |- quiet (if ?b then _ else _) => destruct b
      end ].

Ltac quiet_run :=
  cbv beta iota zeta;
  unfold ImageDraw_text, ImageDraw_ellipse, ImageDraw_rectangle,
    ImageDraw_rounded_rectangle;
  repeat (quiet_step; cbv beta iota zeta).

Ltac raises_step :=
  first
    [ apply raises_only_ret
    | apply raises_only_raise
    | apply raises_only_checked
    | apply raises_only_textbbox
    | apply raises_only_load_default
    | apply raises_only_Image_new
    | apply raises_only_try_except
    | apply raises_only_for_each; intros
    | apply raises_only_bind; [|intros]
    | match goal with
      | |- raises_only _ (match ?x with _ => _ end) => destruct x
      | |- raises_only _ ((match ?x with _ => _ end) _) => destruct x
      | |- raises_only _ (if ?b then _ else _) => destruct b
      end ].

Ltac raises_run :=
  cbv beta iota zeta;
  unfold ImageDraw_text, ImageDraw_ellipse, ImageDraw_rectangle,
    ImageDraw_rounded_rectangle;
  repeat (raises_step; cbv beta iota zeta).

(* ================================================================== *)
(** ** create-store-assets.py: colours and gradients *)

Section Gradient.
Import CreateStoreAssets.

Lemma int_base16_pure (s : string) env :
  int_base16 s env = ([], result (int_base16 s) bare_machine).
Proof.
  unfold result, int_base16.
  destruct (rev (lstrip_spaces (rev (lstrip_spaces (list_ascii_of_string s)))))
    as [|c rest]; cbv zeta.
  - destruct (hex_body []); reflexivity.
  - destruct (code c =? 45); [|destruct (code c =? 43)];
      match goal with |- context [hex_body ?b] => destruct (hex_body b) end;
      reflexivity.
Qed.

Lemma hex_to_rgb_pure (s : string) env :
  hex_to_rgb s env = ([], result (hex_to_rgb s) bare_machine).
Proof.
  unfold result, hex_to_rgb, bind. cbv zeta.
  rewrite !(int_base16_pure _ env), !(int_base16_pure _ bare_machine).
  repeat match goal with
  | |- context [result (int_base16 ?t) bare_machine] =>
      destruct (result (int_base16 t) bare_machine); cbn
  end; reflexivity.
Qed.

Lemma hex_to_rgb_inr (s : string) env r g b :
  result (hex_to_rgb s) env = inr (r, g, b) ->
  result (int_base16 (substring 0 2 (lstrip_hash s))) env = inr r /\
  result (int_base16 (substring 2 2 (lstrip_hash s))) env = inr g /\
  result (int_base16 (substring 4 2 (lstrip_hash s))) env = inr b.
Proof.
  unfold hex_to_rgb. cbv zeta. intros H.
  apply result_bind_inr in H. destruct H as (r' & Hr & H).
  apply result_bind_inr in H. destruct H as (g' & Hg & H).
  apply result_bind_inr in H. destruct H as (b' & Hb & H).
  cbn in H. injection H as -> -> ->. auto.
Qed.

Lemma all_ascii_complete (c : ascii) : In c all_ascii.
Proof.
  unfold all_ascii. rewrite <- (ascii_nat_embedding c).
  apply in_map, in_seq. pose proof (nat_ascii_bounded c). lia.
Qed.

Lemma short_strings_ok :
  channel_ok "" = true /\
  forallb (fun c1 => channel_ok (String c1 "")) all_ascii = true /\
  forallb (fun c1 =>
    forallb (fun c2 => channel_ok (String c1 (String c2 ""))) all_ascii)
    all_ascii = true.
Proof. vm_compute. auto. Qed.

Lemma substring_length (n m : nat) (s : string) :
  (String.length (substring n m s) <= m)%nat.
Proof.
  revert n m. induction s as [|c s IH]; intros [|n] [|m]; cbn; try lia.
  - specialize (IH 0%nat m). lia.
  - apply IH.
  - apply IH.
Qed.

(** A channel parsed from a slice of two characters lies in [-15, 255]
    (the sign is one of the two characters when there is one). *)
Lemma int_base16_channel (n : nat) (s : string) env v :
  result (int_base16 (substring n 2 s)) env = inr v -> -15 <= v <= 255.
Proof.
  pose proof (substring_length n 2 s) as L.
  unfold result. rewrite int_base16_pure. cbn [snd].
  destruct short_strings_ok as (S0 & S1 & S2).
  assert (K : channel_ok (substring n 2 s) = true).
  { destruct (substring n 2 s) as [|c1 [|c2 [|c3 t]]].
    - exact S0.
    - rewrite forallb_forall in S1. apply S1, all_ascii_complete.
    - rewrite forallb_forall in S2.
      specialize (S2 c1 (all_ascii_complete c1)).
      rewrite forallb_forall in S2. apply S2, all_ascii_complete.
    - cbn in L. lia. }
  unfold channel_ok in K. intros E. rewrite E in K.
  apply andb_true_iff in K. destruct K as [K1 K2].
  apply Z.leb_le in K1, K2. lia.
Qed.

Lemma hex_to_rgb_channels (s : string) env r g b :
  result (hex_to_rgb s) env = inr (r, g, b) ->
  -15 <= r <= 255 /\ -15 <= g <= 255 /\ -15 <= b <= 255.
Proof.
  intros H. apply hex_to_rgb_inr in H. destruct H as (Hr & Hg & Hb).
  repeat split; eapply int_base16_channel; eassumption.
Qed.

(** The loop of [create_gradient_background] draws [gradient_line] on
    each row. *)
Lemma gradient_loop width height sr sg sb er eg eb (rows : list Z) img0 :
  fold_left
    (fun img y =>
       let ratio := fdiv (fadd (int_true_div y height) (lit 0.3)) (lit 1.3) in
       let ratio := py_min (lit 1.0) (py_max (lit 0.0) ratio) in
       let r := py_int (sr +~ (er - sr) *~ ratio) in
       let g := py_int (sg +~ (eg - sg) *~ ratio) in
       let b := py_int (sb +~ (eb - sb) *~ ratio) in
       draw img (Line [(0, y); (width, y)] (Some (RGB r g b)) 0))
    rows img0
  = fold_left
      (fun img y => draw img (gradient_line width height (sr, sg, sb) (er, eg, eb) y))
      rows img0.
Proof.
  apply fold_left_ext. intros img y.
  unfold gradient_line, interpolate, clamp01, raw_ratio. reflexivity.
Qed.

(** What [create_gradient_background] returns, when it returns: the canvas
    asked for, with one line per row. *)
Lemma gradient_inv env width height sc ec img :
  result (create_gradient_background (width, height) sc ec) env = inr img ->
  exists s e,
    result (hex_to_rgb sc) env = inr s /\
    result (hex_to_rgb ec) env = inr e /\
    (0 <= width <= WIDTH_MAX /\ 0 <= height <= INT_MAX) /\
    img = Canvas ModeRGB width height (RGB 0 0 0)
            (map (gradient_line width height s e) (range height)).
Proof.
  unfold create_gradient_background. intros H.
  apply result_bind_inr in H. destruct H as (img0 & H0 & H).
  apply Image_new_inr in H0. destruct H0 as [Hdim ->].
  apply result_bind_inr in H. destruct H as ([[sr sg] sb] & Hs & H).
  apply result_bind_inr in H. destruct H as ([[er eg] eb] & He & H).
  exists (sr, sg, sb), (er, eg, eb). repeat split; try assumption; try apply Hdim.
  apply result_ret_inv in H. subst img.
  rewrite gradient_loop.
  rewrite (fold_draw (gradient_line width height (sr, sg, sb) (er, eg, eb))).
  reflexivity.
Qed.

Lemma hex_to_rgb_eq (s : string) env c :
  result (hex_to_rgb s) env = inr c -> hex_to_rgb s env = ([], inr c).
Proof.
  unfold result. rewrite hex_to_rgb_pure. cbn [snd]. intros ->. reflexivity.
Qed.

(** It returns whenever the canvas can be allocated and both colours
    parse. *)
Lemma gradient_ok env width height sc ec s e :
  0 <= width <= WIDTH_MAX -> 0 <= height <= INT_MAX ->
  result (hex_to_rgb sc) env = inr s ->
  result (hex_to_rgb ec) env = inr e ->
  create_gradient_background (width, height) sc ec env
  = ([], inr (Canvas ModeRGB width height (RGB 0 0 0)
                (map (gradient_line width height s e) (range height)))).
Proof.
  intros Hw Hh Hs He. unfold create_gradient_background.
  apply hex_to_rgb_eq in Hs, He.
  pose proof (Image_new_ok ModeRGB width height (RGB 0 0 0) env Hw Hh) as E0.
  destruct s as [[sr sg] sb], e as [[er eg] eb].
  rewrite (bind_inr _ _ _ _ _ E0).
  rewrite (bind_inr _ _ _ _ _ Hs).
  rewrite (bind_inr _ _ _ _ _ He).
  unfold ret. cbn [fst snd app].
  rewrite gradient_loop.
  rewrite (fold_draw (gradient_line width height (sr, sg, sb) (er, eg, eb))).
  reflexivity.
Qed.

Lemma gradient_row_color width height s e y :
  0 <= y < height ->
  row_color (Canvas ModeRGB width height (RGB 0 0 0)
               (map (gradient_line width height s e) (range height))) y
  = let '(sr, sg, sb) := s in
    let '(er, eg, eb) := e in
    let ratio := clamp01 (raw_ratio y height) in
    Some (interpolate sr er ratio, interpolate sg eg ratio, interpolate sb eb ratio).
Proof.
  intros H. unfold row_color. cbn [image_ops].
  rewrite nth_error_map, (range_nth height y H). cbn [option_map].
  destruct s as [[sr sg] sb], e as [[er eg] eb]. cbn [gradient_line].
  rewrite Z.eqb_refl. reflexivity.
Qed.

End Gradient.

(* ================================================================== *)
(** ** The ratio and the interpolation of a gradient row *)

Section GradientArithmetic.
Local Open Scope Q_scope.

Ltac q_decide :=
  first [ vm_compute; reflexivity | vm_compute; discriminate ].

Lemma Zdiv_Qle (a b c d : Z) :
  (0 < b)%Z -> (0 < d)%Z -> (a * d <= c * b)%Z ->
  inject_Z a / inject_Z b <= inject_Z c / inject_Z d.
Proof.
  intros Hb Hd H.
  assert (Qb : 0 < inject_Z b)
    by (change 0 with (inject_Z 0); rewrite <- Zlt_Qlt; assumption).
  assert (Qd : 0 < inject_Z d)
    by (change 0 with (inject_Z 0); rewrite <- Zlt_Qlt; assumption).
  apply Qle_shift_div_r; [assumption|].
  assert (E : inject_Z c / inject_Z d * inject_Z b
              == (inject_Z c * inject_Z b) / inject_Z d) by (field; lra).
  rewrite E. apply Qle_shift_div_l; [assumption|].
  rewrite <- !inject_Z_mult, <- Zle_Qle. assumption.
Qed.

Lemma lit_0_3_pos : 0 < lit 0.3.
Proof. q_decide. Qed.

Lemma lit_1_3_pos : 0 < lit 1.3.
Proof. q_decide. Qed.

Lemma raw_ratio_mono (y y' height : Z) :
  (0 < height)%Z -> (y <= y')%Z -> raw_ratio y height <= raw_ratio y' height.
Proof.
  intros H L. unfold raw_ratio.
  apply fdiv_mono_pos; [apply lit_1_3_pos|].
  apply fadd_mono; [|apply Qle_refl].
  apply int_true_div_mono; assumption.
Qed.

(** On the first row the ratio is the double nearest to [0.3 / 1.3]. *)
Lemma raw_ratio_first (height : Z) :
  (1 <= height)%Z -> raw_ratio 0 height = fdiv (lit 0.3) (lit 1.3).
Proof.
  intros H. unfold raw_ratio, int_true_div.
  assert (E0 : inject_Z 0 / inject_Z height == 0).
  { unfold Qdiv. change (inject_Z 0) with 0. ring. }
  rewrite (rnd_comp _ _ E0). change (rnd 0) with 0.
  assert (E1 : fadd 0 (lit 0.3) = lit 0.3).
  { unfold fadd. assert (E : 0 + lit 0.3 == lit 0.3) by ring.
    rewrite (rnd_comp _ _ E). vm_compute. reflexivity. }
  rewrite E1. reflexivity.
Qed.

(** The ratio of a row stays strictly inside the unit interval, on every
    canvas Pillow can allocate. *)
Lemma raw_ratio_inside (y height : Z) :
  (0 <= y < height)%Z -> (height <= INT_MAX)%Z ->
  0 < raw_ratio y height /\ raw_ratio y height < 1.
Proof.
  intros Hy Hh. unfold raw_ratio.
  assert (Hpos : (0 < height)%Z) by lia.
  split.
  - apply Qlt_le_trans with (fdiv (fadd 0 (lit 0.3)) (lit 1.3)); [q_decide|].
    apply fdiv_mono_pos; [apply lit_1_3_pos|].
    apply fadd_mono; [|apply Qle_refl].
    change 0 with (rnd 0). apply rnd_mono.
    apply Qle_shift_div_l.
    + change 0 with (inject_Z 0). rewrite <- Zlt_Qlt. assumption.
    + rewrite Qmult_0_l. change 0 with (inject_Z 0). rewrite <- Zle_Qle. lia.
  - set (top := rnd (inject_Z (INT_MAX - 1) / inject_Z INT_MAX)).
    apply Qle_lt_trans with (fdiv (fadd top (lit 0.3)) (lit 1.3)); [|q_decide].
    apply fdiv_mono_pos; [apply lit_1_3_pos|].
    apply fadd_mono; [|apply Qle_refl].
    apply rnd_mono. apply Zdiv_Qle; [assumption | reflexivity |].
    unfold INT_MAX in *. nia.
Qed.

Lemma float_of_int_sign (d : Z) :
  ((0 <= d)%Z -> 0 <= float_of_int d) /\ ((d <= 0)%Z -> float_of_int d <= 0).
Proof.
  split; intros H; rewrite <- float_of_int_0; apply float_of_int_mono; assumption.
Qed.

(** Interpolation moves from [s] toward [e] as the ratio grows. *)
Lemma interpolate_toward (s e : Z) (t t' : Q) :
  t <= t' -> toward s e (interpolate s e t) (interpolate s e t').
Proof.
  intros H. unfold toward, interpolate.
  destruct (float_of_int_sign (e - s)) as [P N].
  split; intros L; apply py_int_mono; (apply fadd_mono; [apply Qle_refl|]).
  - apply fmul_mono_nonneg; [apply P; lia | assumption].
  - apply fmul_anti_nonpos; [apply N; lia | assumption].
Qed.

(** At a ratio in the unit interval it stays between the two end values. *)
Lemma interpolate_between (s e : Z) (t : Q) :
  (Z.abs s < 2 ^ 52)%Z -> (Z.abs e < 2 ^ 52)%Z -> 0 <= t -> t <= 1 ->
  between s e (interpolate s e t).
Proof.
  intros Hs He T0 T1. unfold between, interpolate.
  pose proof (float_of_int_exact s ltac:(lia)) as Es.
  pose proof (float_of_int_exact e ltac:(lia)) as Ee.
  pose proof (float_of_int_exact (e - s) ltac:(lia)) as Ed.
  set (fs := float_of_int s) in *. set (fd := float_of_int (e - s)) in *.
  assert (Rd : rnd fd == inject_Z (e - s)).
  { rewrite (rnd_comp _ _ Ed). apply rnd_int. lia. }
  assert (Rs : rnd (inject_Z s) == inject_Z s) by (apply rnd_int; lia).
  assert (Re : rnd (inject_Z e) == inject_Z e) by (apply rnd_int; lia).
  assert (Esub : inject_Z (e - s) == inject_Z e - inject_Z s).
  { unfold Z.sub. rewrite inject_Z_plus, inject_Z_opp. ring. }
  destruct (Z.le_ge_cases s e) as [L|L].
  - rewrite Z.min_l, Z.max_r by lia.
    assert (D0 : 0 <= fd).
    { rewrite Ed. change 0 with (inject_Z 0). rewrite <- Zle_Qle. lia. }
    assert (P0 : 0 <= fmul fd t).
    { change 0 with (rnd 0). apply rnd_mono. apply Qmult_le_0_compat; assumption. }
    assert (P1 : fmul fd t <= inject_Z (e - s)).
    { rewrite <- Rd. apply rnd_mono.
      assert (K : t * fd <= 1 * fd) by (apply Qmult_le_compat_r; assumption).
      lra. }
    apply py_int_between.
    + rewrite <- Rs. apply rnd_mono. lra.
    + rewrite <- Re. apply rnd_mono. lra.
  - rewrite Z.min_r, Z.max_l by lia.
    assert (D0 : fd <= 0).
    { rewrite Ed. change 0 with (inject_Z 0). rewrite <- Zle_Qle. lia. }
    assert (P0 : fmul fd t <= 0).
    { change 0 with (rnd 0). apply rnd_mono.
      assert (K : 0 <= (- fd) * t) by (apply Qmult_le_0_compat; lra).
      lra. }
    assert (P1 : inject_Z (e - s) <= fmul fd t).
    { rewrite <- Rd. apply rnd_mono.
      assert (K : t * (- fd) <= 1 * (- fd)) by (apply Qmult_le_compat_r; lra).
      lra. }
    apply py_int_between.
    + rewrite <- Re. apply rnd_mono. lra.
    + rewrite <- Rs. apply rnd_mono. lra.
Qed.

End GradientArithmetic.

(* ================================================================== *)
(** ** Properties of [create_gradient_background] *)

Section GradientProperties.
Import CreateStoreAssets.

Lemma gradient_row_formula (env : Env) width height sc ec img sr sg sb er eg eb y :
  result (create_gradient_background (width, height) sc ec) env = inr img ->
  result (hex_to_rgb sc) env = inr (sr, sg, sb) ->
  result (hex_to_rgb ec) env = inr (er, eg, eb) ->
  0 <= y < height ->
  row_color img y =
    Some (interpolate sr er (clamp01 (raw_ratio y height)),
          interpolate sg eg (clamp01 (raw_ratio y height)),
          interpolate sb eb (clamp01 (raw_ratio y height))).
Proof.
  intros H Hs He Hy.
  apply gradient_inv in H. destruct H as (s & e & Hs' & He' & _ & ->).
  rewrite Hs in Hs'. rewrite He in He'.
  injection Hs' as <-. injection He' as <-.
  rewrite gradient_row_color by assumption. reflexivity.
Qed.

Lemma gradient_row_at (env : Env) size sc ec s e y r g b :
  result (hex_to_rgb sc) bare_machine = inr s ->
  result (hex_to_rgb ec) bare_machine = inr e ->
  (0 <=? fst size) && (fst size <=? WIDTH_MAX) = true ->
  (0 <=? y) && (y <? snd size) && (snd size <=? INT_MAX) = true ->
  gradient_line (fst size) (snd size) s e y
    = Line [(0, y); (fst size, y)] (Some (RGB r g b)) 0 ->
  exists img,
    result (create_gradient_background size sc ec) env = inr img /\
    row_color img y = Some (r, g, b).
Proof.
  destruct size as [w h]. cbn [fst snd]. intros Hs He Hw Hh Hc.
  apply andb_true_iff in Hw. destruct Hw as [W0 W1].
  apply andb_true_iff in Hh. destruct Hh as [Hh H1].
  apply andb_true_iff in Hh. destruct Hh as [Y0 Y1].
  apply Z.leb_le in W0, W1, H1, Y0. apply Z.ltb_lt in Y1.
  assert (Hs' : result (hex_to_rgb sc) env = inr s).
  { unfold result in *. rewrite hex_to_rgb_pure. exact Hs. }
  assert (He' : result (hex_to_rgb ec) env = inr e).
  { unfold result in *. rewrite hex_to_rgb_pure. exact He. }
  eexists. split.
  - unfold result. rewrite (gradient_ok env w h sc ec s e) by (assumption || lia).
    reflexivity.
  - unfold row_color. cbn [image_ops].
    rewrite nth_error_map, (range_nth h y) by lia. cbn [option_map].
    rewrite Hc, Z.eqb_refl. reflexivity.
Qed.

(** C1, as the code has it.  Every row [y] of a gradient is the
    interpolation between the two colours at the ratio
    [(y/height + 0.3) / 1.3] clamped to [0, 1]; on row 0 that ratio is
    [0.3 / 1.3].  The ratio stays below 1 on every row; the end colour is
    met, where [int()] truncates onto it, on the last row of each gradient
    the generator draws (1280x800 in three colour pairs, 440x280). *)
Theorem gradient_rows_interpolated (env : Env) :
  (forall width height sc ec img sr sg sb er eg eb,
     result (create_gradient_background (width, height) sc ec) env = inr img ->
     result (hex_to_rgb sc) env = inr (sr, sg, sb) ->
     result (hex_to_rgb ec) env = inr (er, eg, eb) ->
     (forall y, 0 <= y < height ->
        row_color img y =
          Some (interpolate sr er (clamp01 (raw_ratio y height)),
                interpolate sg eg (clamp01 (raw_ratio y height)),
                interpolate sb eb (clamp01 (raw_ratio y height)))) /\
     (1 <= height ->
        row_color img 0 =
          Some (interpolate sr er (fdiv (lit 0.3) (lit 1.3)),
                interpolate sg eg (fdiv (lit 0.3) (lit 1.3)),
                interpolate sb eb (fdiv (lit 0.3) (lit 1.3)))) /\
     (forall y, 0 <= y < height -> (raw_ratio y height < 1)%Q)) /\
  (exists img,
     result (create_gradient_background SCREENSHOT_SIZE
               PRIMARY_GRADIENT_START PRIMARY_GRADIENT_END) env = inr img /\
     row_color img 799 = Some (30, 64, 175)) /\
  (exists img,
     result (create_gradient_background SCREENSHOT_SIZE "#10b981" "#059669") env
       = inr img /\
     row_color img 799 = Some (5, 150, 105)) /\
  (exists img,
     result (create_gradient_background SCREENSHOT_SIZE "#8b5cf6" "#6d28d9") env
       = inr img /\
     row_color img 799 = Some (109, 40, 217)) /\
  (exists img,
     result (create_gradient_background PROMO_TILE_SIZE
               PRIMARY_GRADIENT_START PRIMARY_GRADIENT_END) env = inr img /\
     row_color img 279 = Some (30, 64, 175)).
Proof.
  split.
  - intros width height sc ec img sr sg sb er eg eb H Hs He.
    split; [|split].
    + intros y Hy. eapply gradient_row_formula; eassumption.
    + intros Hh. rewrite (gradient_row_formula env _ _ _ _ _ _ _ _ _ _ _ 0 H Hs He) by lia.
      rewrite raw_ratio_first by assumption.
      replace (clamp01 (fdiv (lit 0.3) (lit 1.3))) with (fdiv (lit 0.3) (lit 1.3))
        by (vm_compute; reflexivity).
      reflexivity.
    + intros y Hy. apply gradient_inv in H.
      destruct H as (_ & _ & _ & _ & [_ Hh] & _).
      apply raw_ratio_inside; lia.
  - split; [|split; [|split]].
    + apply (gradient_row_at env SCREENSHOT_SIZE _ _ (37, 99, 235) (30, 64, 175));
        vm_compute; reflexivity.
    + apply (gradient_row_at env SCREENSHOT_SIZE _ _ (16, 185, 129) (5, 150, 105));
        vm_compute; reflexivity.
    + apply (gradient_row_at env SCREENSHOT_SIZE _ _ (139, 92, 246) (109, 40, 217));
        vm_compute; reflexivity.
    + apply (gradient_row_at env PROMO_TILE_SIZE _ _ (37, 99, 235) (30, 64, 175));
        vm_compute; reflexivity.
Qed.

Lemma gradient_rows_interpolated_witness :
  result (create_gradient_background (2, 4)
            PRIMARY_GRADIENT_START PRIMARY_GRADIENT_END) bare_machine
  = inr (Canvas ModeRGB 2 4 (RGB 0 0 0)
           [Line [(0, 0); (2, 0)] (Some (RGB 35 90 221)) 0;
            Line [(0, 1); (2, 1)] (Some (RGB 34 84 209)) 0;
            Line [(0, 2); (2, 2)] (Some (RGB 32 77 198)) 0;
            Line [(0, 3); (2, 3)] (Some (RGB 31 70 186)) 0]) /\
  result (hex_to_rgb PRIMARY_GRADIENT_START) bare_machine = inr (37, 99, 235) /\
  result (hex_to_rgb PRIMARY_GRADIENT_END) bare_machine = inr (30, 64, 175) /\
  1 <= 4 /\
  Some (35, 90, 221) =
    Some (interpolate 37 30 (fdiv (lit 0.3) (lit 1.3)),
          interpolate 99 64 (fdiv (lit 0.3) (lit 1.3)),
          interpolate 235 175 (fdiv (lit 0.3) (lit 1.3))).
Proof.
  assert (H : result (create_gradient_background (2, 4)
                PRIMARY_GRADIENT_START PRIMARY_GRADIENT_END) bare_machine
              = inr (Canvas ModeRGB 2 4 (RGB 0 0 0)
                   [Line [(0, 0); (2, 0)] (Some (RGB 35 90 221)) 0;
                    Line [(0, 1); (2, 1)] (Some (RGB 34 84 209)) 0;
                    Line [(0, 2); (2, 2)] (Some (RGB 32 77 198)) 0;
                    Line [(0, 3); (2, 3)] (Some (RGB 31 70 186)) 0]))
    by (vm_compute; reflexivity).
  assert (Hs : result (hex_to_rgb PRIMARY_GRADIENT_START) bare_machine
               = inr (37, 99, 235)) by (vm_compute; reflexivity).
  assert (He : result (hex_to_rgb PRIMARY_GRADIENT_END) bare_machine
               = inr (30, 64, 175)) by (vm_compute; reflexivity).
  assert (Hh : 1 <= 4) by lia.
  split; [exact H|]. split; [exact Hs|]. split; [exact He|]. split; [exact Hh|].
  rewrite <- (proj1 (proj2 (proj1 (gradient_rows_interpolated bare_machine)
                         2 4 _ _ _ 37 99 235 30 64 175 H Hs He)) Hh).
  reflexivity.
Defined.

(** C1, the part that fails: the gradient of one row from the default start
    colour (37, 99, 235) to the default end colour (30, 64, 175) has its
    height at least 1, and no row of it shows the end colour. *)
Lemma gradient_one_row_misses_end_color :
  exists img,
    result (create_gradient_background (1, 1)
              PRIMARY_GRADIENT_START PRIMARY_GRADIENT_END) bare_machine = inr img /\
    result (hex_to_rgb PRIMARY_GRADIENT_END) bare_machine = inr (30, 64, 175) /\
    ~ (exists y, 0 <= y < 1 /\ row_color img y = Some (30, 64, 175)).
Proof.
  eexists. split; [vm_compute; reflexivity|]. split; [vm_compute; reflexivity|].
  intros (y & Hy & C). assert (y = 0) by lia. subst y.
  vm_compute in C. discriminate.
Qed.

(** C5.  Down the rows of a gradient every channel moves monotonically from
    the start colour toward the end colour, and on every row it lies between
    the two. *)
Theorem gradient_channels_monotone_bounded
    (env : Env) width height sc ec img sr sg sb er eg eb y1 y2 :
  result (create_gradient_background (width, height) sc ec) env = inr img ->
  result (hex_to_rgb sc) env = inr (sr, sg, sb) ->
  result (hex_to_rgb ec) env = inr (er, eg, eb) ->
  0 <= y1 -> y1 <= y2 -> y2 < height ->
  exists r1 g1 b1 r2 g2 b2,
    row_color img y1 = Some (r1, g1, b1) /\
    row_color img y2 = Some (r2, g2, b2) /\
    (toward sr er r1 r2 /\ toward sg eg g1 g2 /\ toward sb eb b1 b2) /\
    (between sr er r1 /\ between sg eg g1 /\ between sb eb b1) /\
    (between sr er r2 /\ between sg eg g2 /\ between sb eb b2).
Proof.
  intros H Hs He Y0 Y12 Y2.
  pose proof (gradient_row_formula env _ _ _ _ _ _ _ _ _ _ _ y1 H Hs He ltac:(lia)) as R1.
  pose proof (gradient_row_formula env _ _ _ _ _ _ _ _ _ _ _ y2 H Hs He ltac:(lia)) as R2.
  destruct (hex_to_rgb_channels _ _ _ _ _ Hs) as (Sr & Sg & Sb).
  destruct (hex_to_rgb_channels _ _ _ _ _ He) as (Er & Eg & Eb).
  assert (Hh : 0 < height) by lia.
  pose proof (clamp01_mono _ _ (raw_ratio_mono y1 y2 height Hh Y12)) as T.
  destruct (clamp01_range (raw_ratio y1 height)) as [A1 B1].
  destruct (clamp01_range (raw_ratio y2 height)) as [A2 B2].
  do 6 eexists. split; [exact R1|]. split; [exact R2|].
  split; [|split]; repeat split;
    solve [ apply interpolate_toward; assumption
          | apply interpolate_between; (assumption || lia) ].
Qed.

Lemma gradient_channels_monotone_bounded_witness :
  result (create_gradient_background (2, 4)
            PRIMARY_GRADIENT_START PRIMARY_GRADIENT_END) bare_machine
  = inr (Canvas ModeRGB 2 4 (RGB 0 0 0)
           [Line [(0, 0); (2, 0)] (Some (RGB 35 90 221)) 0;
            Line [(0, 1); (2, 1)] (Some (RGB 34 84 209)) 0;
            Line [(0, 2); (2, 2)] (Some (RGB 32 77 198)) 0;
            Line [(0, 3); (2, 3)] (Some (RGB 31 70 186)) 0]) /\
  result (hex_to_rgb PRIMARY_GRADIENT_START) bare_machine = inr (37, 99, 235) /\
  result (hex_to_rgb PRIMARY_GRADIENT_END) bare_machine = inr (30, 64, 175) /\
  (0 <= 1 /\ 1 <= 3 /\ 3 < 4) /\
  exists r1 g1 b1 r2 g2 b2,
    Some (34, 84, 209) = Some (r1, g1, b1) /\
    Some (31, 70, 186) = Some (r2, g2, b2) /\
    (toward 37 30 r1 r2 /\ toward 99 64 g1 g2 /\ toward 235 175 b1 b2) /\
    (between 37 30 r1 /\ between 99 64 g1 /\ between 235 175 b1) /\
    (between 37 30 r2 /\ between 99 64 g2 /\ between 235 175 b2).
Proof.
  assert (H : result (create_gradient_background (2, 4)
                PRIMARY_GRADIENT_START PRIMARY_GRADIENT_END) bare_machine
              = inr (Canvas ModeRGB 2 4 (RGB 0 0 0)
                   [Line [(0, 0); (2, 0)] (Some (RGB 35 90 221)) 0;
                    Line [(0, 1); (2, 1)] (Some (RGB 34 84 209)) 0;
                    Line [(0, 2); (2, 2)] (Some (RGB 32 77 198)) 0;
                    Line [(0, 3); (2, 3)] (Some (RGB 31 70 186)) 0]))
    by (vm_compute; reflexivity).
  assert (Hs : result (hex_to_rgb PRIMARY_GRADIENT_START) bare_machine
               = inr (37, 99, 235)) by (vm_compute; reflexivity).
  assert (He : result (hex_to_rgb PRIMARY_GRADIENT_END) bare_machine
               = inr (30, 64, 175)) by (vm_compute; reflexivity).
  split; [exact H|]. split; [exact Hs|]. split; [exact He|].
  split; [lia|].
  exact (gradient_channels_monotone_bounded bare_machine 2 4 _ _ _
           37 99 235 30 64 175 1 3 H Hs He ltac:(lia) ltac:(lia) ltac:(lia)).
Defined.

(** C10.  On every row of a gradient that was drawn, the bare ratio
    [(y/height + 0.3) / 1.3] is strictly between 0 and 1; [max(0.0, ratio)]
    and [min(1.0, ...)] both hand [ratio] back, and the row is coloured at
    the bare ratio. *)
Theorem gradient_clamp_never_fires
    (env : Env) width height sc ec img y :
  result (create_gradient_background (width, height) sc ec) env = inr img ->
  0 <= y < height ->
  (0 < raw_ratio y height)%Q /\ (raw_ratio y height < 1)%Q /\
  py_max (lit 0.0) (raw_ratio y height) = raw_ratio y height /\
  py_min (lit 1.0) (py_max (lit 0.0) (raw_ratio y height)) = raw_ratio y height /\
  exists sr sg sb er eg eb,
    result (hex_to_rgb sc) env = inr (sr, sg, sb) /\
    result (hex_to_rgb ec) env = inr (er, eg, eb) /\
    row_color img y =
      Some (interpolate sr er (raw_ratio y height),
            interpolate sg eg (raw_ratio y height),
            interpolate sb eb (raw_ratio y height)).
Proof.
  intros H Hy.
  destruct (gradient_inv _ _ _ _ _ _ H) as ([[sr sg] sb] & [[er eg] eb] & Hs & He & [_ Hh] & _).
  destruct (raw_ratio_inside y height Hy ltac:(lia)) as [P L].
  destruct (clamp01_inside _ P L) as [M C].
  split; [exact P|]. split; [exact L|]. split; [exact M|]. split; [exact C|].
  exists sr, sg, sb, er, eg, eb. split; [exact Hs|]. split; [exact He|].
  rewrite (gradient_row_formula env _ _ _ _ _ _ _ _ _ _ _ y H Hs He Hy).
  rewrite C. reflexivity.
Qed.

Lemma gradient_clamp_never_fires_witness :
  result (create_gradient_background (2, 4)
            PRIMARY_GRADIENT_START PRIMARY_GRADIENT_END) bare_machine
  = inr (Canvas ModeRGB 2 4 (RGB 0 0 0)
           [Line [(0, 0); (2, 0)] (Some (RGB 35 90 221)) 0;
            Line [(0, 1); (2, 1)] (Some (RGB 34 84 209)) 0;
            Line [(0, 2); (2, 2)] (Some (RGB 32 77 198)) 0;
            Line [(0, 3); (2, 3)] (Some (RGB 31 70 186)) 0]) /\
  0 <= 3 < 4 /\
  (0 < raw_ratio 3 4)%Q /\ (raw_ratio 3 4 < 1)%Q /\
  py_min (lit 1.0) (py_max (lit 0.0) (raw_ratio 3 4)) = raw_ratio 3 4.
Proof.
  assert (H : result (create_gradient_background (2, 4)
                PRIMARY_GRADIENT_START PRIMARY_GRADIENT_END) bare_machine
              = inr (Canvas ModeRGB 2 4 (RGB 0 0 0)
                   [Line [(0, 0); (2, 0)] (Some (RGB 35 90 221)) 0;
                    Line [(0, 1); (2, 1)] (Some (RGB 34 84 209)) 0;
                    Line [(0, 2); (2, 2)] (Some (RGB 32 77 198)) 0;
                    Line [(0, 3); (2, 3)] (Some (RGB 31 70 186)) 0]))
    by (vm_compute; reflexivity).
  assert (Hy : 0 <= 3 < 4) by lia.
  split; [exact H|]. split; [exact Hy|].
  destruct (gradient_clamp_never_fires bare_machine 2 4 _ _ _ 3 H Hy)
    as (P & L & _ & C & _).
  split; [exact P|]. split; [exact L|]. exact C.
Defined.

End GradientProperties.

(* ================================================================== *)
(** ** create-store-assets.py: what [hex_to_rgb] accepts *)

Section HexColours.
Import CreateStoreAssets.

Lemma hex_char (c : ascii) (d : Z) :
  hex_digit c = Some d ->
  is_space c = false /\ (code c =? 45) = false /\ (code c =? 43) = false /\
  (code c =? 95) = false /\ (code c =? 35) = false /\ 0 <= d <= 15.
Proof.
  unfold hex_digit, is_space. cbv zeta. intros H.
  destruct ((48 <=? code c) && (code c <=? 57)) eqn:E1;
    [injection H as <-; repeat split; lia|].
  destruct ((97 <=? code c) && (code c <=? 102)) eqn:E2;
    [injection H as <-; repeat split; lia|].
  destruct ((65 <=? code c) && (code c <=? 70)) eqn:E3; [|discriminate].
  injection H as <-. repeat split; lia.
Qed.

(** Two hexadecimal digits parse to [16 * d1 + d2]. *)
Lemma int_base16_two_digits (c1 c2 : ascii) (d1 d2 : Z) env :
  hex_digit c1 = Some d1 -> hex_digit c2 = Some d2 ->
  result (int_base16 (String c1 (String c2 ""))) env = inr (16 * d1 + d2).
Proof.
  intros H1 H2.
  destruct (hex_char c1 d1 H1) as (S1 & M1 & P1 & U1 & _ & _).
  destruct (hex_char c2 d2 H2) as (S2 & M2 & P2 & U2 & _ & _).
  unfold result, int_base16. cbv zeta.
  cbn [list_ascii_of_string lstrip_spaces]. rewrite S1.
  cbn [rev app lstrip_spaces]. rewrite S2.
  cbn [rev app]. rewrite M1, P1.
  cbn [hex_body hex_digits]. rewrite U1, H1, U2, H2.
  unfold ret. cbn [snd]. f_equal. lia.
Qed.

Lemma lstrip_hash_sharps (n : nat) (c : ascii) (rest : string) :
  (code c =? 35) = false ->
  lstrip_hash (sharps n (String c rest)) = String c rest.
Proof.
  intros Hc. induction n as [|n IH].
  - cbn [sharps lstrip_hash]. rewrite Hc. reflexivity.
  - cbn [sharps lstrip_hash]. exact IH.
Qed.

(** X6.  Six hexadecimal digits, in either case, behind any number of number
    signs and followed by anything, give the three channels
    [16 * d1 + d2], each between 0 and 255. *)
Theorem hex_to_rgb_six_digits (env : Env) (n : nat) (c1 c2 c3 c4 c5 c6 : ascii)
    (d1 d2 d3 d4 d5 d6 : Z) (rest : string) :
  hex_digit c1 = Some d1 -> hex_digit c2 = Some d2 -> hex_digit c3 = Some d3 ->
  hex_digit c4 = Some d4 -> hex_digit c5 = Some d5 -> hex_digit c6 = Some d6 ->
  result
    (hex_to_rgb
       (sharps n
          (String c1 (String c2 (String c3 (String c4 (String c5 (String c6 rest))))))))
    env
  = inr (16 * d1 + d2, 16 * d3 + d4, 16 * d5 + d6) /\
  0 <= 16 * d1 + d2 <= 255 /\ 0 <= 16 * d3 + d4 <= 255 /\ 0 <= 16 * d5 + d6 <= 255.
Proof.
  intros H1 H2 H3 H4 H5 H6.
  destruct (hex_char c1 d1 H1) as (_ & _ & _ & _ & N1 & R1).
  destruct (hex_char c2 d2 H2) as (_ & _ & _ & _ & _ & R2).
  destruct (hex_char c3 d3 H3) as (_ & _ & _ & _ & _ & R3).
  destruct (hex_char c4 d4 H4) as (_ & _ & _ & _ & _ & R4).
  destruct (hex_char c5 d5 H5) as (_ & _ & _ & _ & _ & R5).
  destruct (hex_char c6 d6 H6) as (_ & _ & _ & _ & _ & R6).
  split; [|lia].
  unfold hex_to_rgb. cbv zeta.
  rewrite (lstrip_hash_sharps n c1 _ N1).
  cbn [substring].
  assert (E0 : substring 0 0 rest = ""%string) by (destruct rest; reflexivity).
  rewrite E0.
  rewrite (result_bind _ _ _ _ (int_base16_two_digits c1 c2 d1 d2 env H1 H2)).
  rewrite (result_bind _ _ _ _ (int_base16_two_digits c3 c4 d3 d4 env H3 H4)).
  rewrite (result_bind _ _ _ _ (int_base16_two_digits c5 c6 d5 d6 env H5 H6)).
  reflexivity.
Qed.

Lemma hex_to_rgb_six_digits_witness :
  result (hex_to_rgb "#2563eb") bare_machine = inr (16 * 2 + 5, 16 * 6 + 3, 16 * 14 + 11).
Proof.
  exact (proj1 (hex_to_rgb_six_digits bare_machine 1 "2" "5" "6" "3" "e" "b"
                  2 5 6 3 14 11 "" eq_refl eq_refl eq_refl eq_refl eq_refl eq_refl)).
Defined.

Lemma int_base16_raises (s : string) env e :
  result (int_base16 s) env = inl e -> e = ValueError.
Proof.
  unfold result, int_base16. cbv zeta.
  match goal with
  | |- context [let '(sign, body) := ?X in _] => destruct X as [sign body]
  end.
  destruct (hex_body body); unfold ret, raise; cbn [snd]; intros H.
  - discriminate.
  - injection H as <-. reflexivity.
Qed.

Lemma hex_to_rgb_raises (s : string) env e :
  result (hex_to_rgb s) env = inl e -> e = ValueError.
Proof.
  unfold hex_to_rgb. cbv zeta. intros H.
  apply result_bind_cases in H. destruct H as [H|(r & _ & H)];
    [exact (int_base16_raises _ _ _ H)|].
  apply result_bind_cases in H. destruct H as [H|(g & _ & H)];
    [exact (int_base16_raises _ _ _ H)|].
  apply result_bind_cases in H. destruct H as [H|(b & _ & H)];
    [exact (int_base16_raises _ _ _ H)|].
  discriminate.
Qed.

Lemma substring_past_end (n m : nat) (s : string) :
  (String.length s <= n)%nat -> substring n m s = ""%string.
Proof.
  revert s. induction n as [|n IH]; intros s Hs.
  - destruct s as [|c s]; [|cbn in Hs; lia]. destruct m; reflexivity.
  - destruct s as [|c s]; [reflexivity|]. cbn [substring]. apply IH.
    cbn in Hs. lia.
Qed.

(** X7.  [hex_to_rgb] raises nothing but [ValueError], and raises it on every
    string that holds at most four characters behind its number signs: the
    short form [#fff] of a colour is refused. *)
Theorem hex_to_rgb_refuses_short_forms (env : Env) (s : string) :
  (forall e, result (hex_to_rgb s) env = inl e -> e = ValueError) /\
  ((String.length (lstrip_hash s) <= 4)%nat ->
   result (hex_to_rgb s) env = inl ValueError) /\
  result (hex_to_rgb "#fff") env = inl ValueError.
Proof.
  split; [intros e; apply hex_to_rgb_raises|].
  assert (Short : (String.length (lstrip_hash s) <= 4)%nat ->
                  result (hex_to_rgb s) env = inl ValueError).
  { intros Hs.
    destruct (result (hex_to_rgb s) env) as [e|[[r g] b]] eqn:E.
    - f_equal. exact (hex_to_rgb_raises _ _ _ E).
    - apply hex_to_rgb_inr in E. destruct E as (_ & _ & E).
      rewrite (substring_past_end 4 2 _ Hs) in E. discriminate. }
  split; [exact Short|]. reflexivity.
Qed.

(** X8.  [hex_to_rgb] does not check that a channel is a colour value: a sign
    is accepted by [int(_, 16)], so channels are only known to lie between
    -15 and 255, and both ends are met. *)
Theorem hex_to_rgb_channel_range (env : Env) :
  (forall s r g b,
     result (hex_to_rgb s) env = inr (r, g, b) ->
     -15 <= r <= 255 /\ -15 <= g <= 255 /\ -15 <= b <= 255) /\
  result (hex_to_rgb "-f-f-f") env = inr (-15, -15, -15) /\
  result (hex_to_rgb "#ffffff") env = inr (255, 255, 255).
Proof.
  split; [intros s r g b; apply hex_to_rgb_channels|].
  split; reflexivity.
Qed.

End HexColours.

(* ================================================================== *)
(** ** create-store-assets.py: more on [create_gradient_background] *)

Section GradientCoverage.
Import CreateStoreAssets.
Local Open Scope Q_scope.

Ltac q_closed := first [ vm_compute; reflexivity | vm_compute; discriminate ].

Lemma Qmult_le_both (a b c d : Q) :
  0 <= a -> a <= c -> 0 <= b -> b <= d -> a * b <= c * d.
Proof.
  intros Ha Hac Hb Hbd.
  apply Qle_trans with (a * d).
  - apply Qmult_le_scale; assumption.
  - apply Qmult_le_compat_r; [assumption | lra].
Qed.

(** From the ratio of the first row on, a channel at least five away from
    its start has moved at least one unit toward its end. *)
Lemma interpolate_leaves_start (s e : Z) (t : Q) :
  (Z.abs s < 2 ^ 52)%Z -> (Z.abs e < 2 ^ 52)%Z ->
  fdiv (lit 0.3) (lit 1.3) <= t ->
  leaves_start s e (interpolate s e t).
Proof.
  intros Hs He Ht.
  assert (R0 : 0 <= fdiv (lit 0.3) (lit 1.3)) by q_closed.
  assert (Fs : float_of_int s == inject_Z s) by (apply float_of_int_exact; lia).
  unfold leaves_start, interpolate, fadd, fmul. split; intros Hd.
  - assert (Fd : float_of_int 5 <= float_of_int (e - s))
      by (apply float_of_int_mono; lia).
    assert (F5 : float_of_int 5 == 5) by q_closed.
    assert (P : 1 <= rnd (float_of_int (e - s) * t)).
    { apply Qle_trans with (rnd (5 * fdiv (lit 0.3) (lit 1.3))); [q_closed|].
      apply rnd_mono. apply Qmult_le_both; lra. }
    assert (T : inject_Z (s + 1) <= rnd (float_of_int s + rnd (float_of_int (e - s) * t))).
    { rewrite <- (rnd_int (s + 1)) by lia. apply rnd_mono.
      rewrite inject_Z_plus. change (inject_Z 1) with 1. lra. }
    apply py_int_mono in T. rewrite py_int_inject in T. lia.
  - assert (Fd : float_of_int (e - s) <= float_of_int (-5))
      by (apply float_of_int_mono; lia).
    assert (F5 : float_of_int (-5) == -5) by q_closed.
    assert (P : rnd (float_of_int (e - s) * t) <= -1).
    { apply Qle_trans with (rnd (-5 * fdiv (lit 0.3) (lit 1.3))); [|q_closed].
      apply rnd_mono.
      assert (5 * fdiv (lit 0.3) (lit 1.3) <= (- float_of_int (e - s)) * t)
        by (apply Qmult_le_both; lra).
      lra. }
    assert (T : rnd (float_of_int s + rnd (float_of_int (e - s) * t)) <= inject_Z (s - 1)).
    { rewrite <- (rnd_int (s - 1)) by lia. apply rnd_mono.
      assert (E : inject_Z (s - 1) == inject_Z s - 1).
      { unfold Z.sub. rewrite inject_Z_plus. change (inject_Z (- (1))) with (-1). ring. }
      lra. }
    apply py_int_mono in T. rewrite py_int_inject in T. lia.
Qed.

Lemma first_ratio_least (y height : Z) :
  (0 <= y < height)%Z -> fdiv (lit 0.3) (lit 1.3) <= clamp01 (raw_ratio y height).
Proof.
  intros Hy.
  assert (E : clamp01 (fdiv (lit 0.3) (lit 1.3)) = fdiv (lit 0.3) (lit 1.3)) by q_closed.
  rewrite <- E at 1. apply clamp01_mono.
  rewrite <- (raw_ratio_first height) by lia.
  apply raw_ratio_mono; lia.
Qed.

(** A channel that does not change is drawn as it is. *)
Lemma interpolate_flat (s : Z) (t : Q) :
  (Z.abs s < 2 ^ 52)%Z -> interpolate s s t = s.
Proof.
  intros Hs. unfold interpolate, fadd, fmul.
  rewrite Z.sub_diag, float_of_int_0.
  assert (E : rnd (0 * t) = 0).
  { change 0 with (rnd 0) at 2. apply rnd_comp. ring. }
  rewrite E.
  assert (F : rnd (float_of_int s + 0) = rnd (inject_Z s)).
  { apply rnd_comp. rewrite float_of_int_exact by lia. ring. }
  rewrite F, (py_int_comp _ (inject_Z s)) by (apply rnd_int; lia).
  apply py_int_inject.
Qed.

Local Close Scope Q_scope.

Lemma log_hex_to_rgb (s : string) env : log (hex_to_rgb s) env = [].
Proof. unfold log. rewrite hex_to_rgb_pure. reflexivity. Qed.

(** X9.  What [create_gradient_background] does besides interpolating.  It loads
    no font.  It returns exactly when [Image.new] returns the canvas and
    both colours parse; an exception it ends on is [ValueError],
    [OverflowError] or [MemoryError].  The image it returns is an RGB image
    of the size asked for, drawn with one full-width line per row, row 0
    first: [height] drawing calls. *)
Theorem gradient_one_line_per_row (env : Env) (width height : Z) (sc ec : string) :
  log (create_gradient_background (width, height) sc ec) env = [] /\
  ((exists img, result (create_gradient_background (width, height) sc ec) env = inr img)
   <-> (exists c, result (Image_new ModeRGB (width, height) (RGB 0 0 0)) env = inr c) /\
       (exists s, result (hex_to_rgb sc) env = inr s) /\
       (exists e, result (hex_to_rgb ec) env = inr e)) /\
  (forall img,
     result (create_gradient_background (width, height) sc ec) env = inr img ->
     image_mode img = ModeRGB /\ image_size img = (width, height) /\
     Z.of_nat (List.length (image_ops img)) = height /\
     forall y, 0 <= y < height ->
       exists c, nth_error (image_ops img) (Z.to_nat y)
                 = Some (Line [(0, y); (width, y)] (Some c) 0)) /\
  (forall e,
     result (create_gradient_background (width, height) sc ec) env = inl e ->
     e = ValueError \/ e = OverflowError \/ e = MemoryError).
Proof.
  split; [|split; [|split]].
  - unfold create_gradient_background.
    rewrite log_bind_cases, (log_Image_new ModeRGB (width, height) (RGB 0 0 0) env).
    rewrite app_nil_l.
    destruct (result (Image_new ModeRGB (width, height) (RGB 0 0 0)) env) as [e|c];
      [reflexivity|].
    cbv beta iota.
    rewrite log_bind_cases, (log_hex_to_rgb sc env), app_nil_l.
    destruct (result (hex_to_rgb sc) env) as [e|[[sr sg] sb]]; [reflexivity|].
    cbv beta iota.
    rewrite log_bind_cases, (log_hex_to_rgb ec env), app_nil_l.
    destruct (result (hex_to_rgb ec) env) as [e|[[er eg] eb]]; [reflexivity|].
    cbv beta iota. unfold log, ret. cbn [fst]. reflexivity.
  - split.
    + intros (img & H). apply gradient_inv in H.
      destruct H as (s & e & Hs & He & [Hw Hh] & _).
      split; [|eauto].
      exists (Canvas ModeRGB width height (RGB 0 0 0) []).
      unfold result. rewrite (Image_new_ok ModeRGB width height _ env Hw Hh). reflexivity.
    + intros ((c & Hc) & (s & Hs) & (e & He)).
      apply Image_new_inr in Hc. destruct Hc as [[Hw Hh] _].
      eexists. unfold result.
      rewrite (gradient_ok env width height sc ec s e Hw Hh Hs He). reflexivity.
  - intros img H. apply gradient_inv in H.
    destruct H as (s & e & _ & _ & [_ Hh] & ->).
    cbn [image_mode image_size image_ops].
    split; [reflexivity|]. split; [reflexivity|]. split.
    + rewrite length_map. unfold range. rewrite length_map, length_seq. lia.
    + intros y Hy. rewrite nth_error_map, (range_nth height y Hy).
      cbn [option_map]. destruct s as [[sr sg] sb], e as [[er eg] eb].
      eexists. reflexivity.
  - intros e H. unfold create_gradient_background in H.
    apply result_bind_cases in H. destruct H as [H|(c & _ & H)].
    { destruct (Image_new_cases ModeRGB width height (RGB 0 0 0) env)
        as [[Hw Hh]|[E|[E|E]]].
      - unfold result in H.
        rewrite (Image_new_ok ModeRGB width height _ env Hw Hh) in H. discriminate.
      - rewrite E in H. injection H as <-. auto.
      - rewrite E in H. injection H as <-. auto.
      - rewrite E in H. injection H as <-. auto. }
    apply result_bind_cases in H. destruct H as [H|([[sr sg] sb] & _ & H)].
    { left. exact (hex_to_rgb_raises _ _ _ H). }
    apply result_bind_cases in H. destruct H as [H|([[er eg] eb] & _ & H)].
    { left. exact (hex_to_rgb_raises _ _ _ H). }
    discriminate.
Qed.

(** X10.  No row of a gradient shows the start colour: the ratio of the first
    row is already [0.3 / 1.3], so on every row each channel whose start
    and end are at least 5 apart has moved toward its end. *)
Theorem gradient_never_shows_start_colour (env : Env) (width height : Z)
    (sc ec : string) (img : image) (sr sg sb er eg eb y : Z) :
  result (create_gradient_background (width, height) sc ec) env = inr img ->
  result (hex_to_rgb sc) env = inr (sr, sg, sb) ->
  result (hex_to_rgb ec) env = inr (er, eg, eb) ->
  0 <= y < height ->
  exists r g b,
    row_color img y = Some (r, g, b) /\
    leaves_start sr er r /\ leaves_start sg eg g /\ leaves_start sb eb b.
Proof.
  intros H Hs He Hy.
  pose proof (hex_to_rgb_channels _ _ _ _ _ Hs) as (Rs & Gs & Bs).
  pose proof (hex_to_rgb_channels _ _ _ _ _ He) as (Re & Ge & Be).
  do 3 eexists. split.
  - exact (gradient_row_formula env _ _ _ _ _ _ _ _ _ _ _ y H Hs He Hy).
  - pose proof (first_ratio_least y height Hy) as Ht.
    split; [|split]; apply interpolate_leaves_start; try exact Ht; lia.
Qed.

Lemma gradient_never_shows_start_colour_witness :
  exists r g b,
    row_color
      (Canvas ModeRGB 2 4 (RGB 0 0 0)
         (map (gradient_line 2 4 (37, 99, 235) (30, 64, 175)) (range 4))) 0
      = Some (r, g, b) /\
    leaves_start 37 30 r /\ leaves_start 99 64 g /\ leaves_start 235 175 b.
Proof.
  assert (Hw : 0 <= 2 <= WIDTH_MAX) by (vm_compute; split; discriminate).
  assert (Hh : 0 <= 4 <= INT_MAX) by (unfold INT_MAX; lia).
  assert (Hs : result (hex_to_rgb PRIMARY_GRADIENT_START) bare_machine = inr (37, 99, 235))
    by reflexivity.
  assert (He : result (hex_to_rgb PRIMARY_GRADIENT_END) bare_machine = inr (30, 64, 175))
    by reflexivity.
  assert (H : result (create_gradient_background (2, 4)
                        PRIMARY_GRADIENT_START PRIMARY_GRADIENT_END) bare_machine
              = inr (Canvas ModeRGB 2 4 (RGB 0 0 0)
                       (map (gradient_line 2 4 (37, 99, 235) (30, 64, 175)) (range 4)))).
  { unfold result. rewrite (gradient_ok bare_machine 2 4 _ _ _ _ Hw Hh Hs He).
    reflexivity. }
  assert (Hy : 0 <= 0 < 4) by lia.
  exact (gradient_never_shows_start_colour bare_machine 2 4 _ _ _ 37 99 235 30 64 175 0
           H Hs He Hy).
Defined.

(** X11.  A gradient between two equal colours is flat: every row has exactly
    that colour. *)
Theorem gradient_of_one_colour_is_flat (env : Env) (width height : Z)
    (sc ec : string) (img : image) (c : Z * Z * Z) (y : Z) :
  result (create_gradient_background (width, height) sc ec) env = inr img ->
  result (hex_to_rgb sc) env = inr c ->
  result (hex_to_rgb ec) env = inr c ->
  0 <= y < height ->
  row_color img y = Some c.
Proof.
  intros H Hs He Hy. destruct c as [[r g] b].
  pose proof (hex_to_rgb_channels _ _ _ _ _ Hs) as (Rs & Gs & Bs).
  rewrite (gradient_row_formula env _ _ _ _ _ _ _ _ _ _ _ y H Hs He Hy).
  rewrite !interpolate_flat by lia. reflexivity.
Qed.

Lemma gradient_of_one_colour_is_flat_witness :
  row_color
    (Canvas ModeRGB 3 2 (RGB 0 0 0)
       (map (gradient_line 3 2 (16, 185, 129) (16, 185, 129)) (range 2))) 1
  = Some (16, 185, 129).
Proof.
  assert (Hw : 0 <= 3 <= WIDTH_MAX) by (vm_compute; split; discriminate).
  assert (Hh : 0 <= 2 <= INT_MAX) by (unfold INT_MAX; lia).
  assert (Hs : result (hex_to_rgb ACCENT) bare_machine = inr (16, 185, 129))
    by reflexivity.
  assert (H : result (create_gradient_background (3, 2) ACCENT ACCENT) bare_machine
              = inr (Canvas ModeRGB 3 2 (RGB 0 0 0)
                       (map (gradient_line 3 2 (16, 185, 129) (16, 185, 129)) (range 2)))).
  { unfold result. rewrite (gradient_ok bare_machine 3 2 _ _ _ _ Hw Hh Hs Hs).
    reflexivity. }
  assert (Hy : 0 <= 1 < 2) by lia.
  exact (gradient_of_one_colour_is_flat bare_machine 3 2 _ _ _ _ 1 H Hs Hs Hy).
Defined.

End GradientCoverage.

(* ================================================================== *)
(** ** create-icons.py: what [create_currency_icon] returns *)

Section Icon.
Import CreateIcons.

Lemma get_font_eq (env : Env) (font_size : Z) :
  get_font font_size env = (log (get_font font_size) env, inr (icon_font env font_size)).
Proof.
  unfold icon_font, log, result, get_font, try_except, truetype, load_default.
  cbv zeta.
  destruct (truetype_ok env "/System/Library/Fonts/Helvetica.ttc" (Z.max 8 font_size));
    [reflexivity|].
  destruct (truetype_ok env "/System/Library/Fonts/SFNSMono.ttf" (Z.max 8 font_size));
    reflexivity.
Qed.

(** Measuring a glyph never fails: the estimate stands in. *)
Lemma measure_eq (env : Env) (f : font) (font_size : Z) (text : string) :
  try_except
    ('(x0, y0, x1, y1) <- textbbox text f ;; ret (x1 - x0, y1 - y0))
    (ret (font_size / 2, font_size)) env
  = ([], inr (glyph_extent env f font_size text)).
Proof.
  unfold try_except, bind, textbbox, ret, glyph_extent.
  destruct (text_bbox env f text) as [[[[x0 y0] x1] y1]|]; reflexivity.
Qed.

(** Every font draws the dollar sign. *)
Lemma dollar_draws (env : Env) (f : font) : draws env f "$" = true.
Proof. apply latin_1_draws. reflexivity. Qed.

(** On a canvas Pillow makes, and with the boxes of the coins in order,
    the icon is the canvas with its layers: four ellipses, the dollar
    glyph, the euro glyph from 32 pixels on, the arrows from 48 pixels on.
    The one thing that can still fail is the euro glyph, in a font that
    cannot draw it. *)
Lemma icon_eq (env : Env) (size : Z) :
  0 <= size <= WIDTH_MAX -> coins_ordered size = true ->
  create_currency_icon size env
  = (log (get_font (font_size_of size)) env,
     if (32 <=? size) && negb (draws env (icon_font env (font_size_of size)) "€")
     then inl UnicodeEncodeError
     else inr (Canvas ModeRGBA size size (RGBA 0 0 0 0) (icon_ops env size))).
Proof.
  intros Hs Hc.
  assert (Hs' : 0 <= size <= INT_MAX) by (pose proof width_max_le; lia).
  unfold coins_ordered, coin_ops in Hc. cbv zeta in Hc. cbn [forallb] in Hc.
  apply andb_true_iff in Hc. destruct Hc as [W1 Hc].
  apply andb_true_iff in Hc. destruct Hc as [W2 Hc].
  apply andb_true_iff in Hc. destruct Hc as [W3 Hc].
  apply andb_true_iff in Hc. destruct Hc as [W4 _].
  unfold inner_margin_of, coin_size_of, margin_of in W1, W2, W3, W4.
  unfold icon_ops, glyph_op, coin_ops, arrow_ops, inner_margin_of, nudge_of,
    margin_of, coin_size_of.
  unfold create_currency_icon.
  rewrite (bind_nil _ _ _ _ (Image_new_ok ModeRGBA size size (RGBA 0 0 0 0) env Hs Hs')).
  cbv beta zeta. unfold ImageDraw_ellipse.
  rewrite bind_checked; cbv beta; rewrite W1.
  rewrite bind_checked; cbv beta; rewrite W2.
  rewrite bind_checked; cbv beta; rewrite W3.
  rewrite bind_checked; cbv beta; rewrite W4.
  apply (bind_eq _ _ _ _ _ _ (get_font_eq env (font_size_of size))).
  set (f := icon_font env (font_size_of size)).
  unfold font_size_of.
  rewrite (bind_nil _ _ _ _ (measure_eq env f _ "$")).
  destruct (glyph_extent env f _ "$") as [w h].
  unfold ImageDraw_text.
  rewrite bind_checked; cbv beta; rewrite dollar_draws.
  destruct (32 <=? size); cbn [andb].
  - rewrite bind_assoc.
    rewrite (bind_nil _ _ _ _ (measure_eq env f _ "€")).
    destruct (glyph_extent env f _ "€") as [w' h'].
    rewrite bind_checked; cbv beta.
    destruct (draws env f "€"); cbn [negb]; [|reflexivity].
    unfold ret. destruct (48 <=? size); cbn [app draw]; reflexivity.
  - rewrite bind_ret.
    unfold ret. destruct (48 <=? size); cbn [app draw]; reflexivity.
Qed.

Lemma icon_inv (env : Env) (size : Z) (img : image) :
  result (create_currency_icon size) env = inr img ->
  (0 <= size <= WIDTH_MAX /\ coins_ordered size = true /\
   (32 <= size -> draws env (icon_font env (font_size_of size)) "€" = true)) /\
  img = Canvas ModeRGBA size size (RGBA 0 0 0 0) (icon_ops env size).
Proof.
  intros H. pose proof H as H'. unfold create_currency_icon in H'.
  apply result_bind_inr in H'. destruct H' as (img0 & H0 & H').
  apply Image_new_inr in H0. destruct H0 as [[Hs _] _].
  cbv beta zeta in H'. unfold ImageDraw_ellipse in H'.
  apply result_bind_inr in H'. destruct H' as (img1 & W1 & H').
  apply checked_inr in W1. destruct W1 as [W1 _].
  apply result_bind_inr in H'. destruct H' as (img2 & W2 & H').
  apply checked_inr in W2. destruct W2 as [W2 _].
  apply result_bind_inr in H'. destruct H' as (img3 & W3 & H').
  apply checked_inr in W3. destruct W3 as [W3 _].
  apply result_bind_inr in H'. destruct H' as (img4 & W4 & _).
  apply checked_inr in W4. destruct W4 as [W4 _].
  assert (Hc : coins_ordered size = true).
  { unfold coins_ordered, coin_ops. cbv zeta. cbn [forallb].
    unfold inner_margin_of, coin_size_of, margin_of.
    rewrite W1, W2, W3, W4. reflexivity. }
  unfold result in H. rewrite (icon_eq env size Hs Hc) in H. cbn [snd] in H.
  destruct (32 <=? size) eqn:E32; cbn [andb] in H.
  - destruct (draws env (icon_font env (font_size_of size)) "€") eqn:D;
      cbn [negb] in H; [|discriminate].
    injection H as <-. auto.
  - injection H as <-. apply Z.leb_gt in E32.
    split; [|reflexivity]. split; [exact Hs|]. split; [exact Hc|]. lia.
Qed.

Lemma icon_ok (env : Env) (size : Z) :
  0 <= size <= WIDTH_MAX -> coins_ordered size = true ->
  (32 <= size -> draws env (icon_font env (font_size_of size)) "€" = true) ->
  result (create_currency_icon size) env
  = inr (Canvas ModeRGBA size size (RGBA 0 0 0 0) (icon_ops env size)).
Proof.
  intros Hs Hc Hd. unfold result. rewrite (icon_eq env size Hs Hc). cbn [snd].
  destruct (32 <=? size) eqn:E32; cbn [andb]; [|reflexivity].
  apply Z.leb_le in E32. rewrite (Hd E32). reflexivity.
Qed.

Lemma icon_log (env : Env) (size : Z) :
  0 <= size <= WIDTH_MAX -> coins_ordered size = true ->
  log (create_currency_icon size) env = log (get_font (font_size_of size)) env.
Proof. intros Hs Hc. unfold log at 1. rewrite (icon_eq env size Hs Hc). reflexivity. Qed.


Lemma glyph_op_is_text env size coin text fill :
  exists x y w h,
    glyph_extent env (icon_font env (font_size_of size)) (font_size_of size) text
      = (w, h) /\
    x = coin + (coin_size_of size - w) / 2 /\
    y = coin + (coin_size_of size - h) / 2 - nudge_of size /\
    glyph_op env size coin text fill
      = Text (x, y) text (Some fill) (icon_font env (font_size_of size)).
Proof.
  unfold glyph_op.
  destruct (glyph_extent env (icon_font env (font_size_of size)) (font_size_of size) text)
    as [w h].
  do 4 eexists. repeat split.
Qed.


Lemma icon_ops_glyphs (env : Env) (size : Z) :
  filter is_glyph_op (icon_ops env size)
  = glyph_op env size (margin_of size) "$" WHITE
    :: (if 32 <=? size
        then [glyph_op env size (size - margin_of size - coin_size_of size) "€"
                (RGB 220 225 240)]
        else []).
Proof.
  unfold icon_ops. rewrite !filter_app.
  destruct (glyph_op_is_text env size (margin_of size) "$" WHITE)
    as (x & y & w & h & _ & _ & _ & ->).
  destruct (glyph_op_is_text env size (size - margin_of size - coin_size_of size)
              "€" (RGB 220 225 240)) as (x' & y' & w' & h' & _ & _ & _ & ->).
  destruct (32 <=? size); destruct (48 <=? size); reflexivity.
Qed.

Lemma centered_by_halving (lo c extent : Z) :
  centered_in lo (lo + c) (lo + (c - extent) / 2) extent.
Proof. unfold centered_in. Z.div_mod_to_equations. lia. Qed.

End Icon.

(* ================================================================== *)
(** ** create-icons.py: the icon in whole pixels *)

Section IconWholePixels.
Import CreateIcons.

Ltac q_closed := first [ vm_compute; reflexivity | vm_compute; discriminate ].

Ltac scaled Hs :=
  unfold px; apply int_scaled_floor;
  [lia | lia | q_closed | q_closed | q_closed | exact Hs].

Lemma scaled_0_08 (size : Z) :
  0 <= size <= INT_MAX -> py_int (size *~ lit 0.08) = px 8 size.
Proof. intros Hs. scaled Hs. Qed.

Lemma scaled_0_62 (size : Z) :
  0 <= size <= INT_MAX -> py_int (size *~ lit 0.62) = px 62 size.
Proof. intros Hs. scaled Hs. Qed.

Lemma scaled_0_45 (size : Z) :
  0 <= size <= INT_MAX -> py_int (size *~ lit 0.45) = px 45 size.
Proof. intros Hs. scaled Hs. Qed.

Lemma scaled_0_02 (size : Z) :
  0 <= size <= INT_MAX -> py_int (size *~ lit 0.02) = px 2 size.
Proof. intros Hs. scaled Hs. Qed.

Lemma scaled_0_10 (size : Z) :
  0 <= size <= INT_MAX -> py_int (size *~ lit 0.10) = px 10 size.
Proof. intros Hs. scaled Hs. Qed.

Lemma scaled_0_04 (size : Z) :
  0 <= size <= INT_MAX -> py_int (size *~ lit 0.04) = px 4 size.
Proof. intros Hs. scaled Hs. Qed.

Lemma scaled_0_05 (size : Z) :
  0 <= size <= INT_MAX -> py_int (size *~ lit 0.05) = px 5 size.
Proof. intros Hs. scaled Hs. Qed.

Lemma scaled_0_025 (size : Z) :
  0 <= size <= INT_MAX -> py_int (size *~ lit 0.025) = 25 * size / 1000.
Proof. intros Hs. scaled Hs. Qed.

Lemma px_range (n size : Z) :
  0 <= n <= 100 -> 0 <= size <= INT_MAX -> 0 <= px n size <= size.
Proof.
  intros Hn Hs. unfold px. split.
  - apply Z.div_pos; nia.
  - apply Z.div_le_upper_bound; nia.
Qed.

Lemma margin_of_px (size : Z) : 0 <= size <= INT_MAX -> margin_of size = px 8 size.
Proof. intros Hs. apply scaled_0_08, Hs. Qed.

Lemma coin_size_of_px (size : Z) : 0 <= size <= INT_MAX -> coin_size_of size = px 62 size.
Proof. intros Hs. apply scaled_0_62, Hs. Qed.

Lemma nudge_of_px (size : Z) : 0 <= size <= INT_MAX -> nudge_of size = px 2 size.
Proof. intros Hs. apply scaled_0_02, Hs. Qed.

Lemma inner_margin_of_px (size : Z) :
  0 <= size <= INT_MAX -> inner_margin_of size = Z.max 1 (px 8 (px 62 size)).
Proof.
  intros Hs. unfold inner_margin_of. rewrite (coin_size_of_px size Hs).
  f_equal. apply scaled_0_08.
  pose proof (px_range 62 size ltac:(lia) Hs). lia.
Qed.

Lemma font_size_of_px (size : Z) :
  0 <= size <= INT_MAX -> font_size_of size = Z.max 10 (px 45 (px 62 size)).
Proof.
  intros Hs. unfold font_size_of. rewrite (coin_size_of_px size Hs).
  f_equal. apply scaled_0_45.
  pose proof (px_range 62 size ltac:(lia) Hs). lia.
Qed.

Lemma icon_ops_whole_pixels (env : Env) (size : Z) :
  0 <= size <= INT_MAX -> icon_ops env size = icon_ops_px env size.
Proof.
  intros Hs.
  unfold icon_ops, coin_ops, glyph_op, arrow_ops.
  rewrite (font_size_of_px size Hs), (inner_margin_of_px size Hs),
    (nudge_of_px size Hs), (margin_of_px size Hs), (coin_size_of_px size Hs).
  rewrite (scaled_0_025 size Hs), (scaled_0_10 size Hs), (scaled_0_04 size Hs),
    (scaled_0_05 size Hs).
  unfold icon_ops_px. cbv zeta.
  destruct (glyph_extent env _ _ "$") as [w h].
  destruct (glyph_extent env _ _ "€") as [w' h'].
  reflexivity.
Qed.


(** The boxes of the four ellipses are in order exactly from 4 pixels on:
    below, the inner margin, one pixel at least on each side, exceeds the
    coin. *)
Lemma coins_ordered_from_4 (size : Z) :
  0 <= size <= INT_MAX -> (coins_ordered size = true <-> 4 <= size).
Proof.
  intros Hs. unfold coins_ordered, coin_ops. cbv zeta. cbn [forallb].
  rewrite (inner_margin_of_px size Hs), (margin_of_px size Hs), (coin_size_of_px size Hs).
  unfold well_ordered, px. unfold INT_MAX in Hs.
  set (m := 8 * size / 100). set (c := 62 * size / 100). set (i := 8 * c / 100).
  assert (Hm : 100 * m <= 8 * size < 100 * m + 100)
    by (unfold m; Z.div_mod_to_equations; lia).
  assert (Hc : 100 * c <= 62 * size < 100 * c + 100)
    by (unfold c; Z.div_mod_to_equations; lia).
  assert (Hi : 100 * i <= 8 * c < 100 * i + 100)
    by (unfold i; Z.div_mod_to_equations; lia).
  clearbody m c i. lia.
Qed.

End IconWholePixels.

(* ================================================================== *)
(** ** Properties of [create_currency_icon] *)

Section IconProperties.
Import CreateIcons.

Lemma width_max_value : WIDTH_MAX = 536870910.
Proof. reflexivity. Qed.

Ltac in_bounds := rewrite width_max_value; lia.

Lemma configured_sizes_ordered : forallb coins_ordered SIZES = true.
Proof. vm_compute. reflexivity. Qed.

(** Each configured size is one Pillow makes a canvas of, with the boxes
    of the coins in order. *)
Lemma configured_size (size : Z) :
  In size SIZES -> 0 <= size <= WIDTH_MAX /\ coins_ordered size = true.
Proof.
  intros Hin. split.
  - unfold SIZES in Hin. cbn [In] in Hin. in_bounds.
  - pose proof configured_sizes_ordered as H. rewrite forallb_forall in H.
    apply H, Hin.
Qed.





(** Where the ink of a glyph falls on its coin.  The origin is placed for
    the extent measured; the ink is the measured box moved to the origin,
    so it is centred sideways only if the box starts at column 0, and
    centred in height only if the box starts as many rows down as the
    origin was raised. *)
Lemma glyph_ink (env : Env) (f : font) (text : string) (fill : option color)
    (font_size lo c n w h x0 y0 x1 y1 : Z) :
  glyph_extent env f font_size text = (w, h) ->
  text_bbox env f text = Some (x0, y0, x1, y1) ->
  ink_box env (Text (lo + (c - w) / 2, lo + (c - h) / 2 - n) text fill f)
    = Some (lo + (c - w) / 2 + x0, lo + (c - h) / 2 - n + y0,
            lo + (c - w) / 2 + x1, lo + (c - h) / 2 - n + y1) /\
  (centered_in lo (lo + c) (lo + (c - w) / 2 + x0) (x1 - x0) <-> x0 = 0) /\
  (centered_in lo (lo + c) (lo + (c - h) / 2 - n + y0) (y1 - y0) <-> y0 = n).
Proof.
  intros E B. unfold glyph_extent in E. rewrite B in E. injection E as <- <-.
  split; [|split].
  - unfold ink_box. rewrite B. reflexivity.
  - unfold centered_in. Z.div_mod_to_equations. lia.
  - unfold centered_in. Z.div_mod_to_equations. lia.
Qed.

(** C4, as the code has it.  Every icon returned carries the dollar glyph
    on the front coin.  Its origin is placed for the extent measured (or
    estimated, when measuring fails): centred on the coin sideways, and in
    height centred then raised by [int(size * 0.02)] pixels.  Pillow inks
    the glyph in the measured box moved to that origin, so the ink is
    centred sideways exactly when the box starts at column 0, and in height
    exactly when it starts [int(size * 0.02)] rows down.  The euro glyph is
    placed the same way on the back coin when [size >= 32], and is absent
    below. *)
Theorem icon_glyphs_placed (env : Env) (size : Z) (img : image) :
  result (create_currency_icon size) env = inr img ->
  let m := margin_of size in
  let c := coin_size_of size in
  let back := size - m - c in
  let f := icon_font env (font_size_of size) in
  exists dx dy dw dh,
    glyph_extent env f (font_size_of size) "$" = (dw, dh) /\
    nth_error (image_ops img) 2
      = Some (Ellipse (m, m, m + c, m + c) (Some PRIMARY_COLOR) None 1) /\
    hd_error (glyphs img) = Some (Text (dx, dy) "$" (Some WHITE) f) /\
    centered_in m (m + c) dx dw /\
    centered_in m (m + c) (dy + nudge_of size) dh /\
    (forall x0 y0 x1 y1,
       text_bbox env f "$" = Some (x0, y0, x1, y1) ->
       ink_box env (Text (dx, dy) "$" (Some WHITE) f)
         = Some (dx + x0, dy + y0, dx + x1, dy + y1) /\
       (centered_in m (m + c) (dx + x0) (x1 - x0) <-> x0 = 0) /\
       (centered_in m (m + c) (dy + y0) (y1 - y0) <-> y0 = nudge_of size)) /\
    (32 <= size ->
     exists ex ey ew eh,
       glyph_extent env f (font_size_of size) "€" = (ew, eh) /\
       nth_error (image_ops img) 0
         = Some (Ellipse (back, back, back + c, back + c) (Some PRIMARY_DARK) None 1) /\
       glyphs img = [Text (dx, dy) "$" (Some WHITE) f;
                     Text (ex, ey) "€" (Some (RGB 220 225 240)) f] /\
       centered_in back (back + c) ex ew /\
       centered_in back (back + c) (ey + nudge_of size) eh /\
       (forall x0 y0 x1 y1,
          text_bbox env f "€" = Some (x0, y0, x1, y1) ->
          ink_box env (Text (ex, ey) "€" (Some (RGB 220 225 240)) f)
            = Some (ex + x0, ey + y0, ex + x1, ey + y1) /\
          (centered_in back (back + c) (ex + x0) (x1 - x0) <-> x0 = 0) /\
          (centered_in back (back + c) (ey + y0) (y1 - y0) <-> y0 = nudge_of size))) /\
    (size < 32 -> glyphs img = [Text (dx, dy) "$" (Some WHITE) f]).
Proof.
  intros H. cbv zeta. apply icon_inv in H. destruct H as [_ ->].
  unfold glyphs. cbn [image_ops]. rewrite icon_ops_glyphs.
  destruct (glyph_op_is_text env size (margin_of size) "$" WHITE)
    as (dx & dy & dw & dh & Ed & -> & -> & ->).
  destruct (glyph_op_is_text env size (size - margin_of size - coin_size_of size)
              "€" (RGB 220 225 240))
    as (ex & ey & ew & eh & Ee & -> & -> & ->).
  set (m := margin_of size). set (c := coin_size_of size).
  set (back := size - m - c). set (f := icon_font env (font_size_of size)).
  do 4 eexists. split; [exact Ed|]. split; [reflexivity|].
  split; [reflexivity|]. split; [apply centered_by_halving|].
  split.
  { replace (m + (c - dh) / 2 - nudge_of size + nudge_of size)
      with (m + (c - dh) / 2) by lia.
    apply centered_by_halving. }
  split.
  { intros x0 y0 x1 y1 B. exact (glyph_ink env f "$" _ _ m c _ dw dh x0 y0 x1 y1 Ed B). }
  split.
  - intros L. apply Z.leb_le in L. rewrite L.
    do 4 eexists. split; [exact Ee|]. split; [reflexivity|].
    split; [reflexivity|]. split; [apply centered_by_halving|].
    split.
    { replace (back + (c - eh) / 2 - nudge_of size + nudge_of size)
        with (back + (c - eh) / 2) by lia.
      apply centered_by_halving. }
    intros x0 y0 x1 y1 B.
    exact (glyph_ink env f "€" _ _ back c _ ew eh x0 y0 x1 y1 Ee B).
  - intros L. apply Z.leb_gt in L. rewrite L. reflexivity.
Qed.

Lemma icon_glyphs_placed_witness :
  result (create_currency_icon 128) builtin_machine
  = inr (icon_of builtin_machine 128) /\
  exists dx dy dw dh,
    glyph_extent builtin_machine (icon_font builtin_machine (font_size_of 128))
      (font_size_of 128) "$" = (dw, dh) /\
    hd_error (glyphs (icon_of builtin_machine 128))
      = Some (Text (dx, dy) "$" (Some WHITE)
                (icon_font builtin_machine (font_size_of 128))) /\
    centered_in (margin_of 128) (margin_of 128 + coin_size_of 128) dx dw /\
    centered_in (margin_of 128) (margin_of 128 + coin_size_of 128)
      (dy + nudge_of 128) dh.
Proof.
  assert (H : result (create_currency_icon 128) builtin_machine
              = inr (icon_of builtin_machine 128)).
  { apply icon_ok; [in_bounds | vm_compute; reflexivity | intros _; reflexivity]. }
  split; [exact H|].
  destruct (icon_glyphs_placed builtin_machine 128 _ H)
    as (dx & dy & dw & dh & E & _ & G & Cx & Cy & _).
  exists dx, dy, dw, dh.
  split; [exact E|]. split; [exact G|]. split; [exact Cx | exact Cy].
Defined.

(** C4, the part that fails: the 128 pixel icon on a machine without the two
    font files, whose built-in font measures the dollar sign as the box
    (0, 3, 5, 10).  The glyph is drawn from (47, 44) on the front coin,
    whose box is (10, 10, 89, 89): the origin is two rows above where a 5
    by 7 box would be centred, and the ink, on rows 47 to 54, is one row
    below the centre. *)
Lemma icon_dollar_off_center :
  exists img,
    result (create_currency_icon 128) builtin_machine = inr img /\
    nth_error (image_ops img) 2
      = Some (Ellipse (10, 10, 89, 89) (Some PRIMARY_COLOR) None 1) /\
    hd_error (glyphs img) = Some (Text (47, 44) "$" (Some WHITE) DefaultFont) /\
    glyph_extent builtin_machine DefaultFont 35 "$" = (5, 7) /\
    ink_box builtin_machine (Text (47, 44) "$" (Some WHITE) DefaultFont)
      = Some (47, 47, 52, 54) /\
    centered_in 10 89 47 5 /\
    ~ centered_in 10 89 44 7 /\
    ~ centered_in 10 89 47 7.
Proof.
  exists (icon_of builtin_machine 128). split.
  { apply icon_ok; [in_bounds | vm_compute; reflexivity | intros _; reflexivity]. }
  split; [vm_compute; reflexivity|].
  split; [vm_compute; reflexivity|].
  split; [reflexivity|]. split; [reflexivity|].
  unfold centered_in. lia.
Qed.

Lemma icon_font_cases (env : Env) (font_size : Z) :
  match icon_font env font_size with
  | TrueType path s =>
      s = Z.max 8 font_size /\ truetype_ok env path s = true
  | DefaultFont =>
      truetype_ok env "/System/Library/Fonts/Helvetica.ttc" (Z.max 8 font_size) = false /\
      truetype_ok env "/System/Library/Fonts/SFNSMono.ttf" (Z.max 8 font_size) = false
  end /\
  hd_error (log (get_font font_size) env)
    = Some (EvTruetype "/System/Library/Fonts/Helvetica.ttc" (Z.max 8 font_size)).
Proof.
  unfold icon_font, result, log, get_font, try_except, truetype, load_default.
  cbv zeta.
  destruct (truetype_ok env "/System/Library/Fonts/Helvetica.ttc" (Z.max 8 font_size)) eqn:H1;
    [cbn [fst snd]; auto|].
  destruct (truetype_ok env "/System/Library/Fonts/SFNSMono.ttf" (Z.max 8 font_size)) eqn:H2;
    cbn [fst snd app hd_error]; auto.
Qed.

Lemma icon_dimensions_at (env : Env) (size : Z) (img : image) :
  margin_of size = 8 * size / 100 ->
  coin_size_of size = 62 * size / 100 ->
  Z.max 8 (font_size_of size) = Z.max 10 (45 * (62 * size / 100) / 100) ->
  result (create_currency_icon size) env = inr img ->
  exists m c xy f,
    nth_error (image_ops img) 2
      = Some (Ellipse (m, m, m + c, m + c) (Some PRIMARY_COLOR) None 1) /\
    m = 8 * size / 100 /\
    c = 62 * size / 100 /\
    hd_error (log (create_currency_icon size) env)
      = Some (EvTruetype "/System/Library/Fonts/Helvetica.ttc"
                (Z.max 10 (45 * c / 100))) /\
    hd_error (glyphs img) = Some (Text xy "$" (Some WHITE) f) /\
    match f with
    | TrueType path font_size =>
        font_size = Z.max 10 (45 * c / 100) /\ truetype_ok env path font_size = true
    | DefaultFont =>
        truetype_ok env "/System/Library/Fonts/Helvetica.ttc"
          (Z.max 10 (45 * c / 100)) = false /\
        truetype_ok env "/System/Library/Fonts/SFNSMono.ttf"
          (Z.max 10 (45 * c / 100)) = false
    end.
Proof.
  intros Hm Hc Hf H. apply icon_inv in H. destruct H as [(Hs & Ho & _) ->].
  destruct (glyph_op_is_text env size (margin_of size) "$" WHITE)
    as (dx & dy & dw & dh & _ & _ & _ & G).
  exists (margin_of size), (coin_size_of size), (dx, dy),
    (icon_font env (font_size_of size)).
  split; [reflexivity|]. split; [exact Hm|]. split; [exact Hc|].
  pose proof (icon_font_cases env (font_size_of size)) as [F L].
  rewrite Hf in F, L. rewrite Hc.
  split; [rewrite (icon_log env size Hs Ho); exact L|].
  split; [unfold glyphs; cbn [image_ops]; rewrite icon_ops_glyphs, G; reflexivity|].
  exact F.
Qed.

(** C8, as the code has it.  For each configured size the margin is 8% of
    the size and the coin diameter 62% of it, both truncated to whole
    pixels.  The font is asked for at 45% of the coin diameter, truncated,
    and never below 10: that is the size Helvetica is first tried at, and
    the size of the font the glyph is drawn in when one of the two files
    loads.  When neither loads the glyph is drawn in the built-in font,
    which has a size of its own. *)
Theorem icon_dimensions_truncated :
  Forall
    (fun size =>
       forall env img,
         result (create_currency_icon size) env = inr img ->
         exists m c xy f,
           nth_error (image_ops img) 2
             = Some (Ellipse (m, m, m + c, m + c) (Some PRIMARY_COLOR) None 1) /\
           m = 8 * size / 100 /\
           c = 62 * size / 100 /\
           hd_error (log (create_currency_icon size) env)
             = Some (EvTruetype "/System/Library/Fonts/Helvetica.ttc"
                       (Z.max 10 (45 * c / 100))) /\
           hd_error (glyphs img) = Some (Text xy "$" (Some WHITE) f) /\
           match f with
           | TrueType path font_size =>
               font_size = Z.max 10 (45 * c / 100) /\
               truetype_ok env path font_size = true
           | DefaultFont =>
               truetype_ok env "/System/Library/Fonts/Helvetica.ttc"
                 (Z.max 10 (45 * c / 100)) = false /\
               truetype_ok env "/System/Library/Fonts/SFNSMono.ttf"
                 (Z.max 10 (45 * c / 100)) = false
           end)
    SIZES.
Proof.
  unfold SIZES.
  repeat (apply Forall_cons;
          [intros env img; apply icon_dimensions_at; vm_compute; reflexivity |]).
  apply Forall_nil.
Qed.

Lemma icon_dimensions_truncated_witness :
  exists img xy,
    result (create_currency_icon 128) helvetica_machine = inr img /\
    nth_error (image_ops img) 2
      = Some (Ellipse (10, 10, 10 + 79, 10 + 79) (Some PRIMARY_COLOR) None 1) /\
    hd_error (glyphs img)
      = Some (Text xy "$" (Some WHITE)
                (TrueType "/System/Library/Fonts/Helvetica.ttc" 35)).
Proof.
  assert (H : result (create_currency_icon 128) helvetica_machine
              = inr (icon_of helvetica_machine 128)).
  { apply icon_ok; [in_bounds | vm_compute; reflexivity | intros _; reflexivity]. }
  pose proof icon_dimensions_truncated as T.
  rewrite Forall_forall in T.
  destruct (T 128 ltac:(unfold SIZES; cbn [In]; auto 6) helvetica_machine _ H)
    as (m & c & xy & f & E & -> & -> & _ & G & F).
  exists (icon_of helvetica_machine 128), xy.
  split; [exact H|]. split; [exact E|].
  rewrite G. vm_compute in G. injection G as _ <-. reflexivity.
Defined.

(** C8, the part that fails: on the 16 pixel icon the front coin has its
    box at (1, 1, 10, 10), a margin of 1 and a diameter of 9 pixels, where
    8% and 62% of 16 are 1.28 and 9.92. *)
Lemma icon_margin_not_exact_percentage :
  exists img m c,
    result (create_currency_icon 16) bare_machine = inr img /\
    nth_error (image_ops img) 2
      = Some (Ellipse (m, m, m + c, m + c) (Some PRIMARY_COLOR) None 1) /\
    100 * m <> 8 * 16 /\ 100 * c <> 62 * 16.
Proof.
  exists (icon_of bare_machine 16), 1, 9.
  split; [apply icon_ok; [in_bounds | vm_compute; reflexivity | lia]|].
  split; [vm_compute; reflexivity|]. lia.
Qed.

End IconProperties.

(* ================================================================== *)
(** ** create-icons.py: fonts, failures, geometry, the driver *)

Section IconCoverage.
Import CreateIcons.

(** X1.  [get_font] never raises.  It asks for the size given, raised to 8 when
    smaller, first in Helvetica; a TrueType font it returns is one that
    loaded at that size, SFNSMono only after Helvetica failed; the built-in
    font is returned only after both files failed, and is then the last
    thing loaded. *)
Theorem get_font_falls_back_in_order (env : Env) (size : Z) :
  let s := Z.max 8 size in
  let helvetica := "/System/Library/Fonts/Helvetica.ttc"%string in
  let sfmono := "/System/Library/Fonts/SFNSMono.ttf"%string in
  exists f,
    result (get_font size) env = inr f /\
    hd_error (log (get_font size) env) = Some (EvTruetype helvetica s) /\
    match f with
    | TrueType path s' =>
        s' = s /\ 8 <= s' /\ truetype_ok env path s = true /\
        (path = helvetica \/ (path = sfmono /\ truetype_ok env helvetica s = false))
    | DefaultFont =>
        truetype_ok env helvetica s = false /\ truetype_ok env sfmono s = false /\
        log (get_font size) env
          = [EvTruetype helvetica s; EvTruetype sfmono s; EvLoadDefault]
    end.
Proof.
  cbv zeta. unfold result, log, get_font, try_except, truetype, load_default.
  cbv zeta.
  destruct (truetype_ok env "/System/Library/Fonts/Helvetica.ttc" (Z.max 8 size)) eqn:H1.
  { eexists. split; [reflexivity|]. split; [reflexivity|].
    cbn [fst snd]. repeat split; auto; lia. }
  destruct (truetype_ok env "/System/Library/Fonts/SFNSMono.ttf" (Z.max 8 size)) eqn:H2.
  { eexists. split; [reflexivity|]. split; [reflexivity|].
    cbn [fst snd]. repeat split; auto; lia. }
  eexists. split; [reflexivity|]. split; [reflexivity|].
  cbn [fst snd app]. auto.
Qed.

Lemma icon_size_bounds (env : Env) (size : Z) (img : image) :
  result (create_currency_icon size) env = inr img ->
  4 <= size <= INT_MAX /\ img = icon_of env size.
Proof.
  intros H. apply icon_inv in H. destruct H as [(Hs & Ho & _) ->].
  assert (Hs' : 0 <= size <= INT_MAX) by (pose proof width_max_le; lia).
  apply (coins_ordered_from_4 size Hs') in Ho. split; [lia | reflexivity].
Qed.

(** X2.  The float products of [create_currency_icon] ([size * 0.08],
    [size * 0.62], [coin_size * 0.45], ...) truncate to the exact quotients:
    every icon returned is the one drawn with integer arithmetic,
    [percent * size // 100] in each place. *)
Theorem icon_drawn_in_whole_pixels (env : Env) (size : Z) (img : image) :
  result (create_currency_icon size) env = inr img ->
  img = Canvas ModeRGBA size size (RGBA 0 0 0 0) (icon_ops_px env size).
Proof.
  intros H. apply icon_size_bounds in H. destruct H as [Hs ->].
  unfold icon_of. rewrite (icon_ops_whole_pixels env size) by lia. reflexivity.
Qed.

Lemma icon_drawn_in_whole_pixels_witness :
  result (create_currency_icon 128) builtin_machine
  = inr (icon_of builtin_machine 128) /\
  icon_of builtin_machine 128
  = Canvas ModeRGBA 128 128 (RGBA 0 0 0 0) (icon_ops_px builtin_machine 128).
Proof.
  assert (H : result (create_currency_icon 128) builtin_machine
              = inr (icon_of builtin_machine 128)).
  { apply icon_ok; [rewrite width_max_value; lia | vm_compute; reflexivity
                   | intros _; reflexivity]. }
  split; [exact H|].
  exact (icon_drawn_in_whole_pixels builtin_machine 128 _ H).
Defined.

Lemma icon_ops_length (env : Env) (size : Z) :
  Z.of_nat (List.length (icon_ops env size))
  = if 48 <=? size then 10 else if 32 <=? size then 6 else 5.
Proof.
  unfold icon_ops. rewrite !length_app.
  destruct (glyph_op_is_text env size (margin_of size) "$" WHITE)
    as (x & y & w & h & _ & _ & _ & ->).
  destruct (glyph_op_is_text env size (size - margin_of size - coin_size_of size)
              "€" (RGB 220 225 240)) as (x' & y' & w' & h' & _ & _ & _ & ->).
  destruct (48 <=? size) eqn:H48; destruct (32 <=? size) eqn:H32; try reflexivity.
  apply Z.leb_le in H48. apply Z.leb_gt in H32. lia.
Qed.

Lemma get_font_log_length (env : Env) (font_size : Z) :
  (1 <= List.length (log (get_font font_size) env) <= 3)%nat.
Proof.
  unfold log, get_font, try_except, truetype, load_default. cbv zeta.
  destruct (truetype_ok env "/System/Library/Fonts/Helvetica.ttc" (Z.max 8 font_size));
    [cbn; lia|].
  destruct (truetype_ok env "/System/Library/Fonts/SFNSMono.ttf" (Z.max 8 font_size));
    cbn; lia.
Qed.

(** The one font that cannot draw the euro sign is the built-in bitmap
    font. *)
Lemma euro_refused (env : Env) (f : font) :
  draws env f "€" = false <-> f = DefaultFont /\ bitmap_default env = true.
Proof.
  destruct f as [path s|]; cbn [draws].
  - split; [discriminate | intros [C _]; discriminate].
  - change (latin_1 "€") with false. rewrite orb_false_r.
    destruct (bitmap_default env); cbn [negb]; split; auto.
    + intros [_ C]. discriminate.
Qed.

(** X3.  What can stop [create_currency_icon].  An icon that is returned is
    at least 4 pixels wide (below, a box of the coins comes out inverted
    and [ellipse] refuses it); it carries 5 drawing calls below 32 pixels, 6
    from 32 and 10 from 48; one to three font loads were made; and from 32
    pixels on its font is one that draws the euro sign.  For the sizes the
    script is configured with this is the only obstacle: the icon is
    returned unless the size is at least 32 and no font file loaded on a
    machine whose built-in font is the bitmap one, and then the run ends on
    [UnicodeEncodeError]. *)
Theorem icon_stopped_by_euro_only (env : Env) :
  (forall size img,
     result (create_currency_icon size) env = inr img ->
     4 <= size /\
     Z.of_nat (List.length (image_ops img))
       = (if 48 <=? size then 10 else if 32 <=? size then 6 else 5) /\
     (1 <= List.length (log (create_currency_icon size) env) <= 3)%nat /\
     (32 <= size -> draws env (icon_font env (font_size_of size)) "€" = true)) /\
  Forall
    (fun size =>
       if (32 <=? size) && negb (draws env (icon_font env (font_size_of size)) "€")
       then result (create_currency_icon size) env = inl UnicodeEncodeError /\
            icon_font env (font_size_of size) = DefaultFont /\
            bitmap_default env = true
       else result (create_currency_icon size) env = inr (icon_of env size))
    SIZES.
Proof.
  split.
  - intros size img H. pose proof H as H'.
    apply icon_size_bounds in H'. destruct H' as [Hs ->].
    apply icon_inv in H. destruct H as [(Hw & Ho & Hd) _].
    split; [lia|]. split; [apply icon_ops_length|].
    split; [|exact Hd].
    rewrite (icon_log env size Hw Ho). apply get_font_log_length.
  - rewrite Forall_forall. intros size Hin.
    destruct (configured_size size Hin) as [Hw Ho].
    unfold result. rewrite (icon_eq env size Hw Ho). cbn [snd].
    destruct ((32 <=? size) && negb (draws env (icon_font env (font_size_of size)) "€"))
      eqn:E; [|reflexivity].
    apply andb_true_iff in E. destruct E as [_ E].
    apply negb_true_iff in E. apply euro_refused in E.
    split; [reflexivity | exact E].
Qed.

Lemma ellipse_boxes_icon (env : Env) (size : Z) :
  0 <= size <= INT_MAX ->
  ellipse_boxes (icon_of env size)
  = let margin := px 8 size in
    let coin_size := px 62 size in
    let coin2 := size - margin - coin_size in
    let inner_margin := Z.max 1 (px 8 coin_size) in
    [(coin2, coin2, coin2 + coin_size, coin2 + coin_size);
     (coin2 + inner_margin, coin2 + inner_margin,
      coin2 + coin_size - inner_margin, coin2 + coin_size - inner_margin);
     (margin, margin, margin + coin_size, margin + coin_size);
     (margin + inner_margin, margin + inner_margin,
      margin + coin_size - inner_margin, margin + coin_size - inner_margin)].
Proof.
  intros Hs. unfold icon_of. rewrite (icon_ops_whole_pixels env size Hs).
  unfold ellipse_boxes, icon_ops_px. cbv zeta. cbn [image_ops].
  destruct (glyph_extent env _ _ "$") as [w h].
  destruct (glyph_extent env _ _ "€") as [w' h'].
  destruct (32 <=? size); destruct (48 <=? size); reflexivity.
Qed.

(** X4.  The two coins of an icon that is returned.  The boxes of both coins
    and of both inner circles have their corners in order and lie within
    the canvas.  The boxes of the two coins share a pixel at 5 and 7 pixels
    and from 9 pixels on; the coins themselves, the circles inscribed in
    those boxes, meet only at 5 and 10 pixels and from 13 pixels on: at 7,
    9, 11 and 12 pixels the boxes share a corner while the circles stay
    apart. *)
Theorem icon_coins_inside_canvas (env : Env) (size : Z) (img : image) :
  result (create_currency_icon size) env = inr img ->
  exists back back_inner front front_inner,
    ellipse_boxes img = [back; back_inner; front; front_inner] /\
    Forall (box_inside size size) [back; back_inner; front; front_inner] /\
    Forall box_ordered [back; back_inner; front; front_inner] /\
    (boxes_overlap back front <-> size = 5 \/ size = 7 \/ 9 <= size) /\
    (discs_overlap back front <-> size = 5 \/ size = 10 \/ 13 <= size).
Proof.
  intros H. apply icon_size_bounds in H. destruct H as [Hs ->].
  rewrite (ellipse_boxes_icon env size) by lia. cbv zeta.
  do 4 eexists. split; [reflexivity|].
  unfold INT_MAX in Hs.
  unfold box_inside, box_ordered, boxes_overlap, discs_overlap, px.
  repeat rewrite Forall_cons_iff. rewrite !Forall_nil_iff.
  destruct (Z_lt_le_dec size 19) as [Small|Large].
  - assert (C : size = 4 \/ size = 5 \/ size = 6 \/ size = 7 \/ size = 8 \/
                size = 9 \/ size = 10 \/ size = 11 \/ size = 12 \/ size = 13 \/
                size = 14 \/ size = 15 \/ size = 16 \/ size = 17 \/ size = 18) by lia.
    repeat (destruct C as [->|C]; [cbn; lia|]). subst size. cbn. lia.
  - set (m := 8 * size / 100). set (c := 62 * size / 100).
    set (i := 8 * c / 100).
    assert (Hm : 100 * m <= 8 * size < 100 * m + 100)
      by (unfold m; Z.div_mod_to_equations; lia).
    assert (Hc : 100 * c <= 62 * size < 100 * c + 100)
      by (unfold c; Z.div_mod_to_equations; lia).
    assert (Hi : 100 * i <= 8 * c < 100 * i + 100)
      by (unfold i; Z.div_mod_to_equations; lia).
    clearbody m c i.
    assert (D0 : 0 <= size - m - c - m) by lia.
    assert (D1 : 3 * (size - m - c - m) <= 2 * c) by lia.
    split; [repeat split; lia|]. split; [repeat split; lia|].
    split; [split; [lia | intros _; lia]|].
    split; [lia|]. intros _. nia.
Qed.

Lemma icon_coins_inside_canvas_witness :
  result (create_currency_icon 16) bare_machine = inr (icon_of bare_machine 16) /\
  exists back back_inner front front_inner,
    ellipse_boxes (icon_of bare_machine 16)
      = [back; back_inner; front; front_inner] /\
    Forall (box_inside 16 16) [back; back_inner; front; front_inner] /\
    Forall box_ordered [back; back_inner; front; front_inner] /\
    (boxes_overlap back front <-> 16 = 5 \/ 16 = 7 \/ 9 <= 16) /\
    (discs_overlap back front <-> 16 = 5 \/ 16 = 10 \/ 13 <= 16).
Proof.
  assert (H : result (create_currency_icon 16) bare_machine
              = inr (icon_of bare_machine 16)).
  { apply icon_ok; [rewrite width_max_value; lia | vm_compute; reflexivity | lia]. }
  split; [exact H|]. exact (icon_coins_inside_canvas bare_machine 16 _ H).
Defined.

End IconCoverage.

Section IconDriver.
Import CreateIcons.

Lemma saved_app (l1 l2 : list event) : saved (l1 ++ l2) = saved l1 ++ saved l2.
Proof. unfold saved. apply flat_map_app. Qed.

Lemma saved_get_font (env : Env) (font_size : Z) :
  saved (log (get_font font_size) env) = [].
Proof.
  unfold log, get_font, try_except, truetype, load_default. cbv zeta.
  destruct (truetype_ok env "/System/Library/Fonts/Helvetica.ttc" (Z.max 8 font_size));
    [reflexivity|].
  destruct (truetype_ok env "/System/Library/Fonts/SFNSMono.ttf" (Z.max 8 font_size));
    reflexivity.
Qed.

(** Drawing an icon writes no file, whether it returns or raises. *)
Lemma icon_saves_nothing (env : Env) (size : Z) :
  saved (log (create_currency_icon size) env) = [].
Proof.
  unfold create_currency_icon.
  rewrite log_bind_cases, log_Image_new. cbn [app].
  destruct (result (Image_new ModeRGBA (size, size) (RGBA 0 0 0 0)) env) as [e|img0];
    [reflexivity|].
  cbv beta zeta. unfold ImageDraw_ellipse.
  do 4 (rewrite log_bind_cases, log_checked, result_checked; cbn [app];
        match goal with
        | |- context [if ?b then _ else _] => destruct b; [|reflexivity]
        end; cbv beta).
  rewrite log_bind_cases, saved_app, saved_get_font. cbn [app].
  destruct (result (get_font _) env) as [e|f]; [reflexivity|].
  match goal with
  | |- saved (log ?m env) = [] => assert (Q : quiet m) by quiet_run; rewrite Q
  end.
  reflexivity.
Qed.

(** The loop of [main], over any list of sizes: the files written are the
    icons of the first sizes, in order, up to the first icon that cannot be
    drawn or saved. *)
Lemma icons_loop (env : Env) (sizes : list Z) :
  exists n,
    (n <= List.length sizes)%nat /\
    saved (log (for_each sizes
                  (fun (_ : unit) size =>
                     icon <- create_currency_icon size ;;
                     save icon (icon_path size)) tt) env)
    = map (fun size => (icon_path size, icon_of env size)) (firstn n sizes) /\
    (result (for_each sizes
               (fun (_ : unit) size =>
                  icon <- create_currency_icon size ;;
                  save icon (icon_path size)) tt) env = inr tt ->
     n = List.length sizes).
Proof.
  set (body := fun (_ : unit) (size : Z) =>
                 icon <- create_currency_icon size ;; save icon (icon_path size)).
  induction sizes as [|s rest IH].
  - exists 0%nat. repeat split. cbn. lia.
  - destruct IH as (n & Hn & Hl & Hr).
    assert (Step : for_each (s :: rest) body tt env
                   = match create_currency_icon s env with
                     | (l, inl e) => (l, inl e)
                     | (l, inr icon) =>
                         if can_write env (icon_path s)
                         then let '(l', r) := for_each rest body tt env in
                              ((l ++ [EvSave (icon_path s) icon]) ++ l', r)
                         else (l, inl OSError)
                     end).
    { cbn [for_each]. unfold bind at 1. unfold body at 1. cbv beta.
      rewrite then_save_last.
      destruct (create_currency_icon s env) as [l [e|icon]]; [reflexivity|].
      destruct (can_write env (icon_path s)); reflexivity. }
    pose proof (icon_saves_nothing env s) as Q.
    pose proof (icon_size_bounds env s) as B.
    unfold log, result in *. rewrite Step.
    destruct (create_currency_icon s env) as [l [e|icon]]; cbn [fst snd] in *.
    + exists 0%nat. split; [lia|]. split; [exact Q | discriminate].
    + destruct (can_write env (icon_path s)).
      * destruct (for_each rest body tt env) as [l' r']. cbn [fst snd] in *.
        exists (S n). split; [cbn [List.length]; lia|]. split.
        -- rewrite !saved_app, Q, Hl. rewrite (proj2 (B icon eq_refl)). reflexivity.
        -- intros R. cbn [List.length]. f_equal. apply Hr, R.
      * exists 0%nat. split; [lia|]. split; [exact Q | discriminate].
Qed.

(** X5.  The driver saves the icons one by one.  Whatever the machine, the
    files a run has written are the icons of the first configured sizes, in
    the order 16, 32, 48, 96, 128, each under its own name and each the
    icon [create_currency_icon] draws for that size; a run that returns has
    written all five.  A run stops at the first icon that cannot be drawn
    or saved, and keeps what it had written. *)
Theorem icons_saved_one_by_one (env : Env) :
  exists n,
    (n <= 5)%nat /\
    saved (log main env)
    = map (fun size => (icon_path size, icon_of env size)) (firstn n SIZES) /\
    map fst (saved (log main env))
    = firstn n ["../public/icon/16.png"; "../public/icon/32.png";
                "../public/icon/48.png"; "../public/icon/96.png";
                "../public/icon/128.png"]%string /\
    (result main env = inr tt -> n = 5%nat).
Proof.
  destruct (icons_loop env SIZES) as (n & Hn & Hl & Hr).
  unfold main. cbv zeta.
  change (fun (_ : unit) (size : Z) =>
            icon <- create_currency_icon size ;;
            save icon (path_join "../public/icon" (String.append (str size) ".png")))
    with (fun (_ : unit) (size : Z) =>
            icon <- create_currency_icon size ;; save icon (icon_path size)).
  unfold log, result in *. unfold bind at 1 3 5. unfold makedirs.
  destruct (can_write env "../public/icon").
  - destruct (for_each SIZES _ tt env) as [l r]. cbn [fst snd app] in *.
    exists n. split; [exact Hn|].
    assert (E : saved (EvMakedirs "../public/icon" :: l) = saved l) by reflexivity.
    rewrite E, Hl. split; [reflexivity|]. split; [|exact Hr].
    rewrite map_map. cbn [fst].
    rewrite <- (firstn_map icon_path). reflexivity.
  - exists 0%nat. cbn [fst snd]. split; [lia|]. repeat split. discriminate.
Qed.

(** On a machine without the two font files whose built-in font is the
    bitmap one, the run writes [16.png] and stops on the euro sign of the 32
    pixel icon. *)
Lemma icons_saved_one_by_one_witness :
  result main bare_machine = inl UnicodeEncodeError /\
  exists n,
    n = 1%nat /\
    saved (log main bare_machine)
    = map (fun size => (icon_path size, icon_of bare_machine size)) (firstn n SIZES).
Proof.
  split; [vm_compute; reflexivity|].
  destruct (icons_saved_one_by_one bare_machine) as (n & Hn & Hl & Hp & _).
  exists n. split; [|exact Hl].
  assert (L : List.length (map fst (saved (log main bare_machine))) = 1%nat)
    by (vm_compute; reflexivity).
  rewrite Hp, length_firstn in L. cbn [List.length] in L. lia.
Defined.

End IconDriver.

(* ================================================================== *)
(** ** create-store-assets.py: the mock popup, the screenshots, the driver *)

Section StoreBasics.

Lemma well_ordered_true (x0 y0 x1 y1 : Z) :
  x0 <= x1 -> y0 <= y1 -> well_ordered (x0, y0, x1, y1) = true.
Proof. intros Hx Hy. unfold well_ordered. lia. Qed.

Lemma fold_left_size {A} (f : image -> A -> image) (l : list A) (img : image) :
  (forall i a, image_size (f i a) = image_size i) ->
  image_size (fold_left f l img) = image_size img.
Proof.
  intros Hf. revert img. induction l as [|a l IH]; intros img; cbn [fold_left].
  - reflexivity.
  - rewrite IH. apply Hf.
Qed.

Lemma enumerate_currencies :
  enumerate ["USD"; "EUR"; "GBP"; "JPY"; "CAD"]%string
  = [(0, "USD"); (1, "EUR"); (2, "GBP"); (3, "JPY"); (4, "CAD")]%string.
Proof. reflexivity. Qed.

Lemma enumerate_grid :
  enumerate
    [("USD", "$"); ("EUR", "€"); ("GBP", "£"); ("JPY", "¥");
     ("BTC", "₿"); ("ETH", "Ξ"); ("CAD", "C$"); ("AUD", "A$");
     ("CHF", "Fr"); ("CNY", "¥"); ("INR", "₹"); ("KRW", "₩")]%string
  = [(0, ("USD", "$")); (1, ("EUR", "€")); (2, ("GBP", "£")); (3, ("JPY", "¥"));
     (4, ("BTC", "₿")); (5, ("ETH", "Ξ")); (6, ("CAD", "C$")); (7, ("AUD", "A$"));
     (8, ("CHF", "Fr")); (9, ("CNY", "¥")); (10, ("INR", "₹")); (11, ("KRW", "₩"))]%string.
Proof. reflexivity. Qed.

Lemma rev_snoc {A} (l : list A) (a : A) : rev (l ++ [a]) = a :: rev l.
Proof. apply rev_unit. Qed.

Lemma ops_draw (img : image) (op : draw_op) :
  image_ops (draw img op) = image_ops img ++ [op].
Proof. destruct img. reflexivity. Qed.

End StoreBasics.

Ltac size_steps :=
  repeat first
    [ rewrite draw_size
    | rewrite fold_left_size by (intros; apply draw_size) ].

Ltac run_step := cbv beta iota zeta delta [fst snd app].

(** Whether a font draws a text, worked out: a loaded font draws it, the
    built-in font draws it unless it is the bitmap one and the text leaves
    Latin-1. *)
Ltac eval_draws :=
  repeat match goal with
  | |- context [draws ?env (TrueType ?p ?s) ?t] =>
      change (draws env (TrueType p s) t) with true
  | |- context [draws ?env DefaultFont ?t] =>
      let v := eval vm_compute in (latin_1 t) in
      change (draws env DefaultFont t) with (negb (bitmap_default env) || v)
  end;
  rewrite ?orb_true_r, ?orb_false_r.

Ltac settle :=
  repeat (progress (eval_draws;
                    rewrite ?well_ordered_true by (Z.div_mod_to_equations; lia);
                    run_step)).

Ltac run_popup env w h Hw Hh :=
  unfold CreateStoreAssets.create_mock_popup; cbv zeta; rewrite enumerate_currencies;
  cbv beta iota zeta delta
    [bind try_except truetype load_default textbbox ret checked ImageDraw_text
     ImageDraw_rectangle ImageDraw_rounded_rectangle
     CreateStoreAssets.draw_rounded_rectangle
     for_each fst snd app];
  rewrite (Image_new_ok ModeRGBA w h (RGBA 255 255 255 255) env Hw Hh);
  run_step;
  repeat (match goal with
          | |- context [truetype_ok ?e ?p ?s] => destruct (truetype_ok e p s)
          end; run_step);
  settle.

Ltac peel H :=
  let a := fresh "a" in
  apply result_bind_inr in H; destruct H as (a & _ & H); cbv beta in H.

Ltac after_fonts :=
  match goal with
  | |- _ ++ log ?m ?env = _ =>
      let Q := fresh "Q" in
      assert (Q : quiet m) by quiet_run; rewrite Q; apply app_nil_r
  end.

Ltac run_asset :=
  cbv beta iota zeta delta
    [bind try_except truetype load_default ret checked ImageDraw_text
     ImageDraw_ellipse ImageDraw_rounded_rectangle for_each fst snd app].

Ltac split_fonts :=
  unfold fonts_ok; cbn [forallb];
  repeat (match goal with
          | |- context [truetype_ok ?e ?p ?s] => destruct (truetype_ok e p s)
          end; run_step).

Ltac open_main :=
  unfold CreateStoreAssets.main; cbv zeta; rewrite makedirs_then, !then_save, then_save_last.

Section StoreAssets.
Import CreateStoreAssets.

(** The popup on a canvas at least 82 pixels wide, the narrowest on which
    every box of the form has its corners in order. *)
Lemma popup_run (env : Env) (w h : Z) :
  82 <= w <= WIDTH_MAX -> 0 <= h <= INT_MAX ->
  (exists img, result (create_mock_popup (w, h)) env = inr img /\
               image_size img = (w, h)) \/
  (result (create_mock_popup (w, h)) env = inl MetricsError /\
   exists f, text_bbox env f "Save to History" = None).
Proof.
  intros Hw Hh.
  assert (Hw' : 0 <= w <= WIDTH_MAX) by lia.
  unfold result. run_popup env w h Hw' Hh.
  all: match goal with
       | |- context [text_bbox ?e ?f ?t] =>
           destruct (text_bbox e f t) as [[[[bx0 by0] bx1] by1]|] eqn:EB
       end; run_step.
  all: try (right; split; [reflexivity|]; eexists; exact EB).
  all: settle.
  all: left; eexists; split; [reflexivity|]; size_steps; reflexivity.
Qed.

(** A popup that is returned is at least 82 pixels wide: on a narrower
    canvas the box of the first currency selector comes out inverted. *)
Lemma popup_inv (env : Env) (w h : Z) (img : image) :
  result (create_mock_popup (w, h)) env = inr img ->
  82 <= w <= WIDTH_MAX /\ 0 <= h <= INT_MAX.
Proof.
  intros H. unfold create_mock_popup in H.
  apply result_bind_inr in H. destruct H as (img0 & H0 & H).
  apply Image_new_inr in H0. destruct H0 as [[Hw Hh] _].
  apply result_bind_inr in H. destruct H as ([[[fb fr] fs] fl] & _ & H).
  cbv beta iota zeta in H.
  do 8 peel H.
  apply result_bind_inr in H. destruct H as (box & C & _).
  unfold draw_rounded_rectangle, ImageDraw_rounded_rectangle in C.
  apply checked_inr in C. destruct C as [C _].
  unfold well_ordered in C. split; [|exact Hh].
  Z.div_mod_to_equations. lia.
Qed.

(** *** Fonts *)

(** A font block loads its sizes in order up to the first that fails, and
    hands out the fonts it loaded, or the built-in font in every place. *)
Lemma font_block_2 (env : Env) (a b : Z) :
  try_except
    (fa <- truetype HELVETICA a ;;
     fb <- truetype HELVETICA b ;;
     ret (fa, fb))
    (f <- load_default ;; ret (f, f)) env
  = (font_block_log env [a; b],
     inr (if fonts_ok env [a; b]
          then (TrueType HELVETICA a, TrueType HELVETICA b)
          else (DefaultFont, DefaultFont))).
Proof.
  unfold try_except, bind, truetype, load_default, ret, fonts_ok.
  cbn [font_block_log forallb].
  destruct (truetype_ok env HELVETICA a); [|reflexivity].
  destruct (truetype_ok env HELVETICA b); reflexivity.
Qed.

Lemma font_block_3 (env : Env) (a b c : Z) :
  try_except
    (fa <- truetype HELVETICA a ;;
     fb <- truetype HELVETICA b ;;
     fc <- truetype HELVETICA c ;;
     ret (fa, fb, fc))
    (f <- load_default ;; ret (f, f, f)) env
  = (font_block_log env [a; b; c],
     inr (if fonts_ok env [a; b; c]
          then (TrueType HELVETICA a, TrueType HELVETICA b, TrueType HELVETICA c)
          else (DefaultFont, DefaultFont, DefaultFont))).
Proof.
  unfold try_except, bind, truetype, load_default, ret, fonts_ok.
  cbn [font_block_log forallb].
  destruct (truetype_ok env HELVETICA a); [|reflexivity].
  destruct (truetype_ok env HELVETICA b); [|reflexivity].
  destruct (truetype_ok env HELVETICA c); reflexivity.
Qed.

Lemma font_block_4 (env : Env) (a b c d : Z) :
  try_except
    (fa <- truetype HELVETICA a ;;
     fb <- truetype HELVETICA b ;;
     fc <- truetype HELVETICA c ;;
     fd <- truetype HELVETICA d ;;
     ret (fa, fb, fc, fd))
    (f <- load_default ;; ret (f, f, f, f)) env
  = (font_block_log env [a; b; c; d],
     inr (if fonts_ok env [a; b; c; d]
          then (TrueType HELVETICA a, TrueType HELVETICA b,
                TrueType HELVETICA c, TrueType HELVETICA d)
          else (DefaultFont, DefaultFont, DefaultFont, DefaultFont))).
Proof.
  unfold try_except, bind, truetype, load_default, ret, fonts_ok.
  cbn [font_block_log forallb].
  destruct (truetype_ok env HELVETICA a); [|reflexivity].
  destruct (truetype_ok env HELVETICA b); [|reflexivity].
  destruct (truetype_ok env HELVETICA c); [|reflexivity].
  destruct (truetype_ok env HELVETICA d); reflexivity.
Qed.

Lemma bind_log_result {A B} (m : M A) (f : A -> M B) env l a :
  m env = (l, inr a) -> log (bind m f) env = l ++ log (f a) env.
Proof.
  intros E. rewrite log_bind_cases. unfold log at 1, result. rewrite E. reflexivity.
Qed.

(** Once its canvas is made, the popup loads the fonts of its block, and
    nothing else. *)
Lemma popup_log (env : Env) (size : Z * Z) (canvas : image) :
  result (Image_new ModeRGBA size (RGBA 255 255 255 255)) env = inr canvas ->
  log (create_mock_popup size) env = font_block_log env [16; 14; 12; 32].
Proof.
  intros Hc. destruct size as [w h]. unfold create_mock_popup.
  rewrite log_bind_cases, log_Image_new, Hc. cbn [app].
  rewrite (bind_log_result _ _ _ _ _ (font_block_4 env 16 14 12 32)).
  match goal with
  | |- _ ++ log ?m env = _ => assert (Q : quiet m)
  end.
  { unfold draw_rounded_rectangle. quiet_run. }
  rewrite Q. apply app_nil_r.
Qed.

(** *** The screenshots and the promo tile *)

(** The four backgrounds are always drawn. *)
Lemma background_1 (env : Env) :
  create_gradient_background SCREENSHOT_SIZE PRIMARY_GRADIENT_START PRIMARY_GRADIENT_END env
  = ([], inr (Canvas ModeRGB 1280 800 (RGB 0 0 0)
                (map (gradient_line 1280 800 (37, 99, 235) (30, 64, 175)) (range 800)))).
Proof.
  apply gradient_ok;
    first [ split; [lia | vm_compute; discriminate] | unfold INT_MAX; lia | reflexivity ].
Qed.

Lemma background_2 (env : Env) :
  create_gradient_background SCREENSHOT_SIZE "#10b981" "#059669" env
  = ([], inr (Canvas ModeRGB 1280 800 (RGB 0 0 0)
                (map (gradient_line 1280 800 (16, 185, 129) (5, 150, 105)) (range 800)))).
Proof.
  apply gradient_ok;
    first [ split; [lia | vm_compute; discriminate] | unfold INT_MAX; lia | reflexivity ].
Qed.

Lemma background_3 (env : Env) :
  create_gradient_background SCREENSHOT_SIZE "#8b5cf6" "#6d28d9" env
  = ([], inr (Canvas ModeRGB 1280 800 (RGB 0 0 0)
                (map (gradient_line 1280 800 (139, 92, 246) (109, 40, 217)) (range 800)))).
Proof.
  apply gradient_ok;
    first [ split; [lia | vm_compute; discriminate] | unfold INT_MAX; lia | reflexivity ].
Qed.

Lemma background_promo (env : Env) :
  create_gradient_background PROMO_TILE_SIZE PRIMARY_GRADIENT_START PRIMARY_GRADIENT_END env
  = ([], inr (Canvas ModeRGB 440 280 (RGB 0 0 0)
                (map (gradient_line 440 280 (37, 99, 235) (30, 64, 175)) (range 280)))).
Proof.
  apply gradient_ok;
    first [ split; [lia | vm_compute; discriminate] | unfold INT_MAX; lia | reflexivity ].
Qed.

Lemma screenshot_2_log (env : Env) :
  log create_screenshot_2 env = font_block_log env [56; 28; 24].
Proof.
  unfold create_screenshot_2.
  rewrite (bind_log_result _ _ _ _ _ (background_2 env)). cbn [app].
  rewrite (bind_log_result _ _ _ _ _ (font_block_3 env 56 28 24)).
  after_fonts.
Qed.

Lemma screenshot_3_log (env : Env) :
  log create_screenshot_3 env = font_block_log env [56; 28].
Proof.
  unfold create_screenshot_3.
  rewrite (bind_log_result _ _ _ _ _ (background_3 env)). cbn [app].
  rewrite (bind_log_result _ _ _ _ _ (font_block_2 env 56 28)).
  after_fonts.
Qed.

Lemma promo_tile_log (env : Env) :
  log create_promo_tile env = font_block_log env [32; 18; 48].
Proof.
  unfold create_promo_tile.
  rewrite (bind_log_result _ _ _ _ _ (background_promo env)). cbn [app].
  rewrite (bind_log_result _ _ _ _ _ (font_block_3 env 32 18 48)).
  after_fonts.
Qed.

(** The third screenshot is always returned: all it writes is Latin-1. *)
Lemma screenshot_3_run (env : Env) :
  exists img, result create_screenshot_3 env = inr img.
Proof.
  unfold result, create_screenshot_3. run_asset.
  rewrite background_3. run_step.
  split_fonts; settle; eexists; reflexivity.
Qed.

(** The second screenshot and the promo tile write currency symbols that
    are not of Latin-1: they are returned unless they fell back to a
    built-in font that is the bitmap one. *)
Lemma screenshot_2_run (env : Env) :
  if fonts_ok env [56; 28; 24] || negb (bitmap_default env)
  then exists img, result create_screenshot_2 env = inr img
  else result create_screenshot_2 env = inl UnicodeEncodeError.
Proof.
  unfold result, create_screenshot_2. cbv zeta. rewrite enumerate_grid. run_asset.
  rewrite background_2. run_step.
  split_fonts; cbn [andb orb]; settle;
    try (eexists; reflexivity);
    destruct (bitmap_default env); cbn [negb]; settle;
    first [ eexists; reflexivity | reflexivity ].
Qed.

Lemma promo_tile_run (env : Env) :
  if fonts_ok env [32; 18; 48] || negb (bitmap_default env)
  then exists img, result create_promo_tile env = inr img
  else result create_promo_tile env = inl UnicodeEncodeError.
Proof.
  unfold result, create_promo_tile. run_asset.
  rewrite background_promo. run_step.
  split_fonts; cbn [andb orb]; settle;
    try (eexists; reflexivity);
    destruct (bitmap_default env); cbn [negb]; settle;
    first [ eexists; reflexivity | reflexivity ].
Qed.

Lemma screenshot_1_log (env : Env) :
  log create_screenshot_1 env
  = font_block_log env [56; 28] ++ font_block_log env [16; 14; 12; 32].
Proof.
  unfold create_screenshot_1.
  rewrite (bind_log_result _ _ _ _ _ (background_1 env)). cbn [app].
  rewrite (bind_log_result _ _ _ _ _ (font_block_2 env 56 28)). f_equal.
  destruct (if fonts_ok env [56; 28] then _ else _) as [tf sf].
  cbv beta iota zeta. unfold ImageDraw_text.
  do 3 (rewrite log_bind_cases, log_checked, result_checked; cbn [app];
        rewrite latin_1_draws by reflexivity).
  rewrite log_bind_cases.
  rewrite (popup_log env (360, 420) (Canvas ModeRGBA 360 420 (RGBA 255 255 255 255) []))
    by reflexivity.
  destruct (result (create_mock_popup (360, 420)) env) as [e|popup];
    [apply app_nil_r|].
  after_fonts.
Qed.

(** The first screenshot is returned when its popup is, and ends on the
    measurement of the button label when the popup does. *)
Lemma screenshot_1_run (env : Env) :
  (exists img, result create_screenshot_1 env = inr img) \/
  (result create_screenshot_1 env = inl MetricsError /\
   exists f, text_bbox env f "Save to History" = None).
Proof.
  assert (Hw : 82 <= 360 <= WIDTH_MAX) by (split; [lia | vm_compute; discriminate]).
  assert (Hh : 0 <= 420 <= INT_MAX) by (unfold INT_MAX; lia).
  unfold create_screenshot_1.
  rewrite (result_bind _ _ _ _ (f_equal snd (background_1 env))).
  rewrite (result_bind _ _ _ _ (f_equal snd (font_block_2 env 56 28))).
  destruct (if fonts_ok env [56; 28] then _ else _) as [tf sf].
  cbv beta iota zeta. unfold ImageDraw_text, ImageDraw_rounded_rectangle.
  do 3 (rewrite result_bind_checked; rewrite latin_1_draws by reflexivity).
  destruct (popup_run env 360 420 Hw Hh) as [(popup & Ep & _)|[Ep Hf]].
  - left. rewrite (result_bind _ _ _ _ Ep).
    rewrite (result_bind _ _ _ (Canvas ModeRGBA 380 440 (RGBA 0 0 0 0) [])) by reflexivity.
    rewrite result_bind_checked. cbv beta.
    change (well_ordered (10, 10, 370, 430)) with true. cbv iota.
    eexists. reflexivity.
  - right. rewrite (result_bind_inl _ _ _ _ Ep). auto.
Qed.

(** *** What the create functions can raise *)

Lemma gradient_raises (P : exn -> Prop) size sc ec :
  P ValueError -> P OverflowError -> P MemoryError ->
  raises_only P (create_gradient_background size sc ec).
Proof.
  intros Hv Ho Hm. destruct size as [w h]. unfold create_gradient_background.
  assert (Hx : forall s, raises_only P (hex_to_rgb s)).
  { intros s env e H. apply hex_to_rgb_raises in H. subst e. exact Hv. }
  apply raises_only_bind; [apply raises_only_Image_new; assumption|]. intros img.
  apply raises_only_bind; [apply Hx|]. intros [[sr sg] sb].
  apply raises_only_bind; [apply Hx|]. intros [[er eg] eb].
  apply raises_only_ret.
Qed.

Lemma popup_raises (P : exn -> Prop) size :
  P ValueError -> P OverflowError -> P MemoryError ->
  P UnicodeEncodeError -> P MetricsError ->
  raises_only P (create_mock_popup size).
Proof.
  intros Hv Ho Hm Hu Ht. destruct size as [w h].
  unfold create_mock_popup, draw_rounded_rectangle. raises_run; assumption.
Qed.

Lemma create_functions_raise (P : exn -> Prop) :
  P ValueError -> P OverflowError -> P MemoryError ->
  P UnicodeEncodeError -> P MetricsError ->
  raises_only P create_screenshot_1 /\ raises_only P create_screenshot_2 /\
  raises_only P create_screenshot_3 /\ raises_only P create_promo_tile.
Proof.
  intros Hv Ho Hm Hu Ht.
  split; [|split; [|split]].
  - unfold create_screenshot_1. raises_run;
      first [ assumption | apply gradient_raises; assumption
            | apply popup_raises; assumption ].
  - unfold create_screenshot_2. raises_run;
      first [ assumption | apply gradient_raises; assumption ].
  - unfold create_screenshot_3. raises_run;
      first [ assumption | apply gradient_raises; assumption ].
  - unfold create_promo_tile. raises_run;
      first [ assumption | apply gradient_raises; assumption ].
Qed.

(** The one measurement the popup makes outside a [try] is that of the
    button label, in its regular font. *)
Lemma popup_metrics_error (env : Env) (size : Z * Z) :
  result (create_mock_popup size) env = inl MetricsError ->
  text_bbox env
    (if fonts_ok env [16; 14; 12; 32] then TrueType HELVETICA 14 else DefaultFont)
    "Save to History" = None.
Proof.
  destruct size as [w h]. unfold create_mock_popup. intros H.
  apply result_bind_cases in H. destruct H as [H|(img0 & _ & H)].
  { exfalso.
    exact (raises_only_Image_new (fun e => e <> MetricsError) _ _ _
             ltac:(discriminate) ltac:(discriminate) ltac:(discriminate)
             env _ H eq_refl). }
  apply result_bind_cases in H. destruct H as [H|(fonts & Hf & H)].
  { unfold result in H. rewrite font_block_4 in H. discriminate. }
  unfold result in Hf. rewrite font_block_4 in Hf. cbn [snd] in Hf.
  injection Hf as <-.
  unfold draw_rounded_rectangle, ImageDraw_text, ImageDraw_rectangle,
    ImageDraw_rounded_rectangle in H.
  unfold fonts_ok in *. cbn [forallb] in *.
  destruct (truetype_ok env HELVETICA 16 && _); cbv beta iota zeta in H.
  all: repeat (apply result_bind_cases in H;
               destruct H as [H|(? & _ & H)];
               [rewrite result_checked in H;
                match type of H with
                | (if ?b then _ else _) = _ => destruct b; discriminate
                end
               | cbv beta in H]).
  all: apply result_bind_cases in H; destruct H as [H|([[[bx0 by0] bx1] by1] & _ & H)];
    [unfold result, textbbox in H; cbn [snd] in H;
     match type of H with
     | match ?t with _ => _ end = _ => destruct t; [discriminate | reflexivity]
     end
    |].
  all: exfalso; cbv beta iota zeta in H;
    match type of H with
    | result ?m ?en = inl MetricsError =>
        assert (R : raises_only (fun e => e <> MetricsError) m)
          by (raises_run; discriminate);
        exact (R en _ H eq_refl)
    end.
Qed.

(** *** The driver *)

Lemma fallbacks_app (l1 l2 : list event) :
  fallbacks (l1 ++ l2) = fallbacks l1 + fallbacks l2.
Proof. unfold fallbacks. rewrite filter_app, length_app. lia. Qed.

Lemma fallbacks_font_block (env : Env) (sizes : list Z) :
  fallbacks (font_block_log env sizes) = fallback_of env sizes.
Proof.
  unfold fallback_of, fonts_ok.
  induction sizes as [|s rest IH]; [reflexivity|].
  cbn [font_block_log forallb].
  destruct (truetype_ok env HELVETICA s); cbn [andb].
  - rewrite <- IH. reflexivity.
  - reflexivity.
Qed.

Lemma fallbacks_cons (e : event) (l : list event) :
  fallbacks (e :: l) = (if is_fallback e then 1 else 0) + fallbacks l.
Proof. unfold fallbacks. cbn [filter]. destruct (is_fallback e); cbn [List.length]; lia. Qed.

(** A run of the driver that returns has made the directory, then made and
    saved each asset in turn. *)
Lemma main_returned (env : Env) :
  result main env = inr tt ->
  exists s1 s2 s3 promo,
    result create_screenshot_1 env = inr s1 /\
    result create_screenshot_2 env = inr s2 /\
    result create_screenshot_3 env = inr s3 /\
    result create_promo_tile env = inr promo /\
    log main env
    = EvMakedirs "../store-assets"
      :: log create_screenshot_1 env
      ++ EvSave "../store-assets/screenshot-1-converter.png" s1
      :: log create_screenshot_2 env
      ++ EvSave "../store-assets/screenshot-2-currencies.png" s2
      :: log create_screenshot_3 env
      ++ EvSave "../store-assets/screenshot-3-realtime.png" s3
      :: log create_promo_tile env
      ++ [EvSave "../store-assets/promo-tile-440x280.png" promo].
Proof.
  unfold result, log. open_main.
  destruct (can_write env "../store-assets"); [|discriminate].
  destruct (create_screenshot_1 env) as [l1 [e1|s1]]; [discriminate|].
  destruct (can_write env _); [|discriminate].
  destruct (create_screenshot_2 env) as [l2 [e2|s2]]; [discriminate|].
  destruct (can_write env _); [|discriminate].
  destruct (create_screenshot_3 env) as [l3 [e3|s3]]; [discriminate|].
  destruct (can_write env _); [|discriminate].
  destruct (create_promo_tile env) as [l4 [e4|s4]]; [discriminate|].
  destruct (can_write env _); [|discriminate].
  cbn [fst snd]. intros _. exists s1, s2, s3, s4. repeat split.
Qed.

(** On a machine that lets every file be written, the driver returns once
    each asset is made. *)
Lemma main_returns (env : Env) (s1 s2 s3 promo : image) :
  (forall path, can_write env path = true) ->
  result create_screenshot_1 env = inr s1 ->
  result create_screenshot_2 env = inr s2 ->
  result create_screenshot_3 env = inr s3 ->
  result create_promo_tile env = inr promo ->
  result main env = inr tt.
Proof.
  unfold result. open_main. intros W.
  rewrite !W.
  destruct (create_screenshot_1 env) as [l1 r1].
  destruct (create_screenshot_2 env) as [l2 r2].
  destruct (create_screenshot_3 env) as [l3 r3].
  destruct (create_promo_tile env) as [l4 r4].
  cbn [snd]. intros -> -> -> ->. reflexivity.
Qed.

Lemma main_fallbacks (env : Env) :
  result main env = inr tt ->
  fallbacks (log main env)
  = fallback_of env [56; 28] + fallback_of env [16; 14; 12; 32]
    + fallback_of env [56; 28; 24] + fallback_of env [56; 28]
    + fallback_of env [32; 18; 48].
Proof.
  intros H. destruct (main_returned env H) as (s1 & s2 & s3 & p & _ & _ & _ & _ & ->).
  rewrite screenshot_1_log, screenshot_2_log, screenshot_3_log, promo_tile_log.
  repeat (rewrite ?fallbacks_app, ?fallbacks_cons).
  cbn [is_fallback]. rewrite !fallbacks_font_block.
  change (fallbacks []) with 0. lia.
Qed.

(** C2, as the code has it.  A font that fails to load is replaced by the
    built-in font at five places, one in each of [create_mock_popup],
    [create_screenshot_1], [create_screenshot_2], [create_screenshot_3] and
    [create_promo_tile]; each place falls back exactly when one of its own
    loads fails, whatever happens at the others, and a run of the driver
    that returns has passed all five.  The exception of the load itself
    never leaves a create function.  The font put in its place can make
    one raise: the second screenshot and the promo tile end on
    [UnicodeEncodeError] exactly when they fell back to a built-in font that
    is the bitmap one, and the popup ends on the measurement of its button
    label only when the font it measures in, the built-in one after a
    fallback, cannot be measured. *)
Theorem font_fallback_at_each_site (env : Env) :
  ((forall size, result (create_mock_popup size) env <> inl OSError) /\
   result create_screenshot_1 env <> inl OSError /\
   result create_screenshot_2 env <> inl OSError /\
   result create_screenshot_3 env <> inl OSError /\
   result create_promo_tile env <> inl OSError) /\
  ((forall size canvas,
      result (Image_new ModeRGBA size (RGBA 255 255 255 255)) env = inr canvas ->
      fallbacks (log (create_mock_popup size) env)
        = fallback_of env [16; 14; 12; 32]) /\
   fallbacks (log create_screenshot_1 env)
     = fallback_of env [56; 28] + fallback_of env [16; 14; 12; 32] /\
   fallbacks (log create_screenshot_2 env) = fallback_of env [56; 28; 24] /\
   fallbacks (log create_screenshot_3 env) = fallback_of env [56; 28] /\
   fallbacks (log create_promo_tile env) = fallback_of env [32; 18; 48]) /\
  (result main env = inr tt ->
   fallbacks (log main env)
     = fallback_of env [56; 28] + fallback_of env [16; 14; 12; 32]
       + fallback_of env [56; 28; 24] + fallback_of env [56; 28]
       + fallback_of env [32; 18; 48]) /\
  ((result create_screenshot_2 env = inl UnicodeEncodeError <->
    fonts_ok env [56; 28; 24] = false /\ bitmap_default env = true) /\
   (result create_promo_tile env = inl UnicodeEncodeError <->
    fonts_ok env [32; 18; 48] = false /\ bitmap_default env = true) /\
   (forall size,
      result (create_mock_popup size) env = inl MetricsError ->
      text_bbox env
        (if fonts_ok env [16; 14; 12; 32] then TrueType HELVETICA 14 else DefaultFont)
        "Save to History" = None)).
Proof.
  destruct (create_functions_raise (fun e => e <> OSError))
    as (R1 & R2 & R3 & R4); try discriminate.
  split; [|split; [|split]].
  - split.
    { intros size H.
      exact (popup_raises (fun e => e <> OSError) size
               ltac:(discriminate) ltac:(discriminate) ltac:(discriminate)
               ltac:(discriminate) ltac:(discriminate) env _ H eq_refl). }
    split; [intros H; exact (R1 env _ H eq_refl)|].
    split; [intros H; exact (R2 env _ H eq_refl)|].
    split; [intros H; exact (R3 env _ H eq_refl)|].
    intros H; exact (R4 env _ H eq_refl).
  - split.
    { intros size canvas Hc. rewrite (popup_log env size canvas Hc).
      apply fallbacks_font_block. }
    rewrite screenshot_1_log, screenshot_2_log, screenshot_3_log, promo_tile_log.
    rewrite fallbacks_app, !fallbacks_font_block. auto.
  - apply main_fallbacks.
  - split; [|split].
    + pose proof (screenshot_2_run env) as R.
      destruct (fonts_ok env [56; 28; 24]); destruct (bitmap_default env);
        cbn [orb negb] in R.
      all: try (destruct R as (img & ->)); try rewrite R.
      all: split; [intros C | intros [C1 C2]]; try discriminate; auto.
    + pose proof (promo_tile_run env) as R.
      destruct (fonts_ok env [32; 18; 48]); destruct (bitmap_default env);
        cbn [orb negb] in R.
      all: try (destruct R as (img & ->)); try rewrite R.
      all: split; [intros C | intros [C1 C2]]; try discriminate; auto.
    + intros size. apply popup_metrics_error.
Qed.

Lemma font_fallback_at_each_site_witness :
  result main fontless_machine = inr tt /\
  fallbacks (log main fontless_machine) = 1 + 1 + 1 + 1 + 1.
Proof.
  assert (H : result main fontless_machine = inr tt).
  { destruct (screenshot_1_run fontless_machine) as [(s1 & E1)|[_ (f & Hf)]];
      [|discriminate Hf].
    pose proof (screenshot_2_run fontless_machine) as (s2 & E2).
    destruct (screenshot_3_run fontless_machine) as (s3 & E3).
    pose proof (promo_tile_run fontless_machine) as (p & E4).
    exact (main_returns fontless_machine s1 s2 s3 p (fun _ => eq_refl) E1 E2 E3 E4). }
  split; [exact H|].
  exact (proj1 (proj2 (proj2 (font_fallback_at_each_site fontless_machine))) H).
Defined.

(** C2, the parts that fail.  With no font file on a machine whose built-in
    font draws every text, one run of the driver falls back to the built-in
    font five times, not four.  And a font load that fails does bring an
    exception: on a machine whose built-in font is the bitmap one, the
    second screenshot and the popup are returned when the file of Helvetica
    is there, and without it they end on [UnicodeEncodeError] and on the
    measurement of the button label. *)
Lemma font_fallback_sites_are_not_four :
  (result main fontless_machine = inr tt /\
   fallbacks (log main fontless_machine) = 5 /\
   fallbacks (log main fontless_machine) <> 4) /\
  ((exists img, result create_screenshot_2 helvetica_machine = inr img) /\
   result create_screenshot_2 bare_machine = inl UnicodeEncodeError) /\
  ((exists img, result (create_mock_popup (360, 400)) helvetica_machine = inr img) /\
   result (create_mock_popup (360, 400)) bare_machine = inl MetricsError).
Proof.
  split; [|split].
  - assert (H : result main fontless_machine = inr tt).
    { destruct (screenshot_1_run fontless_machine) as [(s1 & E1)|[_ (f & Hf)]];
        [|discriminate Hf].
      pose proof (screenshot_2_run fontless_machine) as (s2 & E2).
      destruct (screenshot_3_run fontless_machine) as (s3 & E3).
      pose proof (promo_tile_run fontless_machine) as (p & E4).
      exact (main_returns fontless_machine s1 s2 s3 p (fun _ => eq_refl) E1 E2 E3 E4). }
    split; [exact H|].
    rewrite (main_fallbacks fontless_machine H). split; [reflexivity | discriminate].
  - split.
    + exact (screenshot_2_run helvetica_machine).
    + exact (screenshot_2_run bare_machine).
  - assert (Hw : 82 <= 360 <= WIDTH_MAX) by (split; [lia | vm_compute; discriminate]).
    assert (Hh : 0 <= 400 <= INT_MAX) by (unfold INT_MAX; lia).
    split.
    + destruct (popup_run helvetica_machine 360 400 Hw Hh) as [(img & E & _)|[E _]].
      * exists img. exact E.
      * apply popup_metrics_error in E. discriminate E.
    + vm_compute. reflexivity.
Qed.

(** C6.  Whatever is drawn into it, the canvas [create_mock_popup] returns
    has the width and height asked for. *)
Theorem mock_popup_has_requested_size (env : Env) (width height : Z) (img : image) :
  result (create_mock_popup (width, height)) env = inr img ->
  image_size img = (width, height).
Proof.
  intros H. destruct (popup_inv env width height img H) as [Hw Hh].
  destruct (popup_run env width height Hw Hh) as [(img' & E & S)|[E _]];
    rewrite E in H; [|discriminate].
  injection H as <-. exact S.
Qed.

(** The popup of the default size, on a machine without font files whose
    built-in font can be measured. *)
Lemma mock_popup_has_requested_size_witness :
  exists img,
    result (create_mock_popup (360, 400)) fontless_machine = inr img /\
    image_size img = (360, 400).
Proof.
  assert (Hw : 82 <= 360 <= WIDTH_MAX) by (split; [lia | vm_compute; discriminate]).
  assert (Hh : 0 <= 400 <= INT_MAX) by (unfold INT_MAX; lia).
  destruct (popup_run fontless_machine 360 400 Hw Hh) as [(img & E & _)|[_ (f & Hf)]];
    [|discriminate Hf].
  exists img. split; [exact E|].
  exact (mock_popup_has_requested_size fontless_machine 360 400 img E).
Defined.

(** C9.  [draw_rounded_rectangle] never reads its [shadow] argument: with
    the same target, box, radius and fill it draws the same thing whatever
    the flag. *)
Theorem rounded_rectangle_ignores_shadow
    (img : image) (xy : box) (radius : Z) (fill : option color)
    (shadow shadow' : bool) :
  draw_rounded_rectangle img xy radius fill shadow
  = draw_rounded_rectangle img xy radius fill shadow'.
Proof. unfold draw_rounded_rectangle. destruct xy as [[[x1 y1] x2] y2]. reflexivity. Qed.

End StoreAssets.


(* ================================================================== *)
(** ** create-store-assets.py: the quick-access row of the mock popup *)

Section PopupCoverage.
Import CreateStoreAssets.

Lemma popup_tail (env : Env) (w h : Z) :
  82 <= w <= WIDTH_MAX -> 0 <= h <= INT_MAX ->
  match result (create_mock_popup (w, h)) env with
  | inr img => exists f, last_calls 10 img = quick_access_chips f
  | inl _ => True
  end.
Proof.
  intros Hw Hh.
  assert (Hw' : 0 <= w <= WIDTH_MAX) by lia.
  unfold result. run_popup env w h Hw' Hh.
  all: match goal with
       | |- context [text_bbox ?e ?f ?t] =>
           destruct (text_bbox e f t) as [[[[bx0 by0] bx1] by1]|]
       end; run_step; [|exact I].
  all: settle.
  all: eexists; unfold last_calls; do 10 rewrite ops_draw; rewrite !rev_snoc;
       cbn [firstn rev app]; unfold quick_access_chips;
       rewrite enumerate_currencies; cbn [flat_map app]; reflexivity.
Qed.

Lemma popup_last_calls (env : Env) (w h : Z) (img : image) :
  result (create_mock_popup (w, h)) env = inr img ->
  exists f, last_calls 10 img = quick_access_chips f.
Proof.
  intros H.
  destruct (popup_inv env w h img H) as [Hw Hh].
  pose proof (popup_tail env w h Hw Hh) as T. rewrite H in T. exact T.
Qed.

Lemma chips_start_below (f : font) (h : Z) :
  h <= 430 -> Forall (starts_below h) (quick_access_chips f).
Proof.
  intros Hle.
  unfold quick_access_chips. rewrite enumerate_currencies. cbn [flat_map app].
  repeat (apply Forall_cons; [eexists; split; [reflexivity | lia] |]).
  apply Forall_nil.
Qed.

(** X12.  The quick-access row of the mock popup is laid out from the top of the
    canvas, not to its height: whatever the size asked for, the last ten
    drawing calls are the five chips with their labels, on rows 430 to 458.
    On a canvas of 430 rows or fewer, as the 360x420 popup of the first
    screenshot, every one of them starts below the bottom edge. *)
Theorem popup_quick_access_below_canvas (env : Env) (w h : Z) (img : image) :
  result (create_mock_popup (w, h)) env = inr img ->
  exists f,
    last_calls 10 img = quick_access_chips f /\
    (h <= 430 -> Forall (starts_below h) (last_calls 10 img)).
Proof.
  intros H.
  destruct (popup_last_calls env w h img H) as (f & T).
  exists f. split; [exact T|].
  intros Hle. rewrite T. apply chips_start_below, Hle.
Qed.

Lemma popup_quick_access_below_canvas_witness :
  exists img f,
    result (create_mock_popup (360, 420)) fontless_machine = inr img /\
    last_calls 10 img = quick_access_chips f /\
    Forall (starts_below 420) (last_calls 10 img).
Proof.
  assert (Hw : 82 <= 360 <= WIDTH_MAX) by (vm_compute; split; discriminate).
  assert (Hh : 0 <= 420 <= INT_MAX) by (unfold INT_MAX; lia).
  destruct (popup_run fontless_machine 360 420 Hw Hh) as [(img & H & _)|[_ (f & Hf)]];
    [|discriminate Hf].
  destruct (popup_quick_access_below_canvas fontless_machine 360 420 img H)
    as (f & T & B).
  exists img, f. split; [exact H|]. split; [exact T|]. apply B. lia.
Defined.

End PopupCoverage.

(* ================================================================== *)
(** ** create-store-assets.py: the screenshots and the driver, composed *)

Section ScreenshotCoverage.
Import CreateStoreAssets.

Lemma last_two_calls (base : image) (a b : draw_op) :
  last_calls 2 (draw (draw base a) b) = [a; b].
Proof.
  destruct base as [m w h bg ops]. unfold last_calls, draw. cbn [image_ops].
  rewrite !rev_snoc. reflexivity.
Qed.

Lemma gradient_size env size sc ec img :
  result (create_gradient_background size sc ec) env = inr img ->
  image_size img = size.
Proof.
  destruct size as [w h]. intros H. apply gradient_inv in H.
  destruct H as (s & e & _ & _ & _ & ->). reflexivity.
Qed.

Lemma screenshot_1_inv (env : Env) (img : image) :
  result create_screenshot_1 env = inr img ->
  exists base popup,
    result (create_mock_popup (360, 420)) env = inr popup /\
    image_size base = (1280, 800) /\
    img = draw (draw base
                  (Paste (draw (draw (Canvas ModeRGBA 380 440 (RGBA 0 0 0 0) [])
                                  (RoundedRectangle (10, 10, 370, 430) 16
                                     (Some (RGBA 0 0 0 80))))
                            (Blur 15))
                     (780 - 10, 180 - 10)
                     (draw (draw (Canvas ModeRGBA 380 440 (RGBA 0 0 0 0) [])
                              (RoundedRectangle (10, 10, 370, 430) 16
                                 (Some (RGBA 0 0 0 80))))
                        (Blur 15))))
            (Paste popup (780, 180) popup).
Proof.
  unfold create_screenshot_1. intros H.
  apply result_bind_inr in H. destruct H as (grad & Hg & H).
  apply gradient_size in Hg.
  apply result_bind_inr in H. destruct H as ([tf sf] & _ & H).
  cbv beta iota zeta in H.
  apply result_bind_inr in H. destruct H as (i1 & C1 & H).
  apply checked_inr in C1. destruct C1 as [_ ->].
  apply result_bind_inr in H. destruct H as (i2 & C2 & H).
  apply checked_inr in C2. destruct C2 as [_ ->].
  apply result_bind_inr in H. destruct H as (i3 & C3 & H).
  apply checked_inr in C3. destruct C3 as [_ ->].
  apply result_bind_inr in H. destruct H as (popup & Hp & H).
  apply result_bind_inr in H. destruct H as (shadow & Hsh & H).
  apply Image_new_inr in Hsh. destruct Hsh as [_ ->].
  apply result_bind_inr in H. destruct H as (shadow' & C4 & H).
  apply checked_inr in C4. destruct C4 as [_ ->].
  apply result_ret_inv in H. subst img.
  eexists. exists popup. split; [exact Hp|]. split; [|reflexivity].
  size_steps. exact Hg.
Qed.

(** X13.  The first screenshot, composed.  Its last two drawing calls paste the
    blurred shadow, 380 by 440 at (770, 170), and over it the mock popup,
    360 by 420 at (780, 180); both lie within the 1280 by 800 canvas.  The
    popup is the one [create_mock_popup] returns for (360, 420), so its
    quick-access chips all start below its last row. *)
Theorem screenshot_1_pastes_popup (env : Env) (img : image) :
  result create_screenshot_1 env = inr img ->
  exists shadow popup f,
    last_calls 2 img = [Paste shadow (770, 170) shadow; Paste popup (780, 180) popup] /\
    result (create_mock_popup (360, 420)) env = inr popup /\
    image_size img = (1280, 800) /\
    image_size shadow = (380, 440) /\ box_inside 1280 800 (770, 170, 770 + 380, 170 + 440) /\
    image_size popup = (360, 420) /\ box_inside 1280 800 (780, 180, 780 + 360, 180 + 420) /\
    last_calls 10 popup = quick_access_chips f /\
    Forall (starts_below 420) (last_calls 10 popup).
Proof.
  intros H. apply screenshot_1_inv in H.
  destruct H as (base & popup & Hp & Hb & ->).
  assert (Hw : 82 <= 360 <= WIDTH_MAX) by (vm_compute; split; discriminate).
  assert (Hh : 0 <= 420 <= INT_MAX) by (unfold INT_MAX; lia).
  destruct (popup_run env 360 420 Hw Hh) as [(p & Ep & Sp)|[Ep _]];
    [|rewrite Ep in Hp; discriminate].
  rewrite Ep in Hp. injection Hp as <-.
  destruct (popup_last_calls env 360 420 p Ep) as (f & T).
  eexists. exists p, f.
  split; [apply last_two_calls|]. split; [exact Ep|].
  split; [size_steps; exact Hb|]. split; [reflexivity|].
  split; [unfold box_inside; lia|]. split; [exact Sp|].
  split; [unfold box_inside; lia|]. split; [exact T|].
  rewrite T. apply chips_start_below. lia.
Qed.

Lemma screenshot_1_pastes_popup_witness :
  exists img shadow popup,
    result create_screenshot_1 fontless_machine = inr img /\
    last_calls 2 img = [Paste shadow (770, 170) shadow; Paste popup (780, 180) popup] /\
    image_size img = (1280, 800) /\ image_size popup = (360, 420).
Proof.
  destruct (screenshot_1_run fontless_machine) as [(img & H)|[_ (f & Hf)]];
    [|discriminate Hf].
  destruct (screenshot_1_pastes_popup fontless_machine img H)
    as (shadow & popup & f & L & _ & Si & _ & _ & Sp & _).
  exists img, shadow, popup. auto.
Defined.

Lemma rounded_boxes_gradient width height s e (rows : list Z) :
  flat_map (fun op => match op with RoundedRectangle b _ _ => [b] | _ => [] end)
    (map (gradient_line width height s e) rows) = [].
Proof.
  destruct s as [[sr sg] sb], e as [[er eg] eb].
  induction rows as [|y rows IH]; [reflexivity|].
  cbn [map flat_map]. rewrite IH. unfold gradient_line. reflexivity.
Qed.

Lemma screenshot_2_tail (env : Env) :
  match result create_screenshot_2 env with
  | inr img =>
      image_size img = (1280, 800) /\
      rounded_boxes img
      = [(720, 180, 840, 260); (856, 180, 976, 260); (992, 180, 1112, 260);
         (1128, 180, 1248, 260);
         (720, 276, 840, 356); (856, 276, 976, 356); (992, 276, 1112, 356);
         (1128, 276, 1248, 356);
         (720, 372, 840, 452); (856, 372, 976, 452); (992, 372, 1112, 452);
         (1128, 372, 1248, 452)]
  | inl _ => True
  end.
Proof.
  unfold result, create_screenshot_2. cbv zeta. rewrite enumerate_grid. run_asset.
  rewrite background_2. run_step.
  split_fonts; cbn [andb orb]; settle;
    try (destruct (bitmap_default env); cbn [negb]; settle; try exact I).
  all: split; [size_steps; reflexivity|].
  all: unfold rounded_boxes; repeat rewrite ops_draw; cbn [image_ops];
       rewrite !flat_map_app, rounded_boxes_gradient; reflexivity.
Qed.

Lemma screenshot_2_boxes (env : Env) (img : image) :
  result create_screenshot_2 env = inr img ->
  image_size img = (1280, 800) /\
  rounded_boxes img
  = [(720, 180, 840, 260); (856, 180, 976, 260); (992, 180, 1112, 260);
     (1128, 180, 1248, 260);
     (720, 276, 840, 356); (856, 276, 976, 356); (992, 276, 1112, 356);
     (1128, 276, 1248, 356);
     (720, 372, 840, 452); (856, 372, 976, 452); (992, 372, 1112, 452);
     (1128, 372, 1248, 452)].
Proof.
  intros H. pose proof (screenshot_2_tail env) as T. rewrite H in T. exact T.
Qed.

(** X14.  The currency grid of the second screenshot, when the screenshot is
    returned: twelve cards of 120 by 80 pixels, in three rows of four, all
    within the right half of the 1280 by 800 canvas, no two of them sharing
    a pixel. *)
Theorem screenshot_2_grid_fits (env : Env) (img : image) :
  result create_screenshot_2 env = inr img ->
  image_size img = (1280, 800) /\
  List.length (rounded_boxes img) = 12%nat /\
  Forall (fun '(x0, y0, x1, y1) =>
            x1 - x0 = 120 /\ y1 - y0 = 80 /\ 640 <= x0 /\
            box_inside 1280 800 (x0, y0, x1, y1))
    (rounded_boxes img) /\
  pairwise_apart (rounded_boxes img).
Proof.
  intros H.
  destruct (screenshot_2_boxes env img H) as [Hs ->].
  split; [exact Hs|]. split; [reflexivity|]. split.
  - repeat (apply Forall_cons; [unfold box_inside; lia|]). apply Forall_nil.
  - cbn [pairwise_apart].
    repeat (split; [repeat (apply Forall_cons; [unfold boxes_overlap; lia|]);
                    apply Forall_nil |]).
    exact I.
Qed.

Lemma screenshot_2_grid_fits_witness :
  exists img,
    result create_screenshot_2 fontless_machine = inr img /\
    image_size img = (1280, 800) /\
    List.length (rounded_boxes img) = 12%nat /\
    pairwise_apart (rounded_boxes img).
Proof.
  pose proof (screenshot_2_run fontless_machine) as R.
  change (fonts_ok fontless_machine [56; 28; 24] || negb (bitmap_default fontless_machine))
    with true in R.
  cbv iota in R. destruct R as (img & H).
  destruct (screenshot_2_grid_fits fontless_machine img H) as (Hs & Hl & _ & Hp).
  exists img. auto.
Defined.

Ltac peel_checked H :=
  let i := fresh "i" in
  let C := fresh "C" in
  apply result_bind_inr in H; destruct H as (i & C & H);
  apply checked_inr in C; destruct C as [_ ->].

Lemma screenshot_sizes (env : Env) :
  (forall img, result create_screenshot_1 env = inr img -> image_size img = (1280, 800)) /\
  (forall img, result create_screenshot_2 env = inr img -> image_size img = (1280, 800)) /\
  (forall img, result create_screenshot_3 env = inr img -> image_size img = (1280, 800)) /\
  (forall img, result create_promo_tile env = inr img -> image_size img = (440, 280)).
Proof.
  split; [|split; [|split]].
  - intros img H. apply screenshot_1_inv in H.
    destruct H as (base & popup & _ & Hb & ->). size_steps. exact Hb.
  - intros img H. exact (proj1 (screenshot_2_boxes env img H)).
  - unfold create_screenshot_3. intros img H.
    apply result_bind_inr in H. destruct H as (grad & Hg & H).
    apply gradient_size in Hg.
    apply result_bind_inr in H. destruct H as ([tf sf] & _ & H).
    cbv beta iota zeta in H.
    do 5 peel_checked H.
    apply result_ret_inv in H. subst img.
    size_steps. exact Hg.
  - unfold create_promo_tile. intros img H.
    apply result_bind_inr in H. destruct H as (grad & Hg & H).
    apply gradient_size in Hg.
    apply result_bind_inr in H. destruct H as ([[tf sf] yf] & _ & H).
    cbv beta iota zeta in H.
    do 6 peel_checked H.
    apply result_ret_inv in H. subst img.
    size_steps. exact Hg.
Qed.

Lemma saved_font_block (env : Env) (sizes : list Z) :
  saved (font_block_log env sizes) = [].
Proof.
  induction sizes as [|s rest IH]; [reflexivity|].
  cbn [font_block_log]. destruct (truetype_ok env HELVETICA s); [exact IH | reflexivity].
Qed.

Lemma assets_save_nothing (env : Env) :
  saved (log create_screenshot_1 env) = [] /\
  saved (log create_screenshot_2 env) = [] /\
  saved (log create_screenshot_3 env) = [] /\
  saved (log create_promo_tile env) = [].
Proof.
  rewrite screenshot_1_log, screenshot_2_log, screenshot_3_log, promo_tile_log.
  rewrite saved_app, !saved_font_block. auto.
Qed.

Lemma saved_cons_save (path : string) (img : image) (l : list event) :
  saved (EvSave path img :: l) = (path, img) :: saved l.
Proof. reflexivity. Qed.

Lemma saved_cons_makedirs (dir : string) (l : list event) :
  saved (EvMakedirs dir :: l) = saved l.
Proof. reflexivity. Qed.

(** X15.  The store driver saves each asset before it makes the next, so a
    run leaves behind the files it reached, in the order of the script and
    with the sizes the store asks for (three screenshots of 1280 by 800,
    the promo tile of 440 by 280): the files written are the first [n] of
    the four, all four when the run returns.  A run that stops keeps what
    it saved: where every file can be written and the first screenshot is
    made, a second screenshot that falls back to the bitmap built-in font
    ends the run on [UnicodeEncodeError] with the first file alone
    written. *)
Theorem store_files_saved_in_order (env : Env) :
  exists n : nat,
    (n <= 4)%nat /\
    file_sizes (saved (log main env))
    = firstn n
        [("../store-assets/screenshot-1-converter.png", (1280, 800));
         ("../store-assets/screenshot-2-currencies.png", (1280, 800));
         ("../store-assets/screenshot-3-realtime.png", (1280, 800));
         ("../store-assets/promo-tile-440x280.png", (440, 280))]%string /\
    (result main env = inr tt -> n = 4%nat) /\
    ((forall path, can_write env path = true) ->
     (exists s1, result create_screenshot_1 env = inr s1) ->
     fonts_ok env [56; 28; 24] || negb (bitmap_default env) = false ->
     n = 1%nat /\ result main env = inl UnicodeEncodeError).
Proof.
  destruct (screenshot_sizes env) as (S1 & S2 & S3 & S4).
  destruct (assets_save_nothing env) as (N1 & N2 & N3 & N4).
  pose proof (screenshot_2_run env) as R2.
  unfold result, log in *. open_main.
  change (path_join "../store-assets" "screenshot-1-converter.png")
    with "../store-assets/screenshot-1-converter.png"%string.
  change (path_join "../store-assets" "screenshot-2-currencies.png")
    with "../store-assets/screenshot-2-currencies.png"%string.
  change (path_join "../store-assets" "screenshot-3-realtime.png")
    with "../store-assets/screenshot-3-realtime.png"%string.
  change (path_join "../store-assets" "promo-tile-440x280.png")
    with "../store-assets/promo-tile-440x280.png"%string.
  destruct (create_screenshot_1 env) as [l1 r1].
  destruct (create_screenshot_2 env) as [l2 r2].
  destruct (create_screenshot_3 env) as [l3 r3].
  destruct (create_promo_tile env) as [l4 r4].
  cbn [fst snd] in *.
  destruct (can_write env "../store-assets") eqn:W0.
  2:{ exists 0%nat. cbn [fst snd]. split; [lia|]. split; [reflexivity|].
      split; [discriminate|]. intros W. rewrite W in W0. discriminate. }
  destruct r1 as [e1|s1].
  { exists 0%nat. cbn [fst snd]. rewrite saved_cons_makedirs, N1.
    split; [lia|]. split; [reflexivity|]. split; [discriminate|].
    intros _ [s1 E]. discriminate E. }
  specialize (S1 s1 eq_refl).
  destruct (can_write env "../store-assets/screenshot-1-converter.png") eqn:W1.
  2:{ exists 0%nat. cbn [fst snd]. rewrite saved_cons_makedirs, N1.
      split; [lia|]. split; [reflexivity|]. split; [discriminate|].
      intros W. rewrite W in W1. discriminate. }
  destruct r2 as [e2|s2].
  { exists 1%nat. cbn [fst snd].
    rewrite saved_cons_makedirs, saved_app, saved_cons_save, N1, N2.
    cbn [app file_sizes map firstn]. rewrite S1.
    split; [lia|]. split; [reflexivity|]. split; [discriminate|].
    intros _ _ F. rewrite F in R2. injection R2 as ->. auto. }
  specialize (S2 s2 eq_refl).
  assert (R2' : fonts_ok env [56; 28; 24] || negb (bitmap_default env) = true).
  { destruct (fonts_ok env [56; 28; 24] || negb (bitmap_default env)); [reflexivity|].
    discriminate R2. }
  clear R2.
  destruct (can_write env "../store-assets/screenshot-2-currencies.png") eqn:W2.
  2:{ exists 1%nat. cbn [fst snd].
      rewrite saved_cons_makedirs, saved_app, saved_cons_save, N1, N2.
      cbn [app file_sizes map firstn]. rewrite S1.
      split; [lia|]. split; [reflexivity|]. split; [discriminate|].
      intros W. rewrite W in W2. discriminate. }
  destruct r3 as [e3|s3].
  { exists 2%nat. cbn [fst snd].
    rewrite saved_cons_makedirs, saved_app, saved_cons_save, saved_app,
      saved_cons_save, N1, N2, N3.
    cbn [app file_sizes map firstn]. rewrite S1, S2.
    split; [lia|]. split; [reflexivity|]. split; [discriminate|].
    intros _ _ F. rewrite F in R2'. discriminate. }
  specialize (S3 s3 eq_refl).
  destruct (can_write env "../store-assets/screenshot-3-realtime.png") eqn:W3.
  2:{ exists 2%nat. cbn [fst snd].
      rewrite saved_cons_makedirs, saved_app, saved_cons_save, saved_app,
        saved_cons_save, N1, N2, N3.
      cbn [app file_sizes map firstn]. rewrite S1, S2.
      split; [lia|]. split; [reflexivity|]. split; [discriminate|].
      intros _ _ F. rewrite F in R2'. discriminate. }
  destruct r4 as [e4|s4].
  { exists 3%nat. cbn [fst snd].
    rewrite saved_cons_makedirs, saved_app, saved_cons_save, saved_app,
      saved_cons_save, saved_app, saved_cons_save, N1, N2, N3, N4.
    cbn [app file_sizes map firstn]. rewrite S1, S2, S3.
    split; [lia|]. split; [reflexivity|]. split; [discriminate|].
    intros _ _ F. rewrite F in R2'. discriminate. }
  specialize (S4 s4 eq_refl).
  destruct (can_write env "../store-assets/promo-tile-440x280.png") eqn:W4.
  2:{ exists 3%nat. cbn [fst snd].
      rewrite saved_cons_makedirs, saved_app, saved_cons_save, saved_app,
        saved_cons_save, saved_app, saved_cons_save, N1, N2, N3, N4.
      cbn [app file_sizes map firstn]. rewrite S1, S2, S3.
      split; [lia|]. split; [reflexivity|]. split; [discriminate|].
      intros _ _ F. rewrite F in R2'. discriminate. }
  exists 4%nat. cbn [fst snd].
  rewrite saved_cons_makedirs, saved_app, saved_cons_save, saved_app,
    saved_cons_save, saved_app, saved_cons_save, saved_app, saved_cons_save,
    N1, N2, N3, N4.
  cbn [app file_sizes map firstn saved flat_map]. rewrite S1, S2, S3, S4.
  split; [lia|]. split; [reflexivity|]. split; [reflexivity|].
  intros _ _ F. rewrite F in R2'. discriminate.
Qed.

Lemma store_files_saved_in_order_witness :
  result main bitmap_machine = inl UnicodeEncodeError /\
  file_sizes (saved (log main bitmap_machine))
  = [("../store-assets/screenshot-1-converter.png", (1280, 800))]%string.
Proof.
  destruct (store_files_saved_in_order bitmap_machine) as (n & _ & F & _ & H).
  destruct H as [-> E]; [reflexivity | | reflexivity |].
  - destruct (screenshot_1_run bitmap_machine) as [X|[_ (f & Hf)]];
      [exact X | discriminate Hf].
  - split; [exact E | exact F].
Defined.

End ScreenshotCoverage.

(* ================================================================== *)
(** ** create-store-assets.py: the result card of the mock popup *)

Section PopupCard.
Import CreateStoreAssets.

Lemma length_range (n : Z) : List.length (range n) = Z.to_nat n.
Proof. unfold range. rewrite length_map, length_seq. reflexivity. Qed.

Lemma nth_error_next {A} (a : A) (l : list A) (n : nat) :
  nth_error (a :: l) (S n) = nth_error l n.
Proof. reflexivity. Qed.

Lemma popup_card_rows (env : Env) (w h : Z) :
  82 <= w <= WIDTH_MAX -> 0 <= h <= INT_MAX ->
  match result (create_mock_popup (w, h)) env with
  | inr img =>
      (forall i, 0 <= i < 100 ->
         nth_error (image_ops img) (Z.to_nat (15 + i)) = Some (card_line w i)) /\
      nth_error (image_ops img) 115
        = Some (RoundedRectangle (16, 236, w - 16, 336) 12 None)
  | inl _ => True
  end.
Proof.
  intros Hw Hh.
  assert (Hw' : 0 <= w <= WIDTH_MAX) by lia.
  unfold result. run_popup env w h Hw' Hh.
  all: match goal with
       | |- context [text_bbox ?e ?f ?t] =>
           destruct (text_bbox e f t) as [[[[bx0 by0] bx1] by1]|]
       end; run_step; [|exact I].
  all: settle.
  all: cbn [draw].
  all: match goal with
       | |- context [fold_left (fun (img : image) (i : Z) => draw img (@?f i))
                       (range 100) (Canvas ?m ?cw ?ch ?bg ?ops)] =>
           rewrite (fold_draw f (range 100) m cw ch bg ops);
           rewrite (map_ext f (card_line w))
             by (intros i; unfold card_line, interpolate;
                 change (16 + 40 + 20 + 20 + 60 + 20 + 60) with 236; reflexivity)
       end.
  all: cbn [draw].
  all: cbn [image_ops]; rewrite <- !app_assoc; cbn [app]; split.
  all: try (intros i Hi; rewrite Z2Nat.inj_add by lia;
            change (Z.to_nat 15) with 15%nat; cbn [Nat.add nth_error];
            rewrite nth_error_app1 by (rewrite length_map, length_range; lia);
            rewrite nth_error_map, (range_nth 100 i Hi); reflexivity).
  all: do 15 rewrite nth_error_next;
       rewrite nth_error_app2 by (rewrite length_map, length_range; lia);
       rewrite length_map, length_range; reflexivity.
Qed.

Lemma card_ratio_range (i : Z) :
  0 <= i < 100 -> (0 <= int_true_div i 100 /\ int_true_div i 100 <= 1)%Q.
Proof.
  intros Hi. split.
  - apply Qle_trans with (int_true_div 0 100); [vm_compute; discriminate|].
    apply int_true_div_mono; lia.
  - apply Qle_trans with (int_true_div 100 100); [|vm_compute; discriminate].
    apply int_true_div_mono; lia.
Qed.

(** X16.  The result card of the mock popup is a gradient of its own, one
    line per row on rows 236 to 335, interpolated at the plain ratio
    [i / 100].  Unlike the background it starts on the pure start colour
    (37, 99, 235); it ends on the pure end colour (30, 64, 175), where
    [int()] truncates onto it; and from row to row no channel ever rises.
    The call that follows the rows, meant to round the corners of the card,
    carries no fill. *)
Theorem popup_card_runs_start_to_end (env : Env) (w h : Z) (img : image) :
  result (create_mock_popup (w, h)) env = inr img ->
  exists colour : Z -> Z * Z * Z,
    (forall i, 0 <= i < 100 -> card_row img i = Some (236 + i, colour i)) /\
    colour 0 = (37, 99, 235) /\
    colour 99 = (30, 64, 175) /\
    nth_error (image_ops img) 115
      = Some (RoundedRectangle (16, 236, w - 16, 336) 12 None) /\
    (forall i j, 0 <= i -> i <= j -> j < 100 ->
       let '(r, g, b) := colour i in
       let '(r', g', b') := colour j in
       30 <= r' <= r /\ r <= 37 /\ 64 <= g' <= g /\ g <= 99 /\
       175 <= b' <= b /\ b <= 235).
Proof.
  intros H.
  destruct (popup_inv env w h img H) as [Hw Hh].
  pose proof (popup_card_rows env w h Hw Hh) as R. rewrite H in R.
  destruct R as [R Rc].
  exists (fun i => (interpolate 37 30 (int_true_div i 100),
                    interpolate 99 64 (int_true_div i 100),
                    interpolate 235 175 (int_true_div i 100))).
  split; [|split; [|split; [|split]]].
  - intros i Hi. unfold card_row. rewrite (R i Hi). unfold card_line.
    cbv zeta. rewrite Z.eqb_refl. reflexivity.
  - vm_compute. reflexivity.
  - vm_compute. reflexivity.
  - exact Rc.
  - intros i j Hi Hij Hj.
    assert (M : (int_true_div i 100 <= int_true_div j 100)%Q)
      by (apply int_true_div_mono; lia).
    destruct (card_ratio_range i ltac:(lia)) as [I0 I1].
    destruct (card_ratio_range j ltac:(lia)) as [J0 J1].
    pose proof (interpolate_toward 37 30 _ _ M) as [_ Tr].
    pose proof (interpolate_toward 99 64 _ _ M) as [_ Tg].
    pose proof (interpolate_toward 235 175 _ _ M) as [_ Tb].
    pose proof (interpolate_between 37 30 _ ltac:(lia) ltac:(lia) I0 I1) as Bri.
    pose proof (interpolate_between 99 64 _ ltac:(lia) ltac:(lia) I0 I1) as Bgi.
    pose proof (interpolate_between 235 175 _ ltac:(lia) ltac:(lia) I0 I1) as Bbi.
    pose proof (interpolate_between 37 30 _ ltac:(lia) ltac:(lia) J0 J1) as Brj.
    pose proof (interpolate_between 99 64 _ ltac:(lia) ltac:(lia) J0 J1) as Bgj.
    pose proof (interpolate_between 235 175 _ ltac:(lia) ltac:(lia) J0 J1) as Bbj.
    unfold between in *.
    specialize (Tr ltac:(lia)). specialize (Tg ltac:(lia)). specialize (Tb ltac:(lia)).
    lia.
Qed.

Lemma popup_card_runs_start_to_end_witness :
  exists img colour,
    result (create_mock_popup (360, 420)) fontless_machine = inr img /\
    card_row img 0 = Some (236 + 0, colour 0) /\
    colour 0 = (37, 99, 235).
Proof.
  assert (Hw : 82 <= 360 <= WIDTH_MAX) by (vm_compute; split; discriminate).
  assert (Hh : 0 <= 420 <= INT_MAX) by (unfold INT_MAX; lia).
  destruct (popup_run fontless_machine 360 420 Hw Hh) as [(img & H & _)|[_ (f & Hf)]];
    [|discriminate Hf].
  destruct (popup_card_runs_start_to_end fontless_machine 360 420 img H)
    as (colour & R & C0 & _).
  exists img, colour. split; [exact H|]. split; [apply R; lia | exact C0].
Defined.

End PopupCard.
